(** * A shallow embedding of the Java compile-and-run service (index.js)

    The service is a single Express handler, [POST /run], which writes the
    request's sources into a fresh temporary directory, runs [javac] and
    [java] as child processes under a wall-clock timeout and answers with
    the captured output.  This file embeds the functions of [index.js] one
    by one and proves the properties the specification states about them.

    Conventions of the embedding:
    - a JavaScript string is the list of its UTF-16 code units;
    - the file system is a tree of regular files and directories, addressed
      by path strings that go through a model of Node's POSIX [path] module;
    - a child process is what the event loop delivers for it: a list of
      [data], timer and [close] events, chosen by the environment;
    - an [async] function is a state-passing computation over the world
      (file system and a log of observable actions) that returns a value,
      throws, or stays pending for ever. *)

From Stdlib Require Import Ascii String.
From Stdlib Require Import List NArith ZArith Bool Arith Lia.
Import ListNotations.
Open Scope string_scope.
Open Scope list_scope.

Set Implicit Arguments.

(** ** JavaScript strings *)

Module JsString.

(** One UTF-16 code unit. *)
Definition char16 := N.

Definition jsstring := list char16.

(** An ASCII literal of the source, as code units. *)
Definition str (s : string) : jsstring :=
  map N_of_ascii (list_ascii_of_string s).

Definition char_eqb (a b : char16) : bool := N.eqb a b.

Fixpoint str_eqb (a b : jsstring) : bool :=
  match a, b with
  | [], [] => true
  | x :: a', y :: b' => char_eqb x y && str_eqb a' b'
  | _, _ => false
  end.

(** [s.startsWith(p)], also returning what follows the prefix. *)
Fixpoint strip_prefix (p s : jsstring) : option jsstring :=
  match p with
  | [] => Some s
  | x :: p' =>
      match s with
      | [] => None
      | y :: s' => if char_eqb x y then strip_prefix p' s' else None
      end
  end.

Definition startsWith (s p : jsstring) : bool :=
  match strip_prefix p s with Some _ => true | None => false end.

(** [s.endsWith(p)]. *)
Definition endsWith (s p : jsstring) : bool :=
  startsWith (rev s) (rev p).

Definition CR : char16 := 13%N.
Definition LF : char16 := 10%N.
Definition SLASH : char16 := 47%N.

(** ECMAScript WhiteSpace and LineTerminator code units: the set both
    [String.prototype.trim] and the regular-expression class [\s] use. *)
Definition is_space (c : char16) : bool :=
  ((9 <=? c) && (c <=? 13) || (c =? 32) || (c =? 160) || (c =? 5760)
   || (8192 <=? c) && (c <=? 8202) || (c =? 8232) || (c =? 8233)
   || (c =? 8239) || (c =? 8287) || (c =? 12288) || (c =? 65279))%N.

Fixpoint trimStart (s : jsstring) : jsstring :=
  match s with
  | [] => []
  | c :: s' => if is_space c then trimStart s' else s
  end.

Definition trimEnd (s : jsstring) : jsstring := rev (trimStart (rev s)).

(** [s.trim()]. *)
Definition trim (s : jsstring) : jsstring := trimEnd (trimStart s).

(** The longest prefix of characters in a class, and what follows it. *)
Fixpoint take_while (p : char16 -> bool) (s : jsstring) : jsstring :=
  match s with
  | [] => []
  | c :: s' => if p c then c :: take_while p s' else []
  end.

Fixpoint drop_while (p : char16 -> bool) (s : jsstring) : jsstring :=
  match s with
  | [] => []
  | c :: s' => if p c then drop_while p s' else s
  end.

(** Truthiness of a string: [!s] is [true] exactly on the empty string. *)
Definition is_empty (s : jsstring) : bool :=
  match s with [] => true | _ => false end.

End JsString.
Import JsString.

(** ** Constants and pure helpers of index.js *)

Definition TIMEOUT_MS : N := 15000.
Definition MAX_OUT : N := 30000.

(** [function normalize(s)]: on a string, every CR LF pair becomes LF
    (one left-to-right pass, as [replace] with the [g] flag does); a value
    that is not a string becomes the empty string. *)
Fixpoint replace_crlf (s : jsstring) : jsstring :=
  match s with
  | [] => []
  | c :: t =>
      if char_eqb c CR then
        match t with
        | d :: t' => if char_eqb d LF then LF :: replace_crlf t'
                     else c :: replace_crlf t
        | [] => [c]
        end
      else c :: replace_crlf t
  end.

Definition normalize (s : option jsstring) : jsstring :=
  match s with
  | Some s => replace_crlf s
  | None => []
  end.

Definition TRUNCATION_MARKER : jsstring := LF :: str "...output truncated".

(** [function truncate(s)]. *)
Definition truncate (s : jsstring) : jsstring :=
  if is_empty s then []
  else if (N.of_nat (length s) <=? MAX_OUT)%N then s
  else firstn (N.to_nat MAX_OUT) s ++ TRUNCATION_MARKER.

(** ** Regular expressions

    The two patterns of [detectMainClass] are built from literals, character
    classes, greedy repetition of a class and one capturing group.  The
    matcher is a backtracking matcher in continuation-passing style, the way
    the ECMAScript specification describes [RegExp.prototype.exec]: a greedy
    repetition first tries to take one more character and falls back to the
    continuation when the rest of the pattern fails. *)

Module Regex.

Inductive re : Type :=
| Lit (s : jsstring)            (* a run of literal characters *)
| Cls (p : char16 -> bool)      (* one character of a class *)
| Star (p : char16 -> bool)     (* [c*], greedy, over a class *)
| Plus (p : char16 -> bool)     (* [c+], greedy, over a class *)
| Seq (a b : re)
| Group (a : re).               (* [( ... )], the capture *)

(** [\w] and the class [[A-Za-z_]]. *)
Definition is_upper (c : char16) : bool := ((65 <=? c) && (c <=? 90))%N.
Definition is_lower (c : char16) : bool := ((97 <=? c) && (c <=? 122))%N.
Definition is_digit (c : char16) : bool := ((48 <=? c) && (c <=? 57))%N.
Definition is_underscore (c : char16) : bool := (c =? 95)%N.

Definition ident_start (c : char16) : bool :=
  is_upper c || is_lower c || is_underscore c.

Definition is_word (c : char16) : bool :=
  is_upper c || is_lower c || is_digit c || is_underscore c.

Section Matcher.
Variable R : Type.

(** Greedy [c*] followed by the continuation [k]. *)
Fixpoint star (p : char16 -> bool) (s : jsstring)
         (k : jsstring -> option R) : option R :=
  match s with
  | c :: s' =>
      if p c then
        match star p s' k with
        | Some r => Some r
        | None => k s
        end
      else k s
  | [] => k []
  end.

(** [m r cap s k]: match [r] at the front of [s] with the capture [cap]
    so far, then continue with [k] on the new capture and the rest. *)
Fixpoint m (r : re) (cap : option jsstring) (s : jsstring)
         (k : option jsstring -> jsstring -> option R) : option R :=
  match r with
  | Lit l =>
      match strip_prefix l s with
      | Some s' => k cap s'
      | None => None
      end
  | Cls p =>
      match s with
      | c :: s' => if p c then k cap s' else None
      | [] => None
      end
  | Star p => star p s (k cap)
  | Plus p =>
      match s with
      | c :: s' => if p c then star p s' (k cap) else None
      | [] => None
      end
  | Seq a b => m a cap s (fun cap' s' => m b cap' s' k)
  | Group a =>
      m a cap s
        (fun _ s' => k (Some (firstn (length s - length s') s)) s')
  end.
End Matcher.

(** A match result: what [m[1]] holds ([None] is [undefined]). *)
Record MatchResult := { group1 : option jsstring }.

Definition match_here (r : re) (s : jsstring) : option MatchResult :=
  m r None s (fun cap _ => Some {| group1 := cap |}).

(** [s.match(r)] for a pattern without the [g] flag: the match at the
    leftmost position where one exists, [None] for [null]. *)
Fixpoint exec (r : re) (s : jsstring) : option MatchResult :=
  match match_here r s with
  | Some res => Some res
  | None =>
      match s with
      | [] => None
      | _ :: s' => exec r s'
      end
  end.

End Regex.
Import Regex.

(** The pattern [public\s+class\s+(ID)], where [ID] stands for
    [[A-Za-z_]\w*]. *)
Definition RE_PUBLIC_CLASS : re :=
  Seq (Lit (str "public"))
    (Seq (Plus is_space)
       (Seq (Lit (str "class"))
          (Seq (Plus is_space)
             (Group (Seq (Cls ident_start) (Star is_word)))))).

(** The pattern [class\s+(ID)], with the same [ID]. *)
Definition RE_CLASS : re :=
  Seq (Lit (str "class"))
    (Seq (Plus is_space)
       (Group (Seq (Cls ident_start) (Star is_word)))).

(** [function detectMainClass(code)]; [None] is JavaScript's [null] (or an
    [undefined] capture). *)
Definition detectMainClass (code : jsstring) : option jsstring :=
  match exec RE_PUBLIC_CLASS code with
  | Some m => group1 m
  | None =>
      match exec RE_CLASS code with
      | Some m => group1 m
      | None => None
      end
  end.

(** Truthiness of a value that is a string, [null] or [undefined]. *)
Definition truthy (v : option jsstring) : bool :=
  match v with
  | Some s => negb (is_empty s)
  | None => false
  end.

(** [v || ""] for such a value. *)
Definition or_empty (v : option jsstring) : jsstring :=
  match v with
  | Some s => s
  | None => []
  end.

(** ** Node's POSIX [path] module *)

Module Path.

(** The segments between the slashes of a path, empty ones included. *)
Fixpoint split (s : jsstring) : list jsstring :=
  match s with
  | [] => [[]]
  | c :: t =>
      if char_eqb c SLASH then [] :: split t
      else
        match split t with
        | h :: r => (c :: h) :: r
        | [] => [[c]]
        end
  end.

Fixpoint join_segs (segs : list jsstring) : jsstring :=
  match segs with
  | [] => []
  | [x] => x
  | x :: rest => x ++ SLASH :: join_segs rest
  end.

Definition is_dot (seg : jsstring) : bool := str_eqb seg (str ".").
Definition is_dotdot (seg : jsstring) : bool := str_eqb seg (str "..").

(** One segment of [normalizeString]; [acc] is the result so far, last
    segment first. *)
Definition norm_step (allowAboveRoot : bool) (acc : list jsstring)
           (seg : jsstring) : list jsstring :=
  if is_empty seg || is_dot seg then acc
  else if is_dotdot seg then
    match acc with
    | top :: rest =>
        if is_dotdot top
        then (if allowAboveRoot then seg :: acc else acc)
        else rest
    | [] => if allowAboveRoot then [seg] else []
    end
  else seg :: acc.

Definition norm_segs (allowAboveRoot : bool) (segs : list jsstring)
  : list jsstring :=
  rev (fold_left (norm_step allowAboveRoot) segs []).

Definition is_absolute (p : jsstring) : bool :=
  match p with
  | c :: _ => char_eqb c SLASH
  | [] => false
  end.

Definition has_trailing_slash (p : jsstring) : bool :=
  match rev p with
  | c :: _ => char_eqb c SLASH
  | [] => false
  end.

(** [path.normalize(p)]. *)
Definition normalize_path (p : jsstring) : jsstring :=
  if is_empty p then str "."
  else
    let isAbsolute := is_absolute p in
    let trailingSeparator := has_trailing_slash p in
    let body := join_segs (norm_segs (negb isAbsolute) (split p)) in
    if is_empty body then
      if isAbsolute then str "/"
      else if trailingSeparator then str "./" else str "."
    else
      (if isAbsolute then [SLASH] else [])
        ++ body ++ (if trailingSeparator then [SLASH] else []).

(** [path.join(a, b)]. *)
Definition join (a b : jsstring) : jsstring :=
  if is_empty a then
    if is_empty b then str "." else normalize_path b
  else if is_empty b then normalize_path a
  else normalize_path (a ++ SLASH :: b).

Definition is_slash (c : char16) : bool := char_eqb c SLASH.

(** [path.dirname(p)]: scanning from the end (never looking at index 0),
    skip the trailing slashes, skip the last segment, and cut at the
    slash found there. *)
Definition dirname (p : jsstring) : jsstring :=
  match p with
  | [] => str "."
  | c0 :: tail =>
      let hasRoot := char_eqb c0 SLASH in
      let scanned :=
        drop_while (fun c => negb (is_slash c))
          (drop_while is_slash (rev tail)) in
      match scanned with
      | [] => if hasRoot then str "/" else str "."
      | _ :: before =>
          if hasRoot && is_empty before then str "//"
          else c0 :: rev before
      end
  end.

End Path.

(** ** The file system

    A tree of regular files and directories.  A path string is resolved
    from the root, segment by segment.  The operations are the four the
    service calls: [fs.mkdir] with [recursive], [fs.writeFile], [fs.readdir]
    and [fs.rm] with [recursive] and [force]. *)

Module Fs.

#[local] Set Warnings "-register-all".

(** The entries of a directory are kept as a list that is looked up by
    name; the order of the list says nothing about the order in which the
    directory is listed, which is the machine's (see [listed]). *)
Inductive node : Type :=
| File (data : jsstring)
| Dir (entries : list (jsstring * node)).

Inductive errno : Type :=
| ENOENT | EEXIST | ENOTDIR | EISDIR | EACCES | ENOSPC | EIO.

Inductive fsres : Type :=
| FsOk (n : node)
| FsErr (e : errno).

Definition segs_of (p : jsstring) : list jsstring :=
  Path.norm_segs false (Path.split p).

Fixpoint find_entry (name : jsstring) (es : list (jsstring * node))
  : option node :=
  match es with
  | [] => None
  | (k, v) :: rest => if str_eqb k name then Some v else find_entry name rest
  end.

Fixpoint set_entry (name : jsstring) (n : node)
         (es : list (jsstring * node)) : list (jsstring * node) :=
  match es with
  | [] => [(name, n)]
  | (k, v) :: rest =>
      if str_eqb k name then (name, n) :: rest
      else (k, v) :: set_entry name n rest
  end.

Definition remove_entry (name : jsstring) (es : list (jsstring * node))
  : list (jsstring * node) :=
  filter (fun kv => negb (str_eqb (fst kv) name)) es.

Fixpoint lookup (segs : list jsstring) (n : node) : option node :=
  match segs with
  | [] => Some n
  | s :: rest =>
      match n with
      | File _ => None
      | Dir es =>
          match find_entry s es with
          | Some child => lookup rest child
          | None => None
          end
      end
  end.

Definition exists_at (p : jsstring) (root : node) : bool :=
  match lookup (segs_of p) root with Some _ => true | None => false end.

(** A fresh chain of nested directories. *)
Fixpoint mkchain (segs : list jsstring) : node :=
  match segs with
  | [] => Dir []
  | s :: rest => Dir [(s, mkchain rest)]
  end.

(** [mkdir -p]: existing directories are kept, missing ones are created,
    a regular file in the way is an error. *)
Fixpoint mkdirp (segs : list jsstring) (n : node) : fsres :=
  match n with
  | File _ => FsErr (match segs with [] => EEXIST | _ => ENOTDIR end)
  | Dir es =>
      match segs with
      | [] => FsOk n
      | s :: rest =>
          match find_entry s es with
          | None => FsOk (Dir (es ++ [(s, mkchain rest)]))
          | Some child =>
              match mkdirp rest child with
              | FsOk child' => FsOk (Dir (set_entry s child' es))
              | FsErr e => FsErr e
              end
          end
      end
  end.

(** Create or overwrite a regular file; its directory must exist. *)
Fixpoint write_at (segs : list jsstring) (data : jsstring) (n : node)
  : fsres :=
  match n with
  | File _ => FsErr ENOTDIR
  | Dir es =>
      match segs with
      | [] => FsErr EISDIR
      | s :: rest =>
          match rest with
          | [] =>
              match find_entry s es with
              | Some (Dir _) => FsErr EISDIR
              | _ => FsOk (Dir (set_entry s (File data) es))
              end
          | _ :: _ =>
              match find_entry s es with
              | None => FsErr ENOENT
              | Some child =>
                  match write_at rest data child with
                  | FsOk child' => FsOk (Dir (set_entry s child' es))
                  | FsErr e => FsErr e
                  end
              end
          end
      end
  end.

(** [rm -rf]: the entry and all below it go; a missing path is not an
    error. *)
Fixpoint rm_at (segs : list jsstring) (n : node) : node :=
  match n with
  | File _ => n
  | Dir es =>
      match segs with
      | [] => n
      | s :: rest =>
          match rest with
          | [] => Dir (remove_entry s es)
          | _ :: _ =>
              Dir (map (fun kv =>
                          if str_eqb (fst kv) s
                          then (fst kv, rm_at rest (snd kv))
                          else kv) es)
          end
      end
  end.

(** The calls of the [fs] module, as they appear in the log and as the
    environment's fault oracle sees them. *)
Inductive FsOp : Type :=
| OpMkdir (path : jsstring)
| OpWriteFile (path : jsstring) (data : jsstring)
| OpReaddir (path : jsstring)
| OpRm (path : jsstring).

Definition errno_text (e : errno) : jsstring :=
  match e with
  | ENOENT => str "ENOENT: no such file or directory"
  | EEXIST => str "EEXIST: file already exists"
  | ENOTDIR => str "ENOTDIR: not a directory"
  | EISDIR => str "EISDIR: illegal operation on a directory"
  | EACCES => str "EACCES: permission denied"
  | ENOSPC => str "ENOSPC: no space left on device"
  | EIO => str "EIO: i/o error"
  end.

Definition syscall_of (op : FsOp) : jsstring :=
  match op with
  | OpMkdir _ => str "mkdir"
  | OpWriteFile _ _ => str "open"
  | OpReaddir _ => str "scandir"
  | OpRm _ => str "rm"
  end.

Definition path_of (op : FsOp) : jsstring :=
  match op with
  | OpMkdir p | OpWriteFile p _ | OpReaddir p | OpRm p => p
  end.

End Fs.
Import Fs.

(** ** Thrown values *)

Inductive JsError : Type :=
| Error (message : jsstring)             (* [new Error(message)] *)
| SystemError (e : errno) (op : FsOp).   (* what a failed [fs] call rejects with *)

Definition message (e : JsError) : jsstring :=
  match e with
  | Error msg => msg
  | SystemError c op =>
      errno_text c ++ str ", " ++ syscall_of op
        ++ str " '" ++ path_of op ++ str "'"
  end.

(** [e?.message || e], as the string concatenation renders it: an error
    whose message is empty prints as its name. *)
Definition error_text (e : JsError) : jsstring :=
  if is_empty (message e) then str "Error" else message e.

(** ** The world, and asynchronous computations over it *)

(** What an outside observer can see the service do, in order. *)
Inductive Action : Type :=
| AFs (op : FsOp)
| ASpawn (cmd : jsstring) (args : list jsstring) (cwd : jsstring)
| ASetTimeout (ms : N)
| AStdinWrite (data : jsstring)
| AStdinEnd
| AKill (signal : jsstring)
| AClearTimeout
| ARespond (status : N) (output : jsstring).

Record World : Type := mkWorld {
  fs : node;
  log : list Action
}.

(** What the event loop delivers for one child process.  [exit] comes when
    the process has ended, [close] when its output streams have ended as
    well: a process whose descendants hold its output open has exited long
    before it closes.  [error] comes when the command could not be started
    or when a write to the input stream met a closed pipe. *)
Inductive Event : Type :=
| EvStdout (d : jsstring)        (* [data] on [child.stdout] *)
| EvStderr (d : jsstring)        (* [data] on [child.stderr] *)
| EvTimer                        (* the [setTimeout] callback is due *)
| EvClose (code : option Z)      (* [close]; [None] is a [null] exit code *)
| EvExit (code : option Z)       (* [exit] *)
| EvError.                       (* [error] on the child or on [child.stdin] *)

(** What the operating system is asked to run. *)
Record SpawnReq : Type := mkSpawnReq {
  sp_cmd : jsstring;
  sp_args : list jsstring;
  sp_cwd : jsstring;
  sp_stdin : option jsstring     (* what was written before the stream ended *)
}.

(** Everything the service does not decide itself. *)
Record Env : Type := mkEnv {
  tmpdir : jsstring;                              (* [os.tmpdir()] *)
  fault : FsOp -> node -> option errno;           (* a failing [fs] call *)
  lists_before : jsstring -> jsstring -> bool;    (* the order in which
                                                     [readdir] lists names *)
  spawn_throws : SpawnReq -> option JsError;      (* [spawn] itself throws:
                                                     an argument with a NUL
                                                     byte, [E2BIG] *)
  child : SpawnReq -> node -> list Event * node   (* a process: its events
                                                     and what it leaves on
                                                     the file system *)
}.

(** The ways an awaited computation can go: it returns, it throws, it
    never settles, or the service process ends under it. *)
Inductive Outcome (A : Type) : Type :=
| Val (a : A)
| Throw (e : JsError)
| Pending
| Crashed.

Arguments Val {A} a.
Arguments Throw {A} e.
Arguments Pending {A}.
Arguments Crashed {A}.

Definition M (A : Type) : Type := World -> Outcome A * World.

Definition ret {A} (a : A) : M A := fun w => (Val a, w).

Definition bind {A B} (c : M A) (k : A -> M B) : M B :=
  fun w =>
    match c w with
    | (Val a, w') => k a w'
    | (Throw e, w') => (Throw e, w')
    | (Pending, w') => (Pending, w')
    | (Crashed, w') => (Crashed, w')
    end.

Definition throw {A} (e : JsError) : M A := fun w => (Throw e, w).

Definition emit (a : Action) : M unit :=
  fun w => (Val tt, mkWorld (fs w) (log w ++ [a])).

Declare Scope async_scope.
Delimit Scope async_scope with async.
Notation "x <- c ;; k" := (bind c (fun x => k))
  (at level 61, c at next level, right associativity) : async_scope.
Notation "c ;; k" := (bind c (fun _ => k))
  (at level 61, right associativity) : async_scope.
Open Scope async_scope.

(** [try { body } catch (e) { handler e }] *)
Definition try_catch {A} (body : M A) (handler : JsError -> M A) : M A :=
  fun w =>
    match body w with
    | (Throw e, w') => handler e w'
    | other => other
    end.

(** [try { body } finally { fin }]: the finalizer runs once the body has
    returned or thrown, and the body's outcome stands unless the finalizer
    throws itself. *)
Definition try_finally {A} (body : M A) (fin : M unit) : M A :=
  fun w =>
    match body w with
    | (Pending, w') => (Pending, w')
    | (Crashed, w') => (Crashed, w')
    | (r, w') =>
        match fin w' with
        | (Val _, w'') => (r, w'')
        | (Throw e, w'') => (Throw e, w'')
        | (Pending, w'') => (Pending, w'')
        | (Crashed, w'') => (Crashed, w'')
        end
    end.

(** [promise.catch(() => {})] *)
Definition swallow (c : M unit) : M unit :=
  try_catch c (fun _ => ret tt).

(** [for (const x of xs) { body x }] *)
Fixpoint for_each {A} (xs : list A) (body : A -> M unit) : M unit :=
  match xs with
  | [] => ret tt
  | x :: rest => body x ;; for_each rest body
  end.

(** ** The request body

    The fields carry the types the HTTP interface documents; [None] is a
    field the JSON body does not have. *)

Record SourceFile : Type := mkSourceFile {
  name : option jsstring;
  content : option jsstring
}.

Record Body : Type := mkBody {
  code : option jsstring;
  files : option (list SourceFile);
  mainClass : option jsstring;
  input : option jsstring
}.

(** ** The child-process runner's result and event handlers *)

Record ProcResult : Type := mkProcResult {
  exit_code : option Z;
  killedByTimeout : bool;
  stdout : jsstring;
  stderr : jsstring
}.

(** The variables the closures of [runProcess] share. *)
Record RunState : Type := mkRunState {
  st_out : jsstring;
  st_err : jsstring;
  st_killed : bool;
  st_timer : bool     (* the timer is set and has neither fired nor been cleared *)
}.

Definition run_init : RunState := mkRunState [] [] false true.

Definition SIGKILL : jsstring := str "SIGKILL".

(** The event handlers of [runProcess], run on the events in the order the
    event loop delivers them, up to the [close] event that resolves the
    promise.  The result is the resolved value ([None] when no [close]
    event arrives) and the actions the handlers took.  Nothing listens for
    [exit], which passes unnoticed, and nothing listens for [error], where
    the handlers stop for good: see [dies]. *)
Fixpoint deliver (evs : list Event) (st : RunState)
  : option ProcResult * list Action :=
  match evs with
  | [] => (None, [])
  | EvStdout d :: rest =>
      deliver rest (mkRunState (st_out st ++ d) (st_err st)
                               (st_killed st) (st_timer st))
  | EvStderr d :: rest =>
      deliver rest (mkRunState (st_out st) (st_err st ++ d)
                               (st_killed st) (st_timer st))
  | EvTimer :: rest =>
      if st_timer st then
        let '(r, acts) :=
          deliver rest (mkRunState (st_out st) (st_err st) true false) in
        (r, AKill SIGKILL :: acts)
      else deliver rest st
  | EvClose c :: _ =>
      (Some (mkProcResult c (st_killed st) (st_out st) (st_err st)),
       [AClearTimeout])
  | EvExit _ :: rest => deliver rest st
  | EvError :: _ => (None, [])
  end.

(** An [error] event that nothing listens for is thrown by the emitter,
    and nothing catches it: the service process ends.  [dies evs] says that
    this happens before the [close] event. *)
Fixpoint dies (evs : list Event) : bool :=
  match evs with
  | [] => false
  | EvError :: _ => true
  | EvClose _ :: _ => false
  | _ :: rest => dies rest
  end.

(** ** Messages *)

Definition CROSS : jsstring := [10060%N].              (* U+274C *)
Definition STOPWATCH : jsstring := [9201%N; 65039%N].  (* U+23F1 U+FE0F *)

Definition MSG_NO_JAVA : jsstring := CROSS ++ str " No .java files found.".
Definition MSG_COMPILE_TIMEOUT : jsstring :=
  STOPWATCH ++ str " Compile time limit exceeded.".
Definition MSG_COMPILE_ERROR : jsstring := CROSS ++ str " Compile error.".
Definition MSG_WAITED_FOR_INPUT : jsstring :=
  STOPWATCH
    ++ str " Program waited for input. Please type input in Input box (Scanner).".
Definition MSG_TIME_LIMIT : jsstring :=
  STOPWATCH ++ str " Time limit exceeded (possible infinite loop).".
Definition MSG_NO_MAIN : jsstring :=
  CROSS ++ str " mainClass not found. Use public class Main { ... }".
Definition MSG_NO_CLASS : jsstring := str "No class found in code.".
Definition MSG_SERVER_ERROR : jsstring := str "Server error: ".

(** ** The order of a listing

    [fs.readdir] returns the names of a directory in the order in which the
    machine lists them, which is not the order in which they were made: on
    Linux the names come sorted.  The order is the machine's, given as a
    comparison of names; the entries are put in that order by insertion. *)

Fixpoint insert_by {A} (before : A -> A -> bool) (x : A) (l : list A)
  : list A :=
  match l with
  | [] => [x]
  | y :: rest => if before x y then x :: l else y :: insert_by before x rest
  end.

Fixpoint sort_by {A} (before : A -> A -> bool) (l : list A) : list A :=
  match l with
  | [] => []
  | x :: rest => insert_by before x (sort_by before rest)
  end.

Definition listed {A} (before : jsstring -> jsstring -> bool)
           (entries : list (jsstring * A)) : list (jsstring * A) :=
  sort_by (fun a b => before (fst a) (fst b)) entries.

(** Names compared code unit by code unit. *)
Fixpoint str_leb (a b : jsstring) : bool :=
  match a, b with
  | [], _ => true
  | _ :: _, [] => false
  | x :: a', y :: b' =>
      if (x <? y)%N then true
      else if (y <? x)%N then false
      else str_leb a' b'
  end.

(** ** The service *)

Section Service.

Variable env : Env.

(** One call into the [fs] module: it is logged, it fails when the
    environment says so or when the tree does not allow it, and otherwise
    it updates the tree. *)
Definition fs_call (op : FsOp) (change : node -> fsres) : M unit :=
  fun w =>
    let w1 := mkWorld (fs w) (log w ++ [AFs op]) in
    match fault env op (fs w) with
    | Some e => (Throw (SystemError e op), w1)
    | None =>
        match change (fs w) with
        | FsOk n' => (Val tt, mkWorld n' (log w1))
        | FsErr e => (Throw (SystemError e op), w1)
        end
    end.

(** [fs.mkdir(p, { recursive: true })] *)
Definition fs_mkdir (p : jsstring) : M unit :=
  fs_call (OpMkdir p) (mkdirp (segs_of p)).

(** [fs.writeFile(p, data, "utf8")] *)
Definition fs_writeFile (p data : jsstring) : M unit :=
  fs_call (OpWriteFile p data) (write_at (segs_of p) data).

(** [fs.rm(p, { recursive: true, force: true })] *)
Definition fs_rm (p : jsstring) : M unit :=
  fs_call (OpRm p) (fun n => FsOk (rm_at (segs_of p) n)).

(** [fs.readdir(p, { withFileTypes: true })]; the entries themselves are
    taken from the tree by the caller. *)
Definition fs_readdir (p : jsstring) : M unit :=
  fs_call (OpReaddir p) FsOk.

(** [async function writeFiles(workDir, body)] *)
Definition writeFiles (workDir : jsstring) (body : Body) : M unit :=
  match files body with
  | Some ((_ :: _) as fl) =>
      for_each fl (fun f =>
        let name := trim (or_empty (name f)) in
        let content := normalize (Some (or_empty (content f))) in
        if negb (endsWith name (str ".java")) then ret tt
        else
          let fullPath := Path.join workDir name in
          fs_mkdir (Path.dirname fullPath) ;;
          fs_writeFile fullPath content)
  | _ =>
      let code := normalize (Some (or_empty (code body))) in
      let main := detectMainClass code in
      if negb (truthy main) then throw (Error MSG_NO_CLASS)
      else
        fs_writeFile (Path.join workDir (or_empty main ++ str ".java")) code
  end.

(** [function runProcess(cmd, args, { cwd, timeoutMs, input })] *)
Definition runProcess (cmd : jsstring) (args : list jsstring)
           (cwd : jsstring) (timeoutMs : option N) (input : option jsstring)
  : M ProcResult :=
  fun w =>
    let ms := match timeoutMs with
              | Some t => if (t =? 0)%N then TIMEOUT_MS else t
              | None => TIMEOUT_MS
              end in
    let written := match input with
                   | Some s => if (0 <? length s)%nat then Some s else None
                   | None => None
                   end in
    match spawn_throws env (mkSpawnReq cmd args cwd written) with
    | Some e => (Throw e, w)
    | None =>
        let sync :=
          [ASpawn cmd args cwd; ASetTimeout ms]
            ++ match written with
               | Some s => [AStdinWrite s]
               | None => []
               end
            ++ [AStdinEnd] in
        let '(evs, fs') := child env (mkSpawnReq cmd args cwd written) (fs w) in
        let '(res, acts) := deliver evs run_init in
        (match res with
         | Some r => Val r
         | None => if dies evs then Crashed else Pending
         end,
         mkWorld fs' (log w ++ sync ++ acts))
    end.

(** What the loop of [walk] does with one entry, given what was found so
    far. *)
Definition Visit : Type := list jsstring -> M (list jsstring).

(** [for (const it of items) { ... }], on the entries as listed. *)
Fixpoint visit_all (items : list (jsstring * Visit)) (acc : list jsstring)
  : M (list jsstring) :=
  match items with
  | [] => ret acc
  | (_, visit) :: rest => acc' <- visit acc ;; visit_all rest acc'
  end.

(** The inner [async function walk(dir)] of [runJavaLocal]; [acc] is the
    [javaFiles] array the closure pushes to.  The directory is read once,
    in the order in which the machine lists it, and the recursion follows
    what was read.  An entry of the tree is a directory or a regular file,
    so [it.isFile()] holds of every entry that [it.isDirectory()] does not
    hold of. *)
Fixpoint walk (dir : jsstring) (n : node) (acc : list jsstring)
         {struct n} : M (list jsstring) :=
  match n with
  | File _ => throw (SystemError ENOTDIR (OpReaddir dir))
  | Dir entries =>
      fs_readdir dir ;;
      visit_all
        (listed (lists_before env)
           (map (fun entry =>
                   match entry with
                   | (it_name, it) =>
                       let p := Path.join dir it_name in
                       (it_name,
                        match it with
                        | Dir _ => walk p it
                        | File _ =>
                            fun acc =>
                              ret (if endsWith p (str ".java")
                                   then acc ++ [p] else acc)
                        end)
                   end) entries))
        acc
  end.

(** [await walk(workDir)] from an empty [javaFiles]. *)
Definition walk_workDir (workDir : jsstring) : M (list jsstring) :=
  fun w =>
    match lookup (segs_of workDir) (fs w) with
    | Some n => walk workDir n [] w
    | None =>
        let op := OpReaddir workDir in
        (Throw (SystemError ENOENT op), mkWorld (fs w) (log w ++ [AFs op]))
    end.

(** [async function runJavaLocal({ workDir, mainClass, input })] *)
Definition runJavaLocal (workDir mainClass input : jsstring) : M jsstring :=
  javaFiles <- walk_workDir workDir ;;
  if (length javaFiles =? 0)%nat then ret MSG_NO_JAVA
  else
    c <- runProcess (str "javac")
           ([str "-encoding"; str "UTF-8"; str "-d"; workDir] ++ javaFiles)
           workDir (Some TIMEOUT_MS) None ;;
    let compileOut := truncate (stdout c ++ stderr c) in
    if killedByTimeout c then ret MSG_COMPILE_TIMEOUT
    else if negb (match exit_code c with Some z => (z =? 0)%Z | None => false end)
    then ret (if is_empty compileOut then MSG_COMPILE_ERROR else compileOut)
    else
      r <- runProcess (str "java")
             [str "-Xms16m"; str "-Xmx256m"; str "-cp"; workDir; mainClass]
             workDir (Some TIMEOUT_MS)
             (Some (normalize (Some input) ++ [LF])) ;;
      if killedByTimeout r then
        if is_empty (trim input) then ret MSG_WAITED_FOR_INPUT
        else ret MSG_TIME_LIMIT
      else ret (truncate (stdout r ++ stderr r)).

(** [res.json({ output })], with the status set before it. *)
Definition respond (status : N) (output : jsstring) : M unit :=
  emit (ARespond status output).

(** The handler of [POST /run]; [id] is the value [uuid()] returns for
    this request. *)
Definition post_run (id : jsstring) (body : Body) : M unit :=
  let input := normalize (Some (or_empty (input body))) in
  let workDir := Path.join (tmpdir env) (str "java-run-" ++ id) in
  try_finally
    (try_catch
       (fs_mkdir workDir ;;
        writeFiles workDir body ;;
        let mainClass0 := trim (or_empty (mainClass body)) in
        let mainClass :=
          if is_empty mainClass0 then
            let code := normalize (Some (or_empty (code body))) in
            let autoMain := detectMainClass code in
            if truthy autoMain then or_empty autoMain else mainClass0
          else mainClass0 in
        if is_empty mainClass then respond 200 MSG_NO_MAIN
        else
          output <- runJavaLocal workDir mainClass input ;;
          respond 200 output)
       (fun e => respond 500 (MSG_SERVER_ERROR ++ error_text e)))
    (swallow (fs_rm workDir)).

End Service.

(** ** Vocabulary of the properties *)

(** Projections of a log. *)
Definition responses (l : list Action) : list (N * jsstring) :=
  flat_map (fun a => match a with ARespond s o => [(s, o)] | _ => [] end) l.

Definition spawns (l : list Action) : list (jsstring * list jsstring) :=
  flat_map (fun a => match a with ASpawn c args _ => [(c, args)] | _ => [] end) l.

Definition kills (l : list Action) : list jsstring :=
  flat_map (fun a => match a with AKill s => [s] | _ => [] end) l.

(** What concerns the children's input streams, in order. *)
Definition is_stdin_action (a : Action) : bool :=
  match a with
  | ASpawn _ _ _ | AStdinWrite _ | AStdinEnd => true
  | _ => false
  end.

Definition stdin_view (l : list Action) : list Action :=
  filter is_stdin_action l.

(** Projections of an event list. *)
Definition is_close (e : Event) : bool :=
  match e with EvClose _ => true | _ => false end.

Definition is_timer (e : Event) : bool :=
  match e with EvTimer => true | _ => false end.

Definition is_error (e : Event) : bool :=
  match e with EvError => true | _ => false end.

Definition is_exit (e : Event) : bool :=
  match e with EvExit _ => true | _ => false end.

Definition no_close (evs : list Event) : bool := negb (existsb is_close evs).
Definition no_error (evs : list Event) : bool := negb (existsb is_error evs).
Definition timer_fired (evs : list Event) : bool := existsb is_timer evs.
Definition has_exited (evs : list Event) : bool := existsb is_exit evs.

Definition stdout_of (evs : list Event) : jsstring :=
  flat_map (fun e => match e with EvStdout d => d | _ => [] end) evs.

Definition stderr_of (evs : list Event) : jsstring :=
  flat_map (fun e => match e with EvStderr d => d | _ => [] end) evs.

(** What [runProcess] writes to the child's input for a given [input]
    option. *)
Definition stdin_payload (input : option jsstring) : option jsstring :=
  match input with
  | Some (c :: s) => Some (c :: s)
  | _ => None
  end.

(** The two requests [runJavaLocal] makes to the operating system. *)
Definition javac_req (workDir : jsstring) (javaFiles : list jsstring)
  : SpawnReq :=
  mkSpawnReq (str "javac")
    ([str "-encoding"; str "UTF-8"; str "-d"; workDir] ++ javaFiles)
    workDir None.

Definition java_req (workDir mainClass input : jsstring) : SpawnReq :=
  mkSpawnReq (str "java")
    [str "-Xms16m"; str "-Xmx256m"; str "-cp"; workDir; mainClass]
    workDir (Some (replace_crlf input ++ [LF])).

(** The value a child's events resolve the runner's promise with. *)
Definition resolved (evs : list Event) : option ProcResult :=
  fst (deliver evs run_init).

(** [timeoutMs || TIMEOUT_MS] *)
Definition effective_timeout (timeoutMs : option N) : N :=
  match timeoutMs with
  | Some t => if (t =? 0)%N then TIMEOUT_MS else t
  | None => TIMEOUT_MS
  end.

(** Everything one call of the runner adds to the log: the spawn, the
    timer, the input stream, and what the handlers do on the events. *)
Definition runner_log (req : SpawnReq) (ms : N) (evs : list Event)
  : list Action :=
  [ASpawn (sp_cmd req) (sp_args req) (sp_cwd req); ASetTimeout ms]
    ++ match sp_stdin req with
       | Some s => [AStdinWrite s]
       | None => []
       end
    ++ [AStdinEnd]
    ++ snd (deliver evs run_init).

(** ** The pipeline as the specification describes it

    The terminal states of the build-and-run state machine, what each one
    sends back, and the rules that lead to each, with the steps (child
    processes) each rule goes through. *)

Inductive Terminal : Type :=
| NoSources
| CompileTimeout
| CompileError (output : jsstring)
| RunTimeout
| SuccessWithOutput (output : jsstring).

(** The string [runJavaLocal] returns in a terminal state. *)
Definition render (input : jsstring) (t : Terminal) : jsstring :=
  match t with
  | NoSources => MSG_NO_JAVA
  | CompileTimeout => MSG_COMPILE_TIMEOUT
  | CompileError output =>
      if is_empty output then MSG_COMPILE_ERROR else output
  | RunTimeout =>
      if is_empty (trim input) then MSG_WAITED_FOR_INPUT else MSG_TIME_LIMIT
  | SuccessWithOutput output => output
  end.

(** A step is a spawned command with its arguments. *)
Definition Step : Type := (jsstring * list jsstring)%type.

Definition compile_step (workDir : jsstring) (javaFiles : list jsstring)
  : Step :=
  (sp_cmd (javac_req workDir javaFiles), sp_args (javac_req workDir javaFiles)).

Definition run_step (workDir mainClass input : jsstring) : Step :=
  (sp_cmd (java_req workDir mainClass input),
   sp_args (java_req workDir mainClass input)).

Definition exit_zero (r : ProcResult) : bool :=
  match exit_code r with
  | Some z => (z =? 0)%Z
  | None => false
  end.

Definition capped_output (r : ProcResult) : jsstring :=
  truncate (stdout r ++ stderr r).

(** The specification's "length-capped": a text within the budget of 30000
    code units is carried as it is, a longer one as its first 30000 code
    units followed by the truncation marker. *)
Definition capped (text carried : jsstring) : Prop :=
  ((N.of_nat (length text) <= 30000)%N -> carried = text)
  /\ ((30000 < N.of_nat (length text))%N ->
      carried = firstn (N.to_nat 30000) text
                  ++ LF :: str "...output truncated").

Section Pipeline.

Variable env : Env.
Variables workDir mainClass input : jsstring.
Variable w : World.

Inductive reaches : Terminal -> list Step -> Prop :=
| reach_no_sources w1 :
    walk_workDir env workDir w = (Val [], w1) ->
    reaches NoSources []
| reach_compile_timeout javaFiles w1 c :
    walk_workDir env workDir w = (Val javaFiles, w1) ->
    javaFiles <> [] ->
    spawn_throws env (javac_req workDir javaFiles) = None ->
    resolved (fst (child env (javac_req workDir javaFiles) (fs w1))) = Some c ->
    killedByTimeout c = true ->
    reaches CompileTimeout [compile_step workDir javaFiles]
| reach_compile_error javaFiles w1 c output :
    walk_workDir env workDir w = (Val javaFiles, w1) ->
    javaFiles <> [] ->
    spawn_throws env (javac_req workDir javaFiles) = None ->
    resolved (fst (child env (javac_req workDir javaFiles) (fs w1))) = Some c ->
    killedByTimeout c = false ->
    exit_zero c = false ->
    capped (stdout c ++ stderr c) output ->
    reaches (CompileError output) [compile_step workDir javaFiles]
| reach_run_timeout javaFiles w1 c r :
    walk_workDir env workDir w = (Val javaFiles, w1) ->
    javaFiles <> [] ->
    spawn_throws env (javac_req workDir javaFiles) = None ->
    resolved (fst (child env (javac_req workDir javaFiles) (fs w1))) = Some c ->
    killedByTimeout c = false ->
    exit_zero c = true ->
    spawn_throws env (java_req workDir mainClass input) = None ->
    resolved (fst (child env (java_req workDir mainClass input)
                     (snd (child env (javac_req workDir javaFiles) (fs w1)))))
    = Some r ->
    killedByTimeout r = true ->
    reaches RunTimeout
      [compile_step workDir javaFiles; run_step workDir mainClass input]
| reach_success javaFiles w1 c r output :
    walk_workDir env workDir w = (Val javaFiles, w1) ->
    javaFiles <> [] ->
    spawn_throws env (javac_req workDir javaFiles) = None ->
    resolved (fst (child env (javac_req workDir javaFiles) (fs w1))) = Some c ->
    killedByTimeout c = false ->
    exit_zero c = true ->
    spawn_throws env (java_req workDir mainClass input) = None ->
    resolved (fst (child env (java_req workDir mainClass input)
                     (snd (child env (javac_req workDir javaFiles) (fs w1)))))
    = Some r ->
    killedByTimeout r = false ->
    capped (stdout r ++ stderr r) output ->
    reaches (SuccessWithOutput output)
      [compile_step workDir javaFiles; run_step workDir mainClass input].

End Pipeline.

(** ** Class declarations, as the entry-point detection reads them

    The detection is lexical: a declaration is the keyword [class], white
    space, and an identifier taken as far as it goes; a public declaration
    is the word [public], white space, and such a declaration. *)

Definition identifier (n : jsstring) : Prop :=
  exists c rest,
    n = c :: rest /\ ident_start c = true /\ forallb is_word rest = true.

Definition white (ws : jsstring) : Prop :=
  ws <> [] /\ forallb is_space ws = true.

(** The name ends where [rest] begins. *)
Definition ends_name (rest : jsstring) : Prop :=
  match rest with
  | [] => True
  | c :: _ => is_word c = false
  end.

(** [s] begins with a declaration of the class [n]. *)
Definition class_decl (s n : jsstring) : Prop :=
  exists ws rest,
    s = str "class" ++ ws ++ n ++ rest
    /\ white ws /\ identifier n /\ ends_name rest.

(** [s] begins with a public declaration of the class [n]. *)
Definition public_class_decl (s n : jsstring) : Prop :=
  exists ws s',
    s = str "public" ++ ws ++ s' /\ white ws /\ class_decl s' n.

(** The first place in [code] where a declaration begins declares [n]. *)
Definition first_declared (decl : jsstring -> jsstring -> Prop)
           (code n : jsstring) : Prop :=
  exists pre suf,
    code = pre ++ suf
    /\ decl suf n
    /\ forall pre' suf' n',
        code = pre' ++ suf' -> length pre' < length pre -> ~ decl suf' n'.

(** No declaration begins anywhere in [code]. *)
Definition none_declared (decl : jsstring -> jsstring -> Prop)
           (code : jsstring) : Prop :=
  forall pre suf n, code = pre ++ suf -> ~ decl suf n.

(** A request that carries its source in [code]: no uploaded files. *)
Definition single_blob (body : Body) : Prop :=
  files body = None \/ files body = Some [].

(** ** Uploaded files *)

(** The body of the loop of [writeFiles], for one uploaded file. *)
Definition write_one (env : Env) (workDir : jsstring) (f : SourceFile)
  : M unit :=
  let name := trim (or_empty (name f)) in
  let content := normalize (Some (or_empty (content f))) in
  if negb (endsWith name (str ".java")) then ret tt
  else
    let fullPath := Path.join workDir name in
    fs_mkdir env (Path.dirname fullPath) ;;
    fs_writeFile env fullPath content.

(** The name under which an uploaded file is written, what is written, and
    whether it is written at all. *)
Definition upload_name (f : SourceFile) : jsstring := trim (or_empty (name f)).

Definition upload_data (f : SourceFile) : jsstring :=
  replace_crlf (or_empty (content f)).

Definition is_source (f : SourceFile) : bool :=
  endsWith (upload_name f) (str ".java").

Definition upload_path (workDir : jsstring) (f : SourceFile) : jsstring :=
  Path.join workDir (upload_name f).

(** The calls the loop makes for the uploads when none of them fails:
    for each upload that is a source, in turn, [mkdir] on the directory
    of its path and [writeFile] on its path. *)
Definition upload_calls (workDir : jsstring) (fl : list SourceFile)
  : list Action :=
  flat_map (fun f =>
              [AFs (OpMkdir (Path.dirname (upload_path workDir f)));
               AFs (OpWriteFile (upload_path workDir f) (upload_data f))])
    (filter is_source fl).

Fixpoint segs_eqb (a b : list jsstring) : bool :=
  match a, b with
  | [], [] => true
  | x :: a', y :: b' => str_eqb x y && segs_eqb a' b'
  | _, _ => false
  end.

(** The content of the last upload of the list that is written to the
    resolved path [q]. *)
Fixpoint last_written (workDir : jsstring) (q : list jsstring)
         (fl : list SourceFile) : option jsstring :=
  match fl with
  | [] => None
  | f :: rest =>
      match last_written workDir q rest with
      | Some d => Some d
      | None =>
          if is_source f && segs_eqb (segs_of (upload_path workDir f)) q
          then Some (upload_data f)
          else None
      end
  end.

(** [p] resolves to an entry below the directory [dir]. *)
Definition inside (dir p : jsstring) : Prop :=
  exists rel, rel <> [] /\ segs_of p = segs_of dir ++ rel.

(** No segment of the name is [..]. *)
Definition no_dotdot (name : jsstring) : Prop :=
  Forall (fun seg => Path.is_dotdot seg = false) (Path.split name).

(** A segment that names an entry: not empty, not [.], not [..]. *)
Definition proper (seg : jsstring) : bool :=
  negb (is_empty seg || Path.is_dot seg || Path.is_dotdot seg).

(** ** The handler, part by part *)

(** The entry-point name the handler passes to [runJavaLocal]: the
    [mainClass] field, trimmed, or else the class detected in [code]. *)
Definition entry_point (mainClass code : option jsstring) : jsstring :=
  let mainClass0 := trim (or_empty mainClass) in
  if is_empty mainClass0 then
    let autoMain := detectMainClass (normalize (Some (or_empty code))) in
    if truthy autoMain then or_empty autoMain else mainClass0
  else mainClass0.

Definition request_input (body : Body) : jsstring :=
  normalize (Some (or_empty (input body))).

Definition request_workDir (env : Env) (id : jsstring) : jsstring :=
  Path.join (tmpdir env) (str "java-run-" ++ id).

(** Writing the sources: the first two statements of the [try] block. *)
Definition materialize (env : Env) (workDir : jsstring) (body : Body)
  : M unit :=
  fs_mkdir env workDir ;; writeFiles env workDir body.

(** The [try] block of the handler. *)
Definition try_block (env : Env) (workDir : jsstring) (body : Body) : M unit :=
  materialize env workDir body ;;
  if is_empty (entry_point (mainClass body) (code body))
  then respond 200 MSG_NO_MAIN
  else
    output <- runJavaLocal env workDir
                (entry_point (mainClass body) (code body))
                (request_input body) ;;
    respond 200 output.

(** The world after the [finally] block: the removal is logged, and the
    work area is gone unless the removal failed. *)
Definition cleaned (env : Env) (workDir : jsstring) (w : World) : World :=
  mkWorld
    (match fault env (OpRm workDir) (fs w) with
     | Some _ => fs w
     | None => rm_at (segs_of workDir) (fs w)
     end)
    (log w ++ [AFs (OpRm workDir)]).

(** Two environments that differ at most in whether a removal fails. *)
Definition same_but_rm (env env' : Env) : Prop :=
  tmpdir env' = tmpdir env
  /\ (forall a b, lists_before env' a b = lists_before env a b)
  /\ (forall req, spawn_throws env' req = spawn_throws env req)
  /\ (forall req n, child env' req n = child env req n)
  /\ (forall op n, (forall p, op <> OpRm p) -> fault env' op n = fault env op n).

(** An environment in which every removal fails. *)
Definition rm_failing (env : Env) : Env :=
  mkEnv (tmpdir env)
    (fun op n => match op with OpRm _ => Some EACCES | _ => fault env op n end)
    (lists_before env) (spawn_throws env) (child env).

(** ** Readings by the emptiness of the input alone

    What the run-timeout message and the writes to the program's input
    would be if only the emptiness of the request's input decided them. *)

Definition timeout_message_by_emptiness (input : jsstring) : jsstring :=
  if is_empty input then MSG_WAITED_FOR_INPUT else MSG_TIME_LIMIT.

(** What was written to the children's input streams. *)
Definition stdin_writes (l : list Action) : list jsstring :=
  flat_map (fun a => match a with AStdinWrite d => [d] | _ => [] end) l.

(** The input and one newline when there is input, nothing when there is
    none. *)
Definition stdin_writes_by_emptiness (input : jsstring) : list jsstring :=
  if is_empty input then [] else [input ++ [LF]].

(** ** The types a source declares, as Java reads them

    What the specification calls a declared type: modifiers, then one of
    the words [class], [interface] and [enum], then the name; the type is
    declared publicly when [public] is among the modifiers.  The text is
    read word by word, a word being a run of letters, digits, [_] and [$],
    and any other character that is not white space a word of its own. *)

Definition is_java_letter (c : char16) : bool :=
  (is_word c || (c =? 36) || (128 <=? c))%N.

Definition flush (cur : jsstring) : list jsstring :=
  match cur with
  | [] => []
  | _ => [rev cur]
  end.

(** [cur] is the word being read, last character first. *)
Fixpoint java_words (cur : jsstring) (s : jsstring) : list jsstring :=
  match s with
  | [] => flush cur
  | c :: s' =>
      if is_java_letter c then java_words (c :: cur) s'
      else flush cur ++ (if is_space c then [] else [[c]]) ++ java_words [] s'
  end.

Definition is_modifier (word : jsstring) : bool :=
  existsb (str_eqb word)
    [str "public"; str "protected"; str "private"; str "abstract";
     str "static"; str "final"; str "strictfp"; str "sealed"].

Definition is_type_keyword (word : jsstring) : bool :=
  existsb (str_eqb word) [str "class"; str "interface"; str "enum"].

(** The declared types in the order of the text, each with whether it is
    declared publicly; [pub] says whether [public] is among the modifiers
    read so far. *)
Fixpoint declared_types (pub : bool) (ws : list jsstring)
  : list (bool * jsstring) :=
  match ws with
  | [] => []
  | word :: rest =>
      if is_modifier word
      then declared_types (pub || str_eqb word (str "public")) rest
      else if is_type_keyword word then
        match rest with
        | n :: rest' => (pub, n) :: declared_types false rest'
        | [] => []
        end
      else declared_types false rest
  end.

(** The first publicly declared type, failing that the first declared
    type. *)
Definition entry_point_as_declared (src : jsstring) : option jsstring :=
  let types := declared_types false (java_words [] src) in
  match filter fst types with
  | (_, n) :: _ => Some n
  | [] =>
      match types with
      | (_, n) :: _ => Some n
      | [] => None
      end
  end.

(** Sources on which the two readings part ways. *)
Definition src_public_final : jsstring :=
  str "class Helper {} public final class Main {}".

Definition src_dollar : jsstring := str "public class Price$Tag {}".

Definition src_interface : jsstring := str "public interface Shape {}".

(** ** Sample environments and worlds, for running the model *)

Definition no_fault : FsOp -> node -> option errno := fun _ _ => None.

(** A machine whose [javac] and [java] behave as scripted and leave the
    file system alone; it lists directories sorted by name, and its [spawn]
    does not throw. *)
Definition scripted_env (javac_events java_events : list Event) : Env :=
  mkEnv (str "/tmp") no_fault str_leb (fun _ => None)
    (fun req n =>
       if str_eqb (sp_cmd req) (str "javac") then (javac_events, n)
       else (java_events, n)).

(** A compiler that succeeds, and a program that is killed by the timer
    without having printed anything. *)
Definition hanging_env : Env :=
  scripted_env [EvClose (Some 0%Z)] [EvTimer; EvClose None].

(** A program that prints and is then killed by the timer, and one that
    prints and exits by itself. *)
Definition slow_env : Env :=
  scripted_env [] [EvStdout (str "tick"); EvTimer; EvClose None].

Definition quick_env : Env :=
  scripted_env [] [EvStdout (str "done"); EvClose (Some 0%Z)].

(** A program that ends in time while a descendant keeps its output
    open until after the timer. *)
Definition lingering_env : Env :=
  scripted_env [] [EvStdout (str "done"); EvExit (Some 0%Z); EvTimer;
                   EvClose (Some 0%Z)].

(** A machine without a compiler: starting [javac] fails, which the child
    reports by an [error] event. *)
Definition no_javac_env : Env :=
  scripted_env [EvError] [EvClose (Some 0%Z)].

(** A machine whose [spawn] refuses an argument that holds a NUL. *)
Definition has_nul (s : jsstring) : bool := existsb (fun c => (c =? 0)%N) s.

Definition nul_checking_env : Env :=
  mkEnv (str "/tmp") no_fault str_leb
    (fun req =>
       if existsb has_nul (sp_args req)
       then Some (Error (str "The argument 'args' must be a string without null bytes"))
       else None)
    (fun req n => ([EvClose (Some 0%Z)], n)).

(** A compiler that succeeds and a program that prints and exits. *)
Definition ok_env : Env :=
  scripted_env [EvClose (Some 0%Z)] [EvStdout (str "hi"); EvClose (Some 0%Z)].

(** A request of one uploaded file that declares a public class, with no
    [mainClass] and no [code]. *)
Definition upload_only : Body :=
  mkBody None
    (Some [mkSourceFile (Some (str "Main.java"))
                        (Some (str "public class Main {}"))])
    None None.

(** Sources: two classes of which the second is public, one class that
    is not public, and no class. *)
Definition src_public_second : jsstring :=
  str "class Helper {} public class Main {}".

Definition src_plain : jsstring := str "final class Tool_2{}".

Definition src_no_class : jsstring := str "int x = 1;".

(** Two uploads of which the second needs the first to be a directory,
    and an upload whose name ends in a space. *)
Definition clashing_upload : Body :=
  mkBody None
    (Some [mkSourceFile (Some (str "A.java")) (Some (str "class A {}"));
           mkSourceFile (Some (str "A.java/B.java")) (Some (str "class B {}"))])
    None None.

Definition spaced_upload : Body :=
  mkBody None
    (Some [mkSourceFile (Some (str "Main.java ")) (Some (str "class Main {}"))])
    None None.

(** An upload whose name climbs out of the work area. *)
Definition climbing_upload : Body :=
  mkBody None
    (Some [mkSourceFile (Some (str "../Evil.java")) (Some (str "class Evil {}"))])
    None None.

(** A root that holds an empty [/tmp]. *)
Definition empty_tmp : World := mkWorld (Dir [(str "tmp", Dir [])]) [].

(** A work area that holds one source file. *)
Definition sample_workDir : jsstring := str "/tmp/java-run-1".

Definition with_main : World :=
  mkWorld
    (Dir [(str "tmp",
           Dir [(str "java-run-1",
                 Dir [(str "Main.java", File (str "class Main {}"))])])])
    [].

(** ** Vocabulary of the proofs *)

Unset Implicit Arguments.

(** A segment: no slash in it. *)
Definition slash_free (seg : jsstring) : Prop :=
  forallb (fun c => negb (char_eqb c SLASH)) seg = true.

(** Where [s] stops being in the class [p]. *)
Definition stops (p : char16 -> bool) (s : jsstring) : Prop :=
  match s with
  | [] => True
  | c :: _ => p c = false
  end.

(** The two patterns of [detectMainClass], read from left to right without
    backtracking. *)
Definition parse_ident (s : jsstring) : option jsstring :=
  match s with
  | d :: s' => if ident_start d then Some (d :: take_while is_word s') else None
  | [] => None
  end.

Definition parse_space_then {A} (s : jsstring) (k : jsstring -> option A)
  : option A :=
  match s with
  | c :: s' => if is_space c then k (drop_while is_space s') else None
  | [] => None
  end.

Definition parse_class (s : jsstring) : option jsstring :=
  match strip_prefix (str "class") s with
  | Some s1 => parse_space_then s1 parse_ident
  | None => None
  end.

Definition parse_public_class (s : jsstring) : option jsstring :=
  match strip_prefix (str "public") s with
  | Some s1 => parse_space_then s1 parse_class
  | None => None
  end.

Definition captured (n : option jsstring) : option MatchResult :=
  match n with
  | Some n => Some {| group1 := Some n |}
  | None => None
  end.

(** Whether the pipeline goes on to the run step. *)
Definition proceeds (compile : option ProcResult) : bool :=
  match compile with
  | Some c => negb (killedByTimeout c) && exit_zero c
  | None => false
  end.

(** Whether [spawn] starts the command. *)
Definition starts (env : Env) (req : SpawnReq) : bool :=
  match spawn_throws env req with
  | Some _ => false
  | None => true
  end.

(** How a call that was started and has not resolved stands. *)
Definition unsettled {A} (evs : list Event) : Outcome A :=
  if dies evs then Crashed else Pending.

(** What [walk] does with one entry of the directory it reads. *)
Definition visit_of (env : Env) (dir : jsstring) (it_name : jsstring)
           (it : node) : Visit :=
  let p := Path.join dir it_name in
  match it with
  | Dir _ => walk env p it
  | File _ =>
      fun acc => ret (if endsWith p (str ".java") then acc ++ [p] else acc)
  end.

(** A computation that only reads: the tree stays and the log grows by
    [fs] calls. *)
Definition reads_only {A} (c : M A) : Prop :=
  forall w, exists ops,
    snd (c w) = mkWorld (fs w) (log w ++ map AFs ops).

(** A computation whose additions to the log all satisfy [q]. *)
Definition only (q : Action -> bool) {A} (c : M A) : Prop :=
  forall w, exists d, log (snd (c w)) = log w ++ d /\ forallb q d = true.

Definition is_fs_action (a : Action) : bool :=
  match a with AFs _ => true | _ => false end.

Definition is_not_response (a : Action) : bool :=
  match a with ARespond _ _ => false | _ => true end.

(** ** Vocabulary of the further properties *)

(** [pat] occurs in [s] as a run of consecutive code units. *)
Fixpoint occurs (pat s : jsstring) : bool :=
  startsWith s pat
  || match s with
     | [] => false
     | _ :: t => occurs pat t
     end.

Definition begins_with_lf (s : jsstring) : bool :=
  match s with
  | c :: _ => char_eqb c LF
  | [] => false
  end.

(** The listing [walk] computes, without the effects: the paths of the
    regular files below [dir] whose path ends in [.java], depth first, each
    directory in the order [before] in which it is listed. *)
Fixpoint java_paths (before : jsstring -> jsstring -> bool)
         (dir : jsstring) (n : node) : list jsstring :=
  match n with
  | File _ => []
  | Dir entries =>
      flat_map snd
        (listed before
           (map (fun entry =>
                   match entry with
                   | (it_name, it) =>
                       let p := Path.join dir it_name in
                       (it_name,
                        match it with
                        | Dir _ => java_paths before p it
                        | File _ => if endsWith p (str ".java") then [p] else []
                        end)
                   end) entries))
  end.

(** What one entry of a directory contributes to the listing. *)
Definition entry_paths (before : jsstring -> jsstring -> bool)
           (dir : jsstring) (entry : jsstring * node) : list jsstring :=
  let p := Path.join dir (fst entry) in
  match snd entry with
  | Dir _ => java_paths before p (snd entry)
  | File _ => if endsWith p (str ".java") then [p] else []
  end.

(** [p] is the path, from [dir], of a regular file of the tree [n], and it
    ends in [.java]. *)
Inductive java_file_below : jsstring -> node -> jsstring -> Prop :=
| java_file_here dir entries it_name data :
    In (it_name, File data) entries ->
    endsWith (Path.join dir it_name) (str ".java") = true ->
    java_file_below dir (Dir entries) (Path.join dir it_name)
| java_file_deeper dir entries it_name sub p :
    In (it_name, Dir sub) entries ->
    java_file_below (Path.join dir it_name) (Dir sub) p ->
    java_file_below dir (Dir entries) p.

(** Two resolved paths part ways: neither leads to the other. *)
Definition diverge (p q : list jsstring) : Prop :=
  exists common a b p' q',
    p = common ++ a :: p' /\ q = common ++ b :: q' /\ a <> b.

(** An environment in which no [fs] call fails for a reason of its own. *)
Definition fault_free (env : Env) : Prop :=
  forall op n, fault env op n = None.


(** The content of the last upload of the list that is written under the
    name [nm]. *)
Fixpoint last_upload (nm : jsstring) (fl : list SourceFile) : option jsstring :=
  match fl with
  | [] => None
  | f :: rest =>
      match last_upload nm rest with
      | Some d => Some d
      | None =>
          if is_source f && str_eqb (upload_name f) nm
          then Some (upload_data f)
          else None
      end
  end.

(** A directory that holds regular files only. *)
Definition flat (items : list (jsstring * node)) : Prop :=
  forall k v, In (k, v) items -> exists d, v = File d.

(** What the loop of [writeFiles] makes of a flat directory. *)
Definition put_upload (items : list (jsstring * node)) (f : SourceFile)
  : list (jsstring * node) :=
  if is_source f
  then set_entry (upload_name f) (File (upload_data f)) items
  else items.

(** A request whose [mainClass] holds a NUL. *)
Definition nul_class_request : Body :=
  mkBody (Some (str "public class Main {}")) None
         (Some (str "Main" ++ [0%N])) None.

(** What the handler does for it before it answers: the source is written
    and listed and the compiler runs. *)
Definition nul_class_calls : list Action :=
  [AFs (OpMkdir (str "/tmp/java-run-1"));
   AFs (OpWriteFile (str "/tmp/java-run-1/Main.java")
          (str "public class Main {}"));
   AFs (OpReaddir (str "/tmp/java-run-1"));
   ASpawn (str "javac")
     [str "-encoding"; str "UTF-8"; str "-d";
      str "/tmp/java-run-1"; str "/tmp/java-run-1/Main.java"]
     (str "/tmp/java-run-1");
   ASetTimeout 15000; AStdinEnd; AClearTimeout].
(** * Properties *)

(** ** Output capping *)

Lemma is_empty_length (s : jsstring) : is_empty s = true -> length s = 0%nat.
Proof. destruct s; simpl; [reflexivity | discriminate]. Qed.

(** C3. A string longer than the cap of 30000 code units is cut to its
    first 30000 code units followed by the truncation marker; a string at or
    below the cap is returned as it is. *)
Theorem truncate_cap (s : jsstring) :
  ((MAX_OUT < N.of_nat (length s))%N ->
   truncate s = firstn (N.to_nat 30000) s ++ LF :: str "...output truncated")
  /\ ((N.of_nat (length s) <= MAX_OUT)%N -> truncate s = s).
Proof.
  unfold truncate. split; intro H.
  - destruct (is_empty s) eqn:E.
    + apply is_empty_length in E. rewrite E in H. discriminate H.
    + apply N.leb_gt in H. rewrite H. reflexivity.
  - destruct (is_empty s) eqn:E.
    + destruct s; [reflexivity | discriminate E].
    + apply N.leb_le in H. rewrite H. reflexivity.
Qed.

Lemma truncate_cap_witness :
  truncate (repeat 97%N (N.to_nat 30001))
  = firstn (N.to_nat 30000) (repeat 97%N (N.to_nat 30001))
      ++ LF :: str "...output truncated"
  /\ truncate (str "hello") = str "hello".
Proof.
  split.
  - apply (proj1 (truncate_cap (repeat 97%N (N.to_nat 30001)))).
    vm_compute. reflexivity.
  - apply (proj2 (truncate_cap (str "hello"))).
    vm_compute. discriminate.
Defined.

(** ** The child-process runner *)

(** The handlers on any events that end with the first [close], when no
    [error] comes before it. *)
Lemma deliver_until_close (pre post : list Event) (c : option Z) :
  no_close pre = true -> no_error pre = true ->
  forall st,
    deliver (pre ++ EvClose c :: post) st
    = (Some (mkProcResult c
               (st_killed st || st_timer st && timer_fired pre)
               (st_out st ++ stdout_of pre)
               (st_err st ++ stderr_of pre)),
       (if st_timer st && timer_fired pre then [AKill SIGKILL] else [])
         ++ [AClearTimeout]).
Proof.
  unfold no_close, no_error, timer_fired.
  induction pre as [|ev pre IH]; intros Hnc Hne st.
  - simpl. rewrite andb_false_r, orb_false_r, !app_nil_r. reflexivity.
  - simpl in Hnc, Hne.
    destruct ev as [d|d| |c'|c'|]; simpl in Hnc, Hne; try discriminate.
    + cbn [app deliver]. rewrite (IH Hnc Hne). cbn.
      rewrite <- !app_assoc. reflexivity.
    + cbn [app deliver]. rewrite (IH Hnc Hne). cbn.
      rewrite <- !app_assoc. reflexivity.
    + cbn [app deliver existsb is_timer orb stdout_of stderr_of flat_map].
      destruct (st_timer st) eqn:T.
      * rewrite (IH Hnc Hne). cbn. rewrite orb_true_r. reflexivity.
      * rewrite (IH Hnc Hne), T. cbn. reflexivity.
    + cbn [app deliver]. rewrite (IH Hnc Hne). reflexivity.
Qed.

(** Without a [close] event the promise is never resolved. *)
Lemma deliver_no_close (evs : list Event) :
  no_close evs = true -> forall st, fst (deliver evs st) = None.
Proof.
  unfold no_close.
  induction evs as [|ev evs IH]; intros Hnc st; [reflexivity|].
  simpl in Hnc. destruct ev as [d|d| |c'|c'|]; simpl in Hnc; try discriminate;
    cbn [deliver]; try (apply IH; exact Hnc); [|reflexivity].
  destruct (st_timer st); [|apply IH; exact Hnc].
  specialize (IH Hnc (mkRunState (st_out st) (st_err st) true false)).
  destruct (deliver evs _). exact IH.
Qed.

(** An [error] before the [close] leaves the promise unresolved. *)
Lemma deliver_until_error (pre post : list Event) :
  no_close pre = true ->
  forall st, fst (deliver (pre ++ EvError :: post) st) = None.
Proof.
  unfold no_close.
  induction pre as [|ev pre IH]; intros Hnc st; [reflexivity|].
  simpl in Hnc. destruct ev as [d|d| |c'|c'|]; simpl in Hnc; try discriminate;
    cbn [app deliver]; try (apply IH; exact Hnc); [|reflexivity].
  destruct (st_timer st); [|apply IH; exact Hnc].
  specialize (IH Hnc (mkRunState (st_out st) (st_err st) true false)).
  destruct (deliver (pre ++ EvError :: post) _). exact IH.
Qed.

Lemma dies_until_error (pre post : list Event) :
  no_close pre = true -> dies (pre ++ EvError :: post) = true.
Proof.
  unfold no_close. induction pre as [|ev pre IH]; intros Hnc; [reflexivity|].
  simpl in Hnc. destruct ev; simpl in Hnc; try discriminate;
    (reflexivity || exact (IH Hnc)).
Qed.

Lemma dies_no_error (evs : list Event) :
  no_error evs = true -> dies evs = false.
Proof.
  unfold no_error. induction evs as [|ev evs IH]; intros Hne; [reflexivity|].
  simpl in Hne. destruct ev; simpl in Hne; try discriminate;
    try exact (IH Hne); reflexivity.
Qed.

Lemma runProcess_unfold (env : Env) cmd args cwd timeoutMs input w :
  runProcess env cmd args cwd timeoutMs input w
  = let req := mkSpawnReq cmd args cwd (stdin_payload input) in
    match spawn_throws env req with
    | Some e => (Throw e, w)
    | None =>
        let ch := child env req (fs w) in
        (match resolved (fst ch) with
         | Some r => Val r
         | None => if dies (fst ch) then Crashed else Pending
         end,
         mkWorld (snd ch)
           (log w ++ runner_log req (effective_timeout timeoutMs) (fst ch)))
    end.
Proof.
  unfold runProcess, runner_log, resolved, effective_timeout.
  assert (E : match input with
              | Some s => if (0 <? length s)%nat then Some s else None
              | None => None
              end = stdin_payload input).
  { destruct input as [[|c s]|]; reflexivity. }
  rewrite E. cbv zeta. destruct (spawn_throws env _); [reflexivity|].
  cbn [sp_cmd sp_args sp_cwd sp_stdin].
  destruct (child env _ (fs w)) as [evs fs']. cbn [fst snd].
  destruct (deliver evs run_init) as [res acts]. cbn [fst snd].
  rewrite <- !app_assoc. reflexivity.
Qed.




Lemma kills_app (a b : list Action) : kills (a ++ b) = kills a ++ kills b.
Proof. apply flat_map_app. Qed.

Lemma no_close_app (a b : list Event) :
  no_close (a ++ b) = no_close a && no_close b.
Proof. unfold no_close. rewrite existsb_app, negb_orb. reflexivity. Qed.

Lemma no_error_app (a b : list Event) :
  no_error (a ++ b) = no_error a && no_error b.
Proof. unfold no_error. rewrite existsb_app, negb_orb. reflexivity. Qed.

Lemma timer_fired_app (a b : list Event) :
  timer_fired (a ++ b) = timer_fired a || timer_fired b.
Proof. apply existsb_app. Qed.

Lemma kills_runner_log (req : SpawnReq) (ms : N) (evs : list Event) :
  kills (runner_log req ms evs) = kills (snd (deliver evs run_init)).
Proof. unfold runner_log. destruct (sp_stdin req); reflexivity. Qed.




(** ** Reading the work area *)

(** Induction on a tree, with the hypothesis on every entry of a
    directory. *)
Lemma node_ind_nested (P : node -> Prop) :
  (forall d, P (File d)) ->
  (forall es, Forall (fun kv => P (snd kv)) es -> P (Dir es)) ->
  forall n, P n.
Proof.
  intros HF HD. fix IH 1. intros [d|es].
  - apply HF.
  - apply HD. induction es as [|[k v] es IHes]; constructor.
    + apply IH.
    + exact IHes.
Qed.

Lemma reads_only_ret {A} (a : A) : reads_only (ret a).
Proof. intros w. exists []. destruct w. simpl. rewrite app_nil_r. reflexivity. Qed.

Lemma reads_only_throw {A} (e : JsError) : reads_only (@throw A e).
Proof. intros w. exists []. destruct w. simpl. rewrite app_nil_r. reflexivity. Qed.

Lemma reads_only_bind {A B} (c : M A) (k : A -> M B) :
  reads_only c -> (forall a, reads_only (k a)) -> reads_only (bind c k).
Proof.
  intros Hc Hk w. unfold bind. destruct (Hc w) as [ops1 E1].
  destruct (c w) as [[a|e| |] w1]; simpl in E1; subst w1.
  - destruct (Hk a (mkWorld (fs w) (log w ++ map AFs ops1))) as [ops2 E2].
    exists (ops1 ++ ops2). rewrite E2. simpl.
    rewrite map_app, app_assoc. reflexivity.
  - exists ops1. reflexivity.
  - exists ops1. reflexivity.
  - exists ops1. reflexivity.
Qed.

Lemma reads_only_readdir (env : Env) (p : jsstring) :
  reads_only (fs_readdir env p).
Proof.
  intros w. exists [OpReaddir p]. unfold fs_readdir, fs_call.
  destruct (fault env _ _); reflexivity.
Qed.

(** *** Listings: the entries in the machine's order *)

Lemma in_insert_by {A} (before : A -> A -> bool) (x y : A) (l : list A) :
  In y (insert_by before x l) <-> y = x \/ In y l.
Proof.
  induction l as [|z l IH]; cbn [insert_by].
  - cbn. split; [intros [H | []]; left; symmetry; exact H
                | intros [H | []]; left; symmetry; exact H].
  - destruct (before x z); cbn [In].
    + split; [intros [H | H]; [left; symmetry; exact H | right; exact H]
             | intros [H | H]; [left; symmetry; exact H | right; exact H]].
    + rewrite IH. tauto.
Qed.

Lemma in_sort_by {A} (before : A -> A -> bool) (y : A) (l : list A) :
  In y (sort_by before l) <-> In y l.
Proof.
  induction l as [|x l IH]; cbn [sort_by]; [tauto|].
  rewrite in_insert_by, IH. cbn [In]. split; intros [H | H]; auto.
Qed.

Lemma in_listed {A} (before : jsstring -> jsstring -> bool)
      (kv : jsstring * A) (entries : list (jsstring * A)) :
  In kv (listed before entries) <-> In kv entries.
Proof. apply in_sort_by. Qed.

Lemma Forall_listed {A} (P : jsstring * A -> Prop)
      (before : jsstring -> jsstring -> bool) (entries : list (jsstring * A)) :
  Forall P entries -> Forall P (listed before entries).
Proof.
  intros H. apply Forall_forall. intros kv Hin. apply in_listed in Hin.
  revert kv Hin. apply Forall_forall. exact H.
Qed.

Lemma insert_by_ext {A} (f g : A -> A -> bool) (x : A) (l : list A) :
  (forall a b, f a b = g a b) -> insert_by f x l = insert_by g x l.
Proof.
  intros H. induction l as [|y l IH]; [reflexivity|]. cbn [insert_by].
  rewrite H, IH. reflexivity.
Qed.

Lemma listed_ext {A} (f g : jsstring -> jsstring -> bool)
      (entries : list (jsstring * A)) :
  (forall a b, f a b = g a b) -> listed f entries = listed g entries.
Proof.
  intros H. unfold listed. induction entries as [|x l IH]; [reflexivity|].
  cbn [sort_by]. rewrite IH. apply insert_by_ext. intros a b. apply H.
Qed.

(** A listing does not look at what the entries hold. *)
Lemma insert_by_map {A B} (before : jsstring -> jsstring -> bool)
      (f : jsstring -> A -> B) (x : jsstring * A) (l : list (jsstring * A)) :
  insert_by (fun a b => before (fst a) (fst b)) (fst x, f (fst x) (snd x))
    (map (fun kv => (fst kv, f (fst kv) (snd kv))) l)
  = map (fun kv => (fst kv, f (fst kv) (snd kv)))
      (insert_by (fun a b => before (fst a) (fst b)) x l).
Proof.
  induction l as [|y l IH]; [reflexivity|]. cbn [map insert_by fst].
  destruct (before (fst x) (fst y)); [reflexivity|].
  cbn [map]. rewrite IH. reflexivity.
Qed.

Lemma listed_map {A B} (before : jsstring -> jsstring -> bool)
      (f : jsstring -> A -> B) (entries : list (jsstring * A)) :
  listed before (map (fun kv => (fst kv, f (fst kv) (snd kv))) entries)
  = map (fun kv => (fst kv, f (fst kv) (snd kv))) (listed before entries).
Proof.
  unfold listed. induction entries as [|x l IH]; [reflexivity|].
  cbn [map sort_by]. rewrite IH. apply insert_by_map.
Qed.

Lemma walk_dir (env : Env) (dir : jsstring) (entries : list (jsstring * node))
      (acc : list jsstring) :
  walk env dir (Dir entries) acc
  = (fs_readdir env dir ;;
     visit_all
       (map (fun kv => (fst kv, visit_of env dir (fst kv) (snd kv)))
          (listed (lists_before env) entries))
       acc).
Proof.
  assert (E : forall l : list (jsstring * node),
             map (fun entry =>
                    match entry with
                    | (it_name, it) => (it_name, visit_of env dir it_name it)
                    end) l
             = map (fun kv => (fst kv, visit_of env dir (fst kv) (snd kv))) l).
  { intros l. apply map_ext. intros [it_name it]. reflexivity. }
  cbn [walk]. rewrite <- listed_map, <- E. reflexivity.
Qed.

Lemma reads_only_visit_all (items : list (jsstring * Visit)) :
  Forall (fun kv => forall acc, reads_only (snd kv acc)) items ->
  forall acc, reads_only (visit_all items acc).
Proof.
  induction items as [|[it_name visit] rest IH]; intros H acc.
  - apply reads_only_ret.
  - inversion H as [|? ? Hv Hrest]; subst. cbn [visit_all].
    apply reads_only_bind; [apply Hv|]. intros acc'. apply IH. exact Hrest.
Qed.

Lemma reads_only_walk (env : Env) :
  forall n dir acc, reads_only (walk env dir n acc).
Proof.
  induction n as [d|entries IH] using node_ind_nested; intros dir acc.
  - apply reads_only_throw.
  - rewrite walk_dir. apply reads_only_bind; [apply reads_only_readdir|].
    intros _. apply reads_only_visit_all.
    apply Forall_map, Forall_listed.
    eapply Forall_impl; [|exact IH]. intros [it_name it] Hit acc'.
    cbn [fst snd] in *. unfold visit_of. destruct it as [d|es].
    + apply reads_only_ret.
    + apply Hit.
Qed.

Lemma reads_only_walk_workDir (env : Env) (workDir : jsstring) :
  reads_only (walk_workDir env workDir).
Proof.
  intros w. unfold walk_workDir.
  destruct (lookup (segs_of workDir) (fs w)) as [n|].
  - apply reads_only_walk.
  - exists [OpReaddir workDir]. reflexivity.
Qed.

Lemma spawns_app (a b : list Action) : spawns (a ++ b) = spawns a ++ spawns b.
Proof. apply flat_map_app. Qed.

Lemma spawns_fs (ops : list FsOp) : spawns (map AFs ops) = [].
Proof. induction ops; [reflexivity | exact IHops]. Qed.

Lemma walk_workDir_world (env : Env) (workDir : jsstring) (w : World) r w1 :
  walk_workDir env workDir w = (r, w1) ->
  fs w1 = fs w /\ spawns (log w1) = spawns (log w).
Proof.
  intros E. destruct (reads_only_walk_workDir env workDir w) as [ops Hops].
  rewrite E in Hops. simpl in Hops. subst w1. simpl. split; [reflexivity|].
  rewrite spawns_app, spawns_fs, app_nil_r. reflexivity.
Qed.

(** ** The build-and-run pipeline *)

Lemma spawns_deliver (evs : list Event) :
  forall st, spawns (snd (deliver evs st)) = [].
Proof.
  induction evs as [|ev evs IH]; intros st; [reflexivity|].
  destruct ev as [d|d| |c|c|]; cbn [deliver]; try apply IH; try reflexivity.
  destruct (st_timer st); [|apply IH].
  specialize (IH (mkRunState (st_out st) (st_err st) true false)).
  destruct (deliver evs _). exact IH.
Qed.

Lemma spawns_runner_log (req : SpawnReq) (ms : N) (evs : list Event) :
  spawns (runner_log req ms evs) = [(sp_cmd req, sp_args req)].
Proof.
  unfold runner_log. rewrite 3 spawns_app, spawns_deliver.
  destruct (sp_stdin req); reflexivity.
Qed.

Lemma stdin_payload_line (s : jsstring) :
  stdin_payload (Some (s ++ [LF])) = Some (s ++ [LF]).
Proof. destruct s; reflexivity. Qed.

(** The cap of the specification is what [truncate] computes. *)
Lemma truncate_capped (s : jsstring) : capped s (truncate s).
Proof.
  unfold capped, truncate. split; intros H.
  - destruct (is_empty s) eqn:E.
    + destruct s; [reflexivity | discriminate E].
    + apply N.leb_le in H. unfold MAX_OUT. rewrite H. reflexivity.
  - destruct (is_empty s) eqn:E.
    + apply is_empty_length in E. rewrite E in H. discriminate H.
    + apply N.leb_gt in H. unfold MAX_OUT. rewrite H. reflexivity.
Qed.

Lemma capped_unique (s a b : jsstring) : capped s a -> capped s b -> a = b.
Proof.
  intros [A1 A2] [B1 B2].
  destruct (N.le_gt_cases (N.of_nat (length s)) 30000) as [H | H].
  - rewrite (A1 H), (B1 H). reflexivity.
  - rewrite (A2 H), (B2 H). reflexivity.
Qed.

Lemma capped_bound (s o : jsstring) :
  capped s o -> (N.of_nat (length o) <= 30020)%N.
Proof.
  intros [H1 H2].
  destruct (N.le_gt_cases (N.of_nat (length s)) 30000) as [H | H].
  - rewrite (H1 H). lia.
  - rewrite (H2 H), length_app, length_firstn.
    change (length (LF :: str "...output truncated")) with 20%nat. lia.
Qed.

Lemma capped_truncate (s o : jsstring) : capped s o -> o = truncate s.
Proof. intros H. exact (capped_unique s o _ H (truncate_capped s)). Qed.

(** When [spawn] throws for the compiler, the pipeline throws with
    nothing started. *)
Lemma runJavaLocal_compile_rejected
      (env : Env) (workDir mainClass input : jsstring) (w : World)
      (javaFiles : list jsstring) (w1 : World) (e : JsError) :
  walk_workDir env workDir w = (Val javaFiles, w1) ->
  javaFiles <> [] ->
  spawn_throws env (javac_req workDir javaFiles) = Some e ->
  runJavaLocal env workDir mainClass input w = (Throw e, w1).
Proof.
  intros Hw Hne Hs. unfold runJavaLocal, bind. rewrite Hw.
  destruct javaFiles as [|f fl]; [contradiction|]. cbn [length Nat.eqb].
  rewrite runProcess_unfold. cbv zeta.
  change (mkSpawnReq (str "javac")
            ([str "-encoding"; str "UTF-8"; str "-d"; workDir] ++ f :: fl)
            workDir (stdin_payload None))
    with (javac_req workDir (f :: fl)).
  rewrite Hs. reflexivity.
Qed.

(** What [runJavaLocal] does once the walk has found sources and the
    compiler has been started. *)
Lemma runJavaLocal_with_sources
      (env : Env) (workDir mainClass input : jsstring) (w : World)
      (javaFiles : list jsstring) (w1 : World) :
  walk_workDir env workDir w = (Val javaFiles, w1) ->
  javaFiles <> [] ->
  spawn_throws env (javac_req workDir javaFiles) = None ->
  let jc := child env (javac_req workDir javaFiles) (fs w1) in
  let jr := child env (java_req workDir mainClass input) (snd jc) in
  runJavaLocal env workDir mainClass input w
  = (match resolved (fst jc) with
     | None => unsettled (fst jc)
     | Some c =>
         if killedByTimeout c then Val MSG_COMPILE_TIMEOUT
         else if negb (exit_zero c)
              then Val (render input (CompileError (capped_output c)))
              else match spawn_throws env (java_req workDir mainClass input) with
                   | Some e => Throw e
                   | None =>
                       match resolved (fst jr) with
                       | None => unsettled (fst jr)
                       | Some r =>
                           Val (if killedByTimeout r
                                then render input RunTimeout
                                else capped_output r)
                       end
                   end
     end,
     if proceeds (resolved (fst jc))
        && starts env (java_req workDir mainClass input)
     then mkWorld (snd jr)
            (log w1
               ++ runner_log (javac_req workDir javaFiles) TIMEOUT_MS (fst jc)
               ++ runner_log (java_req workDir mainClass input) TIMEOUT_MS (fst jr))
     else mkWorld (snd jc)
            (log w1
               ++ runner_log (javac_req workDir javaFiles) TIMEOUT_MS (fst jc))).
Proof.
  intros Hw Hne Hs jc jr.
  unfold runJavaLocal, bind. rewrite Hw.
  destruct javaFiles as [|f fl]; [contradiction|]. cbn [length Nat.eqb].
  rewrite runProcess_unfold. cbv zeta.
  change (mkSpawnReq (str "javac")
            ([str "-encoding"; str "UTF-8"; str "-d"; workDir] ++ f :: fl)
            workDir (stdin_payload None))
    with (javac_req workDir (f :: fl)).
  rewrite Hs. fold jc. change (effective_timeout (Some TIMEOUT_MS)) with TIMEOUT_MS.
  unfold proceeds, unsettled.
  destruct (resolved (fst jc)) as [c|];
    [|destruct (dies (fst jc)); reflexivity].
  destruct (killedByTimeout c); [reflexivity|].
  fold (exit_zero c). destruct (exit_zero c); cbn [negb andb]; [|reflexivity].
  rewrite runProcess_unfold. cbv zeta. cbn [fs log normalize].
  rewrite stdin_payload_line.
  change (mkSpawnReq (str "java")
            [str "-Xms16m"; str "-Xmx256m"; str "-cp"; workDir; mainClass]
            workDir (Some (replace_crlf input ++ [LF])))
    with (java_req workDir mainClass input).
  unfold starts.
  destruct (spawn_throws env (java_req workDir mainClass input)) as [e|];
    [reflexivity|].
  fold jr. change (effective_timeout (Some TIMEOUT_MS)) with TIMEOUT_MS.
  rewrite <- app_assoc.
  destruct (resolved (fst jr)) as [r|];
    [|destruct (dies (fst jr)); reflexivity].
  destruct (killedByTimeout r); [|reflexivity].
  cbn [render]. destruct (is_empty (trim input)); reflexivity.
Qed.

(** The steps spawned once sources have been found. *)
Lemma runJavaLocal_steps
      (env : Env) (workDir mainClass input : jsstring) (w : World)
      (javaFiles : list jsstring) (w1 : World) :
  walk_workDir env workDir w = (Val javaFiles, w1) ->
  javaFiles <> [] ->
  spawn_throws env (javac_req workDir javaFiles) = None ->
  let jc := child env (javac_req workDir javaFiles) (fs w1) in
  spawns (log (snd (runJavaLocal env workDir mainClass input w)))
  = spawns (log w)
      ++ compile_step workDir javaFiles
      :: (if proceeds (resolved (fst jc))
             && starts env (java_req workDir mainClass input)
          then [run_step workDir mainClass input]
          else []).
Proof.
  intros Hw Hne Hs jc.
  rewrite (runJavaLocal_with_sources env workDir mainClass input w _ _ Hw Hne Hs).
  destruct (walk_workDir_world env workDir w _ _ Hw) as [_ Hsp]. fold jc. cbn [snd].
  destruct (proceeds (resolved (fst jc))
            && starts env (java_req workDir mainClass input)); cbn [log];
    rewrite ?spawns_app, !spawns_runner_log, Hsp; reflexivity.
Qed.

(** Every rule of the state machine is what [runJavaLocal] does. *)
Lemma reaches_sound
      (env : Env) (workDir mainClass input : jsstring) (w : World)
      (t : Terminal) (steps : list Step) :
  reaches env workDir mainClass input w t steps ->
  exists w',
    runJavaLocal env workDir mainClass input w = (Val (render input t), w')
    /\ spawns (log w') = spawns (log w) ++ steps.
Proof.
  intros H.
  destruct H as [w1 Hw | fl w1 c Hw Hne Hs Hc Hk
                 | fl w1 c o Hw Hne Hs Hc Hk Hz Ho
                 | fl w1 c r Hw Hne Hs Hc Hk Hz Hsr Hr Hkr
                 | fl w1 c r o Hw Hne Hs Hc Hk Hz Hsr Hr Hkr Ho].
  + destruct (walk_workDir_world env workDir w _ _ Hw) as [_ Hsp].
    exists w1. unfold runJavaLocal, bind. rewrite Hw. cbn.
    rewrite Hsp, app_nil_r. split; reflexivity.
  + pose proof (runJavaLocal_steps env workDir mainClass input w _ _ Hw Hne Hs) as S.
    pose proof (runJavaLocal_with_sources env workDir mainClass input w _ _ Hw Hne Hs) as E.
    cbv zeta in E, S. rewrite E in S. rewrite Hc in *. unfold proceeds in *.
    rewrite Hk in *. cbn [negb andb snd] in *.
    eexists. split; [exact E | exact S].
  + pose proof (runJavaLocal_steps env workDir mainClass input w _ _ Hw Hne Hs) as S.
    pose proof (runJavaLocal_with_sources env workDir mainClass input w _ _ Hw Hne Hs) as E.
    cbv zeta in E, S. rewrite E in S. rewrite Hc in *. unfold proceeds in *.
    rewrite Hk, Hz in *. cbn [negb andb snd] in *.
    rewrite (capped_truncate _ _ Ho). fold (capped_output c).
    eexists. split; [exact E | exact S].
  + pose proof (runJavaLocal_steps env workDir mainClass input w _ _ Hw Hne Hs) as S.
    pose proof (runJavaLocal_with_sources env workDir mainClass input w _ _ Hw Hne Hs) as E.
    cbv zeta in E, S. rewrite E in S. rewrite Hc in *. unfold proceeds, starts in *.
    rewrite Hk, Hz, Hsr in *. cbn [negb andb snd] in *. rewrite Hr, Hkr in E.
    eexists. split; [exact E | exact S].
  + pose proof (runJavaLocal_steps env workDir mainClass input w _ _ Hw Hne Hs) as S.
    pose proof (runJavaLocal_with_sources env workDir mainClass input w _ _ Hw Hne Hs) as E.
    cbv zeta in E, S. rewrite E in S. rewrite Hc in *. unfold proceeds, starts in *.
    rewrite Hk, Hz, Hsr in *. cbn [negb andb snd] in *. rewrite Hr, Hkr in E.
    rewrite (capped_truncate _ _ Ho). fold (capped_output r). cbn [render].
    eexists. split; [exact E | exact S].
Qed.

(** Whenever [runJavaLocal] returns, a rule of the state machine applies. *)
Lemma reaches_complete
      (env : Env) (workDir mainClass input : jsstring) (w : World)
      (out : jsstring) (w' : World) :
  runJavaLocal env workDir mainClass input w = (Val out, w') ->
  exists t steps,
    reaches env workDir mainClass input w t steps
    /\ out = render input t
    /\ spawns (log w') = spawns (log w) ++ steps.
Proof.
  intros Hrun.
  destruct (walk_workDir env workDir w) as [[fl|e| |] w1] eqn:Hw.
  2,3,4: unfold runJavaLocal, bind in Hrun; rewrite Hw in Hrun; discriminate.
  destruct fl as [|f fl].
  + destruct (walk_workDir_world env workDir w _ _ Hw) as [_ Hsp].
    unfold runJavaLocal, bind in Hrun. rewrite Hw in Hrun. cbn in Hrun.
    inversion Hrun; subst. exists NoSources, []. split; [|split].
    * eapply reach_no_sources; exact Hw.
    * reflexivity.
    * rewrite Hsp, app_nil_r. reflexivity.
  + assert (Hne : f :: fl <> []) by discriminate.
    destruct (spawn_throws env (javac_req workDir (f :: fl))) as [e|] eqn:Hs.
    { rewrite (runJavaLocal_compile_rejected env workDir mainClass input w _ _ e
                 Hw Hne Hs) in Hrun. discriminate Hrun. }
    pose proof (runJavaLocal_steps env workDir mainClass input w _ _ Hw Hne Hs) as S.
    pose proof (runJavaLocal_with_sources env workDir mainClass input w _ _ Hw Hne Hs) as E.
    cbv zeta in E, S. rewrite Hrun in E, S. cbn [snd] in S.
    unfold proceeds, starts, unsettled in *.
    destruct (resolved (fst (child env (javac_req workDir (f :: fl)) (fs w1))))
      as [c|] eqn:Hc; [|destruct (dies _); discriminate].
    destruct (killedByTimeout c) eqn:Hk; cbn [negb andb] in S.
    { inversion E; subst. exists CompileTimeout, [compile_step workDir (f :: fl)].
      split; [|split]; [|reflexivity|exact S].
      eapply reach_compile_timeout; eassumption. }
    destruct (exit_zero c) eqn:Hz; cbn [negb andb] in E, S.
    2:{ inversion E; subst.
        exists (CompileError (capped_output c)), [compile_step workDir (f :: fl)].
        split; [|split]; [|reflexivity|exact S].
        eapply reach_compile_error; try eassumption. apply truncate_capped. }
    destruct (spawn_throws env (java_req workDir mainClass input)) as [e|] eqn:Hsr;
      [discriminate|].
    destruct (resolved (fst (child env (java_req workDir mainClass input) _)))
      as [r|] eqn:Hr; [|destruct (dies _); discriminate].
    destruct (killedByTimeout r) eqn:Hkr; inversion E; subst.
    * exists RunTimeout,
        [compile_step workDir (f :: fl); run_step workDir mainClass input].
      split; [|split]; [|reflexivity|exact S].
      eapply reach_run_timeout; eassumption.
    * exists (SuccessWithOutput (capped_output r)),
        [compile_step workDir (f :: fl); run_step workDir mainClass input].
      split; [|split]; [|reflexivity|exact S].
      eapply reach_success; try eassumption. apply truncate_capped.
Qed.



(** ** The children's input streams *)

Lemma stdin_view_app (a b : list Action) :
  stdin_view (a ++ b) = stdin_view a ++ stdin_view b.
Proof. apply filter_app. Qed.

Lemma stdin_view_fs (ops : list FsOp) : stdin_view (map AFs ops) = [].
Proof. induction ops; [reflexivity | exact IHops]. Qed.

Lemma stdin_view_deliver (evs : list Event) :
  forall st, stdin_view (snd (deliver evs st)) = [].
Proof.
  induction evs as [|ev evs IH]; intros st; [reflexivity|].
  destruct ev as [d|d| |c|c|]; cbn [deliver]; try apply IH; try reflexivity.
  destruct (st_timer st); [|apply IH].
  specialize (IH (mkRunState (st_out st) (st_err st) true false)).
  destruct (deliver evs _). exact IH.
Qed.

Lemma stdin_view_runner_log (req : SpawnReq) (ms : N) (evs : list Event) :
  stdin_view (runner_log req ms evs)
  = ASpawn (sp_cmd req) (sp_args req) (sp_cwd req)
      :: match sp_stdin req with
         | Some s => [AStdinWrite s; AStdinEnd]
         | None => [AStdinEnd]
         end.
Proof.
  unfold runner_log. rewrite 3 stdin_view_app, stdin_view_deliver.
  destruct (sp_stdin req); reflexivity.
Qed.



(** ** Strings and paths *)

Lemma char_eqb_eq (a b : char16) : char_eqb a b = true <-> a = b.
Proof. apply N.eqb_eq. Qed.

Lemma char_eqb_refl (a : char16) : char_eqb a a = true.
Proof. apply N.eqb_refl. Qed.

Lemma str_eqb_eq (a b : jsstring) : str_eqb a b = true <-> a = b.
Proof.
  revert b. induction a as [|x a IH]; intros [|y b]; simpl;
    try (split; [discriminate | discriminate]); [tauto|].
  rewrite andb_true_iff, char_eqb_eq, IH. split.
  - intros [-> ->]. reflexivity.
  - intros E. inversion E. split; reflexivity.
Qed.

Lemma str_eqb_refl (a : jsstring) : str_eqb a a = true.
Proof. apply str_eqb_eq. reflexivity. Qed.

Lemma strip_prefix_app (p s rest : jsstring) :
  strip_prefix p s = Some rest <-> s = p ++ rest.
Proof.
  revert s. induction p as [|x p IH]; intros s; simpl.
  - split; [intros E; inversion E; reflexivity | intros ->; reflexivity].
  - destruct s as [|y s]; [split; discriminate|].
    destruct (char_eqb x y) eqn:E.
    + apply char_eqb_eq in E. subst y. rewrite IH. split.
      * intros ->. reflexivity.
      * intros H. inversion H. reflexivity.
    + split; [discriminate|]. intros H. inversion H. subst.
      rewrite char_eqb_refl in E. discriminate.
Qed.

(** [s.endsWith(suf)] says that [s] is something followed by [suf]. *)
Lemma endsWith_app (s suf : jsstring) :
  endsWith s suf = true <-> exists pre, s = pre ++ suf.
Proof.
  unfold endsWith, startsWith.
  destruct (strip_prefix (rev suf) (rev s)) as [rest|] eqn:E.
  - apply strip_prefix_app in E. split; [intros _|reflexivity].
    exists (rev rest). apply (f_equal (@rev _)) in E.
    rewrite rev_involutive, rev_app_distr, rev_involutive in E. exact E.
  - split; [discriminate|]. intros [pre ->].
    rewrite rev_app_distr in E.
    assert (H : strip_prefix (rev suf) (rev suf ++ rev pre) = Some (rev pre))
      by (apply strip_prefix_app; reflexivity).
    rewrite H in E. discriminate.
Qed.

Lemma split_nonempty (s : jsstring) : Path.split s <> [].
Proof.
  destruct s as [|c s]; simpl; [discriminate|].
  destruct (char_eqb c SLASH); [discriminate|].
  destruct (Path.split s); discriminate.
Qed.

Lemma split_slash_free (s : jsstring) : Forall slash_free (Path.split s).
Proof.
  induction s as [|c s IH]; simpl.
  - constructor; [reflexivity | constructor].
  - destruct (char_eqb c SLASH) eqn:E.
    + constructor; [reflexivity | exact IH].
    + destruct (Path.split s) as [|h r].
      * constructor; [|constructor]. unfold slash_free. simpl. rewrite E.
        reflexivity.
      * inversion IH; subst. constructor; [|assumption].
        unfold slash_free in *. simpl. rewrite E. assumption.
Qed.

Lemma split_of_slash_free (s : jsstring) : slash_free s -> Path.split s = [s].
Proof.
  unfold slash_free. induction s as [|c s IH]; simpl; [reflexivity|].
  intros H. apply andb_true_iff in H as [Hc Hs].
  apply negb_true_iff in Hc. rewrite Hc, (IH Hs). reflexivity.
Qed.

Lemma split_app_slash (a b : jsstring) :
  Path.split (a ++ SLASH :: b) = Path.split a ++ Path.split b.
Proof.
  induction a as [|c a IH]; simpl.
  - reflexivity.
  - destruct (char_eqb c SLASH); rewrite IH; [reflexivity|].
    pose proof (split_nonempty a) as Hne.
    destruct (Path.split a) as [|h r]; [contradiction | reflexivity].
Qed.

(** Appending characters that are not slashes extends the last segment. *)
Lemma split_app_slash_free (a b : jsstring) :
  slash_free b ->
  Path.split (a ++ b) = removelast (Path.split a) ++ [last (Path.split a) [] ++ b].
Proof.
  intros Hb. induction a as [|c a IH].
  - simpl. apply split_of_slash_free. exact Hb.
  - cbn [app Path.split]. destruct (char_eqb c SLASH).
    + rewrite IH. pose proof (split_nonempty a) as Hne.
      destruct (Path.split a) as [|h r]; [contradiction | reflexivity].
    + rewrite IH. pose proof (split_nonempty a) as Hne.
      destruct (Path.split a) as [|h r]; [contradiction|].
      destruct r as [|h' r']; reflexivity.
Qed.

Lemma split_join_segs (l : list jsstring) :
  Forall slash_free l -> l <> [] -> Path.split (Path.join_segs l) = l.
Proof.
  induction l as [|x l IH]; intros Hl Hne; [contradiction|].
  inversion Hl as [|? ? Hx Hrest]; subst.
  destruct l as [|y l].
  - simpl. apply split_of_slash_free. exact Hx.
  - change (Path.join_segs (x :: y :: l))
      with (x ++ SLASH :: Path.join_segs (y :: l)).
    rewrite split_app_slash, (split_of_slash_free x Hx).
    rewrite IH; [reflexivity | exact Hrest | discriminate].
Qed.

(** Resolution of a path from the root. *)

Lemma norm_step_no_dotdot (b : bool) (acc : list jsstring) (seg : jsstring) :
  Path.is_dotdot seg = false ->
  Path.norm_step b acc seg = if proper seg then seg :: acc else acc.
Proof.
  intros H. unfold Path.norm_step, proper. rewrite H, orb_false_r.
  destruct (is_empty seg || Path.is_dot seg); reflexivity.
Qed.

Lemma norm_fold_no_dotdot (b : bool) (segs acc : list jsstring) :
  Forall (fun seg => Path.is_dotdot seg = false) segs ->
  fold_left (Path.norm_step b) segs acc = rev (filter proper segs) ++ acc.
Proof.
  intros H. revert acc. induction H as [|seg segs Hseg _ IH]; intros acc.
  - reflexivity.
  - cbn [fold_left filter]. rewrite IH, (norm_step_no_dotdot b acc seg Hseg).
    destruct (proper seg); [|reflexivity].
    cbn [rev]. rewrite <- app_assoc. reflexivity.
Qed.

Lemma proper_not_dotdot (seg : jsstring) :
  proper seg = true -> Path.is_dotdot seg = false.
Proof.
  unfold proper. intros H. apply negb_true_iff in H.
  apply orb_false_iff in H as [_ H]. exact H.
Qed.

Lemma norm_step_proper_acc (acc : list jsstring) (seg : jsstring) :
  Forall (fun s => proper s = true) acc ->
  Forall (fun s => proper s = true) (Path.norm_step false acc seg).
Proof.
  intros H. unfold Path.norm_step.
  destruct (is_empty seg || Path.is_dot seg) eqn:E1; [exact H|].
  destruct (Path.is_dotdot seg) eqn:E2.
  - destruct acc as [|top rest]; [constructor|].
    inversion H; subst. destruct (Path.is_dotdot top); assumption.
  - constructor; [|exact H]. unfold proper. rewrite E1, E2. reflexivity.
Qed.

Lemma norm_fold_proper_acc (segs acc : list jsstring) :
  Forall (fun s => proper s = true) acc ->
  Forall (fun s => proper s = true) (fold_left (Path.norm_step false) segs acc).
Proof.
  revert acc. induction segs as [|seg segs IH]; intros acc H; [exact H|].
  apply IH, norm_step_proper_acc, H.
Qed.

Lemma norm_step_slash_free_acc (b : bool) (acc : list jsstring) (seg : jsstring) :
  slash_free seg -> Forall slash_free acc ->
  Forall slash_free (Path.norm_step b acc seg).
Proof.
  intros Hs H. unfold Path.norm_step.
  destruct (is_empty seg || Path.is_dot seg); [exact H|].
  destruct (Path.is_dotdot seg).
  - destruct acc as [|top rest].
    + destruct b; constructor; [exact Hs | constructor].
    + inversion H; subst. destruct (Path.is_dotdot top); [|assumption].
      destruct b; [constructor|]; assumption.
  - constructor; assumption.
Qed.

Lemma norm_fold_slash_free_acc (b : bool) (segs acc : list jsstring) :
  Forall slash_free segs -> Forall slash_free acc ->
  Forall slash_free (fold_left (Path.norm_step b) segs acc).
Proof.
  intros Hs. revert acc. induction Hs as [|seg segs Hseg _ IH]; intros acc H;
    [exact H|].
  apply IH, norm_step_slash_free_acc; assumption.
Qed.

Lemma norm_segs_proper (segs : list jsstring) :
  Forall (fun s => proper s = true) (Path.norm_segs false segs).
Proof.
  unfold Path.norm_segs. apply Forall_rev, norm_fold_proper_acc. constructor.
Qed.

Lemma norm_segs_slash_free (b : bool) (segs : list jsstring) :
  Forall slash_free segs -> Forall slash_free (Path.norm_segs b segs).
Proof.
  intros H. unfold Path.norm_segs.
  apply Forall_rev, norm_fold_slash_free_acc; [exact H | constructor].
Qed.

(** On proper segments there is nothing to normalize. *)
Lemma norm_segs_of_proper (b : bool) (l : list jsstring) :
  Forall (fun s => proper s = true) l -> Path.norm_segs b l = l.
Proof.
  intros H. unfold Path.norm_segs. rewrite norm_fold_no_dotdot.
  - rewrite app_nil_r, rev_involutive.
    apply forallb_filter_id, forallb_forall, Forall_forall. exact H.
  - eapply Forall_impl; [|exact H]. apply proper_not_dotdot.
Qed.

Lemma norm_segs_app (b : bool) (x y : list jsstring) :
  Path.norm_segs b (x ++ y)
  = rev (fold_left (Path.norm_step b) y (rev (Path.norm_segs b x))).
Proof.
  unfold Path.norm_segs. rewrite fold_left_app, rev_involutive. reflexivity.
Qed.

Lemma join_segs_not_empty (l : list jsstring) :
  l <> [] -> Forall (fun s => proper s = true) l ->
  is_empty (Path.join_segs l) = false.
Proof.
  intros Hne H. destruct l as [|x l]; [contradiction|].
  inversion H as [|? ? Hx _]; subst.
  destruct x as [|c x]; [discriminate Hx|].
  destruct l; reflexivity.
Qed.

Lemma is_absolute_cons (p : jsstring) :
  Path.is_absolute p = true -> exists t, p = SLASH :: t.
Proof.
  destruct p as [|c t]; [discriminate|]. simpl. intros E.
  apply char_eqb_eq in E. subst c. exists t. reflexivity.
Qed.

Lemma norm_segs_empty_front (b : bool) (l : list jsstring) :
  Path.norm_segs b ([] :: l) = Path.norm_segs b l.
Proof. reflexivity. Qed.

Lemma norm_segs_empty_back (b : bool) (l : list jsstring) :
  Path.norm_segs b (l ++ [[]]) = Path.norm_segs b l.
Proof. unfold Path.norm_segs. rewrite fold_left_app. reflexivity. Qed.

(** Normalizing an absolute path does not change what it resolves to. *)
Lemma segs_of_normalize_abs (p : jsstring) :
  Path.is_absolute p = true -> segs_of (Path.normalize_path p) = segs_of p.
Proof.
  intros Habs. destruct (is_absolute_cons p Habs) as [t ->].
  unfold Path.normalize_path. cbn [is_empty]. rewrite Habs. cbn [negb].
  fold (segs_of (SLASH :: t)).
  pose proof (norm_segs_proper (Path.split (SLASH :: t))) as Hp.
  pose proof (norm_segs_slash_free false _ (split_slash_free (SLASH :: t))) as Hs.
  fold (segs_of (SLASH :: t)) in Hp, Hs.
  destruct (segs_of (SLASH :: t)) as [|x l] eqn:E.
  - reflexivity.
  - rewrite join_segs_not_empty; [|discriminate | exact Hp].
    assert (Hsplit : forall tail, tail = [] \/ tail = [SLASH] ->
              segs_of ([SLASH] ++ Path.join_segs (x :: l) ++ tail) = x :: l).
    { intros tail Ht. unfold segs_of.
      change ([SLASH] ++ Path.join_segs (x :: l) ++ tail)
        with ([] ++ SLASH :: (Path.join_segs (x :: l) ++ tail)).
      rewrite split_app_slash. destruct Ht as [-> | ->].
      - rewrite app_nil_r, split_join_segs by (assumption || discriminate).
        change (Path.split [] ++ x :: l) with ([] :: x :: l).
        rewrite norm_segs_empty_front.
        apply norm_segs_of_proper. exact Hp.
      - rewrite split_app_slash, split_join_segs by (assumption || discriminate).
        change (Path.split [] ++ (x :: l) ++ Path.split [])
          with ([] :: ((x :: l) ++ [[]])).
        rewrite norm_segs_empty_front, norm_segs_empty_back.
        apply norm_segs_of_proper. exact Hp. }
    destruct (Path.has_trailing_slash (SLASH :: t)); apply Hsplit; auto.
Qed.

(** What [path.join] of an absolute path and a relative one resolves to. *)
Lemma segs_of_join_abs (a b : jsstring) :
  Path.is_absolute a = true ->
  segs_of (Path.join a b) = Path.norm_segs false (Path.split a ++ Path.split b).
Proof.
  intros Habs. destruct (is_absolute_cons a Habs) as [t ->].
  unfold Path.join. cbn [is_empty]. destruct b as [|c b]; cbn [is_empty].
  - rewrite segs_of_normalize_abs by exact Habs.
    change (Path.split []) with [@nil char16].
    rewrite norm_segs_empty_back. reflexivity.
  - rewrite segs_of_normalize_abs by reflexivity.
    unfold segs_of. rewrite split_app_slash. reflexivity.
Qed.

(** Joining a relative path without [..] segments goes down from the
    absolute one. *)
Lemma segs_of_join_down (a b : jsstring) :
  Path.is_absolute a = true ->
  Forall (fun seg => Path.is_dotdot seg = false) (Path.split b) ->
  segs_of (Path.join a b) = segs_of a ++ filter proper (Path.split b).
Proof.
  intros Habs Hb. rewrite segs_of_join_abs by exact Habs.
  rewrite norm_segs_app, norm_fold_no_dotdot by exact Hb.
  rewrite rev_app_distr, !rev_involutive. reflexivity.
Qed.

(** ** The file system *)

Lemma find_set_entry (s : jsstring) (v : node) (es : list (jsstring * node)) :
  find_entry s (set_entry s v es) = Some v.
Proof.
  induction es as [|[k x] es IH]; simpl.
  - rewrite str_eqb_refl. reflexivity.
  - destruct (str_eqb k s) eqn:E; simpl.
    + rewrite str_eqb_refl. reflexivity.
    + rewrite E. exact IH.
Qed.

Lemma find_remove_entry (s : jsstring) (es : list (jsstring * node)) :
  find_entry s (remove_entry s es) = None.
Proof.
  unfold remove_entry. induction es as [|[k x] es IH]; simpl; [reflexivity|].
  destruct (str_eqb k s) eqn:E; simpl; [exact IH|].
  rewrite E. exact IH.
Qed.

Lemma find_map_entry (s : jsstring) (f : node -> node)
      (es : list (jsstring * node)) :
  find_entry s
    (map (fun kv => if str_eqb (fst kv) s then (fst kv, f (snd kv)) else kv) es)
  = option_map f (find_entry s es).
Proof.
  induction es as [|[k x] es IH]; simpl; [reflexivity|].
  destruct (str_eqb k s) eqn:E; simpl; rewrite E; [reflexivity | exact IH].
Qed.

(** After [writeFile] has succeeded the path holds a regular file with the
    data written. *)
Lemma write_at_lookup (segs : list jsstring) (data : jsstring) :
  forall n n', write_at segs data n = FsOk n' ->
               lookup segs n' = Some (File data).
Proof.
  induction segs as [|s rest IH]; intros n n' H.
  - destruct n; discriminate H.
  - destruct n as [d|es]; [discriminate H|]. cbn [write_at] in H.
    destruct rest as [|s' rest'].
    + assert (E : n' = Dir (set_entry s (File data) es)).
      { destruct (find_entry s es) as [[?|?]|]; inversion H; reflexivity. }
      subst n'. cbn [lookup]. rewrite find_set_entry. reflexivity.
    + destruct (find_entry s es) as [child|]; [|discriminate H].
      destruct (write_at (s' :: rest') data child) as [child'|e] eqn:W;
        [|discriminate H].
      inversion H; subst n'. cbn [lookup]. rewrite find_set_entry.
      apply (IH child child' W).
Qed.

(** After [rm] with [recursive] and [force] nothing is left at the path. *)
Lemma rm_at_lookup (segs : list jsstring) :
  segs <> [] -> forall n, lookup segs (rm_at segs n) = None.
Proof.
  induction segs as [|s rest IH]; intros Hne n; [contradiction|].
  destruct n as [d|es]; [reflexivity|]. cbn [rm_at].
  destruct rest as [|s' rest'].
  - cbn [lookup]. rewrite find_remove_entry. reflexivity.
  - cbn [lookup]. rewrite find_map_entry.
    destruct (find_entry s es) as [child|]; [|reflexivity].
    cbn [option_map]. apply IH. discriminate.
Qed.

(** Every directory on the way to an existing entry exists. *)
Lemma lookup_prefix (pre rest : list jsstring) :
  rest <> [] ->
  forall n x, lookup (pre ++ rest) n = Some x ->
              exists es, lookup pre n = Some (Dir es).
Proof.
  intros Hne. induction pre as [|s pre IH]; intros n x H.
  - destruct rest as [|r rest]; [contradiction|].
    destruct n as [d|es]; [discriminate H|]. exists es. reflexivity.
  - cbn [app lookup] in *. destruct n as [d|es]; [discriminate H|].
    destruct (find_entry s es) as [child|]; [|discriminate H].
    apply (IH child x H).
Qed.

(** ** The handler *)

Lemma bind_assoc {A B C} (c : M A) (k : A -> M B) (k' : B -> M C) (w : World) :
  bind (bind c k) k' w = bind c (fun a => bind (k a) k') w.
Proof. unfold bind. destruct (c w) as [[a|e| |] w1]; reflexivity. Qed.

Lemma bind_val {A B} (c : M A) (k : A -> M B) (w : World) (a : A) (w1 : World) :
  c w = (Val a, w1) -> bind c k w = k a w1.
Proof. intros H. unfold bind. rewrite H. reflexivity. Qed.

Lemma post_run_parts (env : Env) (id : jsstring) (body : Body) (w : World) :
  post_run env id body w
  = try_finally
      (try_catch (try_block env (request_workDir env id) body)
                 (fun e => respond 500 (MSG_SERVER_ERROR ++ error_text e)))
      (swallow (fs_rm env (request_workDir env id))) w.
Proof.
  unfold post_run, try_finally, try_catch, try_block, materialize.
  rewrite bind_assoc. reflexivity.
Qed.

Lemma swallow_rm (env : Env) (p : jsstring) (w : World) :
  swallow (fs_rm env p) w = (Val tt, cleaned env p w).
Proof.
  unfold swallow, try_catch, fs_rm, fs_call, cleaned.
  destruct (fault env (OpRm p) (fs w)); reflexivity.
Qed.

(** The handler in terms of its [try] block. *)
Lemma post_run_by_try (env : Env) (id : jsstring) (body : Body) (w : World) :
  post_run env id body w
  = match try_block env (request_workDir env id) body w with
    | (Val _, w1) => (Val tt, cleaned env (request_workDir env id) w1)
    | (Throw e, w1) =>
        (Val tt,
         cleaned env (request_workDir env id)
           (mkWorld (fs w1)
              (log w1 ++ [ARespond 500 (MSG_SERVER_ERROR ++ error_text e)])))
    | (Pending, w1) => (Pending, w1)
    | (Crashed, w1) => (Crashed, w1)
    end.
Proof.
  rewrite post_run_parts. unfold try_finally, try_catch.
  destruct (try_block env (request_workDir env id) body w) as [[[]|e| |] w1].
  - rewrite swallow_rm. reflexivity.
  - unfold respond, emit. rewrite swallow_rm. reflexivity.
  - reflexivity.
  - reflexivity.
Qed.

Lemma only_ret (q : Action -> bool) {A} (a : A) : only q (ret a).
Proof. intros w. exists []. simpl. rewrite app_nil_r. split; reflexivity. Qed.

Lemma only_throw (q : Action -> bool) {A} (e : JsError) : only q (@throw A e).
Proof. intros w. exists []. simpl. rewrite app_nil_r. split; reflexivity. Qed.

Lemma only_bind (q : Action -> bool) {A B} (c : M A) (k : A -> M B) :
  only q c -> (forall a, only q (k a)) -> only q (bind c k).
Proof.
  intros Hc Hk w. unfold bind. destruct (Hc w) as (d1 & E1 & Q1).
  destruct (c w) as [[a|e| |] w1]; cbn [snd] in E1.
  - destruct (Hk a w1) as (d2 & E2 & Q2). exists (d1 ++ d2).
    rewrite E2, E1, <- app_assoc, forallb_app, Q1, Q2. split; reflexivity.
  - exists d1. split; assumption.
  - exists d1. split; assumption.
  - exists d1. split; assumption.
Qed.

Lemma only_fs_call (env : Env) (op : FsOp) (change : node -> fsres) :
  only is_fs_action (fs_call env op change).
Proof.
  intros w. exists [AFs op]. unfold fs_call. split; [|reflexivity].
  destruct (fault env op (fs w)); [reflexivity|].
  destruct (change (fs w)); reflexivity.
Qed.

Lemma only_for_each (q : Action -> bool) {A} (l : list A) (body : A -> M unit) :
  (forall x, only q (body x)) -> only q (for_each l body).
Proof.
  intros H. induction l as [|x l IH]; cbn [for_each].
  - apply only_ret.
  - apply only_bind; [apply H | intros _; exact IH].
Qed.

Lemma only_writeFiles (env : Env) (workDir : jsstring) (body : Body) :
  only is_fs_action (writeFiles env workDir body).
Proof.
  unfold writeFiles.
  assert (Hsingle :
            only is_fs_action
              (if negb (truthy (detectMainClass
                                  (normalize (Some (or_empty (code body))))))
               then throw (Error MSG_NO_CLASS)
               else fs_writeFile env
                      (Path.join workDir
                         (or_empty (detectMainClass
                                      (normalize (Some (or_empty (code body)))))
                            ++ str ".java"))
                      (normalize (Some (or_empty (code body)))))).
  { destruct (negb _); [apply only_throw | apply only_fs_call]. }
  destruct (files body) as [[|f fl]|]; try exact Hsingle.
  clear Hsingle. apply only_for_each. intros g. cbv beta zeta.
  destruct (negb (endsWith _ _)); [apply only_ret|].
  apply only_bind; [apply only_fs_call | intros _; apply only_fs_call].
Qed.

Lemma only_materialize (env : Env) (workDir : jsstring) (body : Body) :
  only is_fs_action (materialize env workDir body).
Proof.
  apply only_bind; [apply only_fs_call | intros _; apply only_writeFiles].
Qed.

Lemma only_reads_only (q : Action -> bool) {A} (c : M A) :
  (forall op, q (AFs op) = true) -> reads_only c -> only q c.
Proof.
  intros Hq Hc w. destruct (Hc w) as [ops E]. exists (map AFs ops).
  rewrite E. split; [reflexivity|].
  apply forallb_forall. intros a Ha. apply in_map_iff in Ha as (op & <- & _).
  apply Hq.
Qed.

Lemma not_response_deliver (evs : list Event) :
  forall st, forallb is_not_response (snd (deliver evs st)) = true.
Proof.
  induction evs as [|ev evs IH]; intros st; [reflexivity|].
  destruct ev as [d|d| |c|c|]; cbn [deliver]; try apply IH; try reflexivity.
  destruct (st_timer st); [|apply IH].
  specialize (IH (mkRunState (st_out st) (st_err st) true false)).
  destruct (deliver evs _). exact IH.
Qed.

Lemma only_runProcess (env : Env) cmd args cwd timeoutMs input :
  only is_not_response (runProcess env cmd args cwd timeoutMs input).
Proof.
  intros w. rewrite runProcess_unfold. cbv zeta.
  destruct (spawn_throws env _);
    [exists []; cbn [snd]; rewrite app_nil_r; split; reflexivity|].
  cbn [snd log].
  eexists. split; [reflexivity|]. unfold runner_log.
  rewrite !forallb_app, not_response_deliver.
  destruct (sp_stdin _); reflexivity.
Qed.

Lemma only_runJavaLocal (env : Env) (workDir mainClass input : jsstring) :
  only is_not_response (runJavaLocal env workDir mainClass input).
Proof.
  unfold runJavaLocal. apply only_bind.
  - apply only_reads_only; [reflexivity | apply reads_only_walk_workDir].
  - intros fl. destruct (length fl =? 0)%nat; [apply only_ret|].
    apply only_bind; [apply only_runProcess|]. intros c.
    destruct (killedByTimeout c); [apply only_ret|].
    destruct (negb _); [apply only_ret|].
    apply only_bind; [apply only_runProcess|]. intros r.
    destruct (killedByTimeout r); [|apply only_ret].
    destruct (is_empty (trim input)); apply only_ret.
Qed.

Lemma responses_app (a b : list Action) :
  responses (a ++ b) = responses a ++ responses b.
Proof. apply flat_map_app. Qed.

Lemma responses_none (d : list Action) :
  forallb is_not_response d = true -> responses d = [].
Proof.
  induction d as [|a d IH]; [reflexivity|]. cbn [forallb]. intros H.
  apply andb_true_iff in H as [Ha Hd]. destruct a; try discriminate Ha;
    exact (IH Hd).
Qed.

Lemma spawns_none (d : list Action) :
  forallb is_fs_action d = true -> spawns d = [].
Proof.
  induction d as [|a d IH]; [reflexivity|]. cbn [forallb]. intros H.
  apply andb_true_iff in H as [Ha Hd]. destruct a; try discriminate Ha;
    exact (IH Hd).
Qed.

Lemma fs_is_not_response (a : Action) :
  is_fs_action a = true -> is_not_response a = true.
Proof. destruct a; simpl; intros H; (reflexivity || discriminate H). Qed.

(** *** Two environments that differ only in whether a removal fails *)

Lemma bind_ext {A B} (c c' : M A) (k k' : A -> M B) :
  (forall w, c w = c' w) -> (forall a w, k a w = k' a w) ->
  forall w, bind c k w = bind c' k' w.
Proof.
  intros Hc Hk w. unfold bind. rewrite Hc.
  destruct (c' w) as [[a|e| |] w1];
    [apply Hk | reflexivity | reflexivity | reflexivity].
Qed.

Lemma for_each_ext {A} (l : list A) (f g : A -> M unit) :
  (forall x w, f x w = g x w) -> forall w, for_each l f w = for_each l g w.
Proof.
  intros H. induction l as [|x l IH]; intros w; [reflexivity|].
  cbn [for_each]. apply bind_ext; [apply H | intros _; exact IH].
Qed.

Section SameButRm.

Variables env env' : Env.
Hypothesis Hsame : same_but_rm env env'.

Lemma fs_call_same (op : FsOp) (change : node -> fsres) (w : World) :
  (forall p, op <> OpRm p) ->
  fs_call env' op change w = fs_call env op change w.
Proof.
  intros Hop. destruct Hsame as (_ & _ & _ & _ & Hf). unfold fs_call.
  rewrite (Hf op (fs w) Hop). reflexivity.
Qed.

Lemma fs_mkdir_same (p : jsstring) (w : World) :
  fs_mkdir env' p w = fs_mkdir env p w.
Proof. apply fs_call_same. discriminate. Qed.

Lemma fs_writeFile_same (p data : jsstring) (w : World) :
  fs_writeFile env' p data w = fs_writeFile env p data w.
Proof. apply fs_call_same. discriminate. Qed.

Lemma fs_readdir_same (p : jsstring) (w : World) :
  fs_readdir env' p w = fs_readdir env p w.
Proof. apply fs_call_same. discriminate. Qed.

Lemma writeFiles_same (workDir : jsstring) (body : Body) (w : World) :
  writeFiles env' workDir body w = writeFiles env workDir body w.
Proof.
  unfold writeFiles.
  destruct (files body) as [[|f fl]|];
    try (destruct (negb (truthy _)); [reflexivity | apply fs_writeFile_same]).
  apply for_each_ext. intros g w0. cbv beta zeta.
  destruct (negb (endsWith _ _)); [reflexivity|].
  apply bind_ext; [apply fs_mkdir_same | intros _; apply fs_writeFile_same].
Qed.

Lemma materialize_same (workDir : jsstring) (body : Body) (w : World) :
  materialize env' workDir body w = materialize env workDir body w.
Proof.
  apply bind_ext; [apply fs_mkdir_same | intros _; apply writeFiles_same].
Qed.

Lemma walk_same :
  forall n dir acc w, walk env' dir n acc w = walk env dir n acc w.
Proof.
  induction n as [d|entries IH] using node_ind_nested; intros dir acc w;
    [reflexivity|].
  rewrite !walk_dir. apply bind_ext; [apply fs_readdir_same|].
  intros _. clear w.
  assert (Hl : listed (lists_before env') entries
               = listed (lists_before env) entries).
  { destruct Hsame as (_ & Hb & _). apply listed_ext. exact Hb. }
  rewrite Hl. clear Hl.
  assert (Hall : Forall (fun kv => forall dir acc w,
                             walk env' dir (snd kv) acc w
                             = walk env dir (snd kv) acc w)
                   (listed (lists_before env) entries))
    by (apply Forall_listed; exact IH).
  clear IH. revert acc. induction Hall as [|[it_name it] rest Hit Hrest IHrest];
    intros acc w; [reflexivity|].
  cbn [map visit_all fst snd] in *. apply bind_ext.
  - intros w0. unfold visit_of. destruct it as [d|es]; [reflexivity|].
    apply Hit.
  - intros acc'. apply IHrest.
Qed.

Lemma walk_workDir_same (workDir : jsstring) (w : World) :
  walk_workDir env' workDir w = walk_workDir env workDir w.
Proof.
  unfold walk_workDir. destruct (lookup _ _); [apply walk_same | reflexivity].
Qed.

Lemma runProcess_same cmd args cwd timeoutMs input (w : World) :
  runProcess env' cmd args cwd timeoutMs input w
  = runProcess env cmd args cwd timeoutMs input w.
Proof.
  destruct Hsame as (_ & _ & Hs & Hc & _). unfold runProcess.
  rewrite Hs, Hc. reflexivity.
Qed.

Lemma runJavaLocal_same (workDir mainClass input : jsstring) (w : World) :
  runJavaLocal env' workDir mainClass input w
  = runJavaLocal env workDir mainClass input w.
Proof.
  unfold runJavaLocal. apply bind_ext; [apply walk_workDir_same|].
  intros fl w1. destruct (length fl =? 0)%nat; [reflexivity|].
  apply bind_ext; [apply runProcess_same|]. intros c w2.
  destruct (killedByTimeout c); [reflexivity|].
  destruct (negb _); [reflexivity|].
  apply bind_ext; [apply runProcess_same | reflexivity].
Qed.

Lemma try_block_same (workDir : jsstring) (body : Body) (w : World) :
  try_block env' workDir body w = try_block env workDir body w.
Proof.
  unfold try_block. apply bind_ext; [apply materialize_same|].
  intros _ w1. destruct (is_empty _); [reflexivity|].
  apply bind_ext; [apply runJavaLocal_same | reflexivity].
Qed.

Lemma request_workDir_same (id : jsstring) :
  request_workDir env' id = request_workDir env id.
Proof.
  destruct Hsame as (Ht & _). unfold request_workDir. rewrite Ht.
  reflexivity.
Qed.

End SameButRm.

Lemma rm_failing_same (env : Env) : same_but_rm env (rm_failing env).
Proof.
  split; [reflexivity|]. split; [reflexivity|].
  split; [reflexivity|]. split; [reflexivity|].
  intros op n Hop. destruct op; try reflexivity.
  exfalso. exact (Hop path eq_refl).
Qed.

(** What the [try] block adds to the log: no response, and then, if it
    returns, the one response. *)
Lemma try_block_log (env : Env) (workDir : jsstring) (body : Body) (w : World) :
  exists d,
    responses d = []
    /\ match fst (try_block env workDir body w) with
       | Val _ =>
           exists output,
             log (snd (try_block env workDir body w))
             = log w ++ d ++ [ARespond 200 output]
       | _ => log (snd (try_block env workDir body w)) = log w ++ d
       end.
Proof.
  unfold try_block, bind.
  destruct (only_materialize env workDir body w) as (d1 & E1 & Q1).
  assert (R1 : responses d1 = []).
  { apply responses_none, forallb_forall. intros a Ha.
    apply fs_is_not_response. revert a Ha. apply forallb_forall. exact Q1. }
  destruct (materialize env workDir body w) as [[[]|e| |] w1]; cbn [snd] in E1.
  2,3,4: exists d1; split; [exact R1 | exact E1].
  destruct (is_empty _).
  - exists d1. split; [exact R1|]. cbn. exists MSG_NO_MAIN.
    rewrite E1, <- app_assoc. reflexivity.
  - destruct (only_runJavaLocal env workDir
                (entry_point (mainClass body) (code body))
                (request_input body) w1) as (d2 & E2 & Q2).
    apply responses_none in Q2.
    destruct (runJavaLocal env workDir _ _ w1) as [[out|e| |] w2];
      cbn [snd] in E2; exists (d1 ++ d2);
      (split; [rewrite responses_app, R1, Q2; reflexivity|]).
    + cbn. exists out. rewrite E2, E1, <- !app_assoc. reflexivity.
    + cbn. rewrite E2, E1, <- !app_assoc. reflexivity.
    + cbn. rewrite E2, E1, <- !app_assoc. reflexivity.
    + cbn. rewrite E2, E1, <- !app_assoc. reflexivity.
Qed.

(** The work area is an entry of the temporary directory. *)
Lemma segs_of_request_workDir (env : Env) (id : jsstring) :
  Path.is_absolute (tmpdir env) = true -> slash_free id ->
  segs_of (request_workDir env id)
  = segs_of (tmpdir env) ++ [str "java-run-" ++ id].
Proof.
  intros Habs Hid. unfold request_workDir.
  assert (Hseg : slash_free (str "java-run-" ++ id)).
  { unfold slash_free in *. rewrite forallb_app, Hid. reflexivity. }
  rewrite segs_of_join_down; [|exact Habs|].
  - rewrite (split_of_slash_free _ Hseg). reflexivity.
  - rewrite (split_of_slash_free _ Hseg). constructor; [reflexivity|constructor].
Qed.

(** What the [try] block does once the sources are written and the
    pipeline has returned. *)
Lemma try_block_answer
      (env : Env) (workDir : jsstring) (body : Body) (w w1 w2 : World)
      (out : jsstring) :
  materialize env workDir body w = (Val tt, w1) ->
  is_empty (entry_point (mainClass body) (code body)) = false ->
  runJavaLocal env workDir (entry_point (mainClass body) (code body))
    (request_input body) w1
  = (Val out, w2) ->
  try_block env workDir body w
  = (Val tt, mkWorld (fs w2) (log w2 ++ [ARespond 200 out])).
Proof.
  intros Hmat Hmain Hrun. unfold try_block, bind.
  rewrite Hmat, Hmain, Hrun. reflexivity.
Qed.

Lemma snoc_inj {A} (l l' : list A) (a a' b : A) :
  l ++ [a; b] = l' ++ [a'; b] -> l = l' /\ a = a'.
Proof.
  intros H.
  change (l ++ [a; b]) with (l ++ [a] ++ [b]) in H.
  change (l' ++ [a'; b]) with (l' ++ [a'] ++ [b]) in H.
  rewrite !app_assoc in H. apply app_inj_tail in H as [H _].
  apply app_inj_tail in H. exact H.
Qed.




(** *** Which processes a request starts *)

(** The steps of [runJavaLocal], however it ends. *)
Lemma runJavaLocal_spawn_shape
      (env : Env) (workDir mainClass input : jsstring) (w : World) :
  exists javaFiles,
    let s := spawns (log (snd (runJavaLocal env workDir mainClass input w))) in
    s = spawns (log w)
    \/ s = spawns (log w) ++ [compile_step workDir javaFiles]
    \/ s = spawns (log w)
             ++ [compile_step workDir javaFiles;
                 run_step workDir mainClass input].
Proof.
  destruct (walk_workDir env workDir w) as [[fl|e| |] w1] eqn:Hw.
  2,3,4: exists []; left; unfold runJavaLocal, bind; rewrite Hw; cbn [snd];
    apply (walk_workDir_world env workDir w _ _ Hw).
  destruct fl as [|f fl].
  - exists []. left. unfold runJavaLocal, bind. rewrite Hw. cbn.
    apply (walk_workDir_world env workDir w _ _ Hw).
  - assert (Hne : f :: fl <> []) by discriminate.
    exists (f :: fl). cbv zeta.
    destruct (spawn_throws env (javac_req workDir (f :: fl))) as [e|] eqn:Hs.
    + left.
      rewrite (runJavaLocal_compile_rejected env workDir mainClass input w
                 _ _ e Hw Hne Hs).
      apply (walk_workDir_world env workDir w _ _ Hw).
    + rewrite (runJavaLocal_steps env workDir mainClass input w _ _ Hw Hne Hs).
      destruct (proceeds _ && starts _ _);
        [right; right | right; left]; reflexivity.
Qed.

Lemma spawns_snoc (l : list Action) (a : Action) :
  spawns [a] = [] -> spawns (l ++ [a]) = spawns l.
Proof. intros H. rewrite spawns_app, H, app_nil_r. reflexivity. Qed.

(** The steps of a whole request: those of [runJavaLocal] on the entry
    point resolved from the [mainClass] and [code] fields, or none. *)
Lemma post_run_spawn_shape (env : Env) (id : jsstring) (body : Body) (w : World) :
  exists javaFiles,
    let workDir := request_workDir env id in
    let main := entry_point (mainClass body) (code body) in
    let s := spawns (log (snd (post_run env id body w))) in
    s = spawns (log w)
    \/ (is_empty main = false
        /\ (s = spawns (log w) ++ [compile_step workDir javaFiles]
            \/ s = spawns (log w)
                     ++ [compile_step workDir javaFiles;
                         run_step workDir main (request_input body)])).
Proof.
  cbv zeta. rewrite post_run_by_try. unfold try_block, bind.
  destruct (only_materialize env (request_workDir env id) body w)
    as (d1 & E1 & Q1).
  apply spawns_none in Q1.
  destruct (materialize env _ body w) as [[[]|e| |] w1]; cbn [snd] in E1.
  2,3,4: exists []; left; cbn [snd cleaned log];
    rewrite ?spawns_snoc by reflexivity;
    rewrite E1, spawns_app, Q1, app_nil_r; reflexivity.
  assert (S1 : spawns (log w1) = spawns (log w))
    by (rewrite E1, spawns_app, Q1, app_nil_r; reflexivity).
  destruct (is_empty (entry_point (mainClass body) (code body))) eqn:Hmain.
  - exists []. left. cbn [respond emit snd cleaned log fs].
    rewrite !spawns_snoc by reflexivity. exact S1.
  - destruct (runJavaLocal_spawn_shape env (request_workDir env id)
                (entry_point (mainClass body) (code body))
                (request_input body) w1) as (fl & Hshape).
    cbv zeta in Hshape. rewrite S1 in Hshape. exists fl.
    destruct (runJavaLocal env _ _ _ w1) as [[out|e| |] w2];
      cbn [snd] in Hshape; cbn [respond emit snd cleaned log fs];
      rewrite ?spawns_snoc by reflexivity;
      (destruct Hshape as [H | H];
       [left; exact H | right; split; [reflexivity | exact H]]).
Qed.

(** ** The message of a run timeout *)

Lemma trimStart_nil_iff (s : jsstring) :
  trimStart s = [] <-> forallb is_space s = true.
Proof.
  induction s as [|c s IH]; simpl; [tauto|].
  destruct (is_space c); simpl; [exact IH|].
  split; discriminate.
Qed.

Lemma forallb_space_trimStart (s : jsstring) :
  forallb is_space (trimStart s) = forallb is_space s.
Proof.
  induction s as [|c s IH]; simpl; [reflexivity|].
  destruct (is_space c) eqn:E; simpl; [exact IH|].
  rewrite E. reflexivity.
Qed.

Lemma forallb_rev {A} (p : A -> bool) (l : list A) :
  forallb p (rev l) = forallb p l.
Proof.
  induction l as [|x l IH]; simpl; [reflexivity|].
  rewrite forallb_app, IH. simpl. rewrite andb_true_r. apply andb_comm.
Qed.

(** [input.trim()] is empty exactly when [input] is made of white space
    only. *)
Lemma trim_empty_all_space (s : jsstring) :
  is_empty (trim s) = forallb is_space s.
Proof.
  unfold trim, trimEnd.
  destruct (forallb is_space s) eqn:E.
  - apply trimStart_nil_iff in E. rewrite E. reflexivity.
  - destruct (rev (trimStart (rev (trimStart s)))) as [|c r] eqn:R;
      [|reflexivity].
    apply (f_equal (@rev _)) in R. rewrite rev_involutive in R. simpl in R.
    apply trimStart_nil_iff in R.
    rewrite forallb_rev, forallb_space_trimStart, E in R. discriminate R.
Qed.

Lemma all_space_replace_crlf_upto (n : nat) :
  forall s, (length s <= n)%nat ->
            forallb is_space (replace_crlf s) = forallb is_space s.
Proof.
  induction n as [|n IH]; intros s L.
  - destruct s; [reflexivity | simpl in L; lia].
  - destruct s as [|c t]; [reflexivity|]. cbn [replace_crlf].
    destruct (char_eqb c CR) eqn:Ec.
    + destruct t as [|d t']; [reflexivity|].
      destruct (char_eqb d LF) eqn:Ed.
      * apply char_eqb_eq in Ec, Ed. subst c d. cbn [forallb].
        rewrite IH by (simpl in *; lia). reflexivity.
      * cbn [forallb]. rewrite IH by (simpl in *; lia). reflexivity.
    + cbn [forallb]. rewrite IH by (simpl in *; lia). reflexivity.
Qed.

(** Making CR LF into LF keeps a text of white space one. *)
Lemma all_space_replace_crlf (s : jsstring) :
  forallb is_space (replace_crlf s) = forallb is_space s.
Proof. apply (all_space_replace_crlf_upto (length s)). lia. Qed.

(** The response to a request whose pipeline returns. *)
Lemma post_run_answer
      (env : Env) (id : jsstring) (body : Body) (w w1 w2 : World)
      (out : jsstring) :
  materialize env (request_workDir env id) body w = (Val tt, w1) ->
  is_empty (entry_point (mainClass body) (code body)) = false ->
  runJavaLocal env (request_workDir env id)
    (entry_point (mainClass body) (code body)) (request_input body) w1
  = (Val out, w2) ->
  fst (post_run env id body w) = Val tt
  /\ responses (log (snd (post_run env id body w)))
     = responses (log w) ++ [(200%N, out)].
Proof.
  intros Hmat Hmain Hrun.
  destruct (only_materialize env (request_workDir env id) body w)
    as (d1 & E1 & Q1).
  rewrite Hmat in E1. cbn [snd] in E1.
  destruct (only_runJavaLocal env (request_workDir env id)
              (entry_point (mainClass body) (code body))
              (request_input body) w1) as (d2 & E2 & Q2).
  rewrite Hrun in E2. cbn [snd] in E2.
  rewrite post_run_by_try. unfold try_block, bind.
  rewrite Hmat, Hmain, Hrun. cbn [respond emit fst snd cleaned log].
  split; [reflexivity|].
  rewrite E2, E1, !responses_app, (responses_none d2 Q2).
  rewrite (responses_none d1)
    by (apply forallb_forall; intros a Ha; apply fs_is_not_response;
        revert a Ha; apply forallb_forall; exact Q1).
  cbn. rewrite !app_nil_r. reflexivity.
Qed.

(** C9, as amended. When the run step times out, the message is the one
    about a program waiting for input if the input is empty or made of
    white space only, and the one about a possible infinite loop if the
    input has a character that is not white space.  It is the result of the
    one run step that was spawned, and it is what the request is answered
    with. *)
Theorem run_timeout_message :
  (forall env workDir mainClass input w steps,
      reaches env workDir mainClass input w RunTimeout steps ->
      exists javaFiles w',
        runJavaLocal env workDir mainClass input w
        = (Val (if forallb is_space input
                then MSG_WAITED_FOR_INPUT else MSG_TIME_LIMIT), w')
        /\ spawns (log w')
           = spawns (log w)
               ++ [compile_step workDir javaFiles;
                   run_step workDir mainClass input])
  /\ (forall env id body w w1 steps,
         materialize env (request_workDir env id) body w = (Val tt, w1) ->
         is_empty (entry_point (mainClass body) (code body)) = false ->
         reaches env (request_workDir env id)
           (entry_point (mainClass body) (code body)) (request_input body)
           w1 RunTimeout steps ->
         responses (log (snd (post_run env id body w)))
         = responses (log w)
             ++ [(200%N,
                  if forallb is_space (or_empty (input body))
                  then MSG_WAITED_FOR_INPUT else MSG_TIME_LIMIT)]).
Proof.
  assert (Hrun : forall env workDir mainClass input w steps,
             reaches env workDir mainClass input w RunTimeout steps ->
             exists javaFiles w',
               runJavaLocal env workDir mainClass input w
               = (Val (if forallb is_space input
                       then MSG_WAITED_FOR_INPUT else MSG_TIME_LIMIT), w')
               /\ spawns (log w')
                  = spawns (log w)
                      ++ [compile_step workDir javaFiles;
                          run_step workDir mainClass input]).
  { intros env workDir mainClass input w steps H.
    destruct (reaches_sound _ _ _ _ _ _ _ H) as (w' & E & S).
    inversion H; subst. exists javaFiles, w'. split; [|exact S].
    rewrite E. cbn [render]. rewrite trim_empty_all_space. reflexivity. }
  split; [exact Hrun|].
  intros env id body w w1 steps Hmat Hmain H.
  destruct (Hrun _ _ _ _ _ _ H) as (fl & w2 & E & _).
  destruct (post_run_answer env id body w w1 w2 _ Hmat Hmain E) as (_ & R).
  rewrite R. unfold request_input. cbn [normalize].
  rewrite all_space_replace_crlf. reflexivity.
Qed.

Lemma hanging_run_reaches_timeout (input : jsstring) :
  reaches hanging_env sample_workDir (str "Main") input with_main RunTimeout
    [compile_step sample_workDir [str "/tmp/java-run-1/Main.java"];
     run_step sample_workDir (str "Main") input].
Proof.
  apply (@reach_run_timeout _ _ _ _ _
           [str "/tmp/java-run-1/Main.java"]
           (mkWorld (fs with_main) [AFs (OpReaddir sample_workDir)])
           (mkProcResult (Some 0%Z) false [] [])
           (mkProcResult None true [] []));
    try reflexivity.
  discriminate.
Qed.

Lemma run_timeout_message_witness :
  (exists javaFiles w',
      runJavaLocal hanging_env sample_workDir (str "Main") (str "42") with_main
      = (Val MSG_TIME_LIMIT, w')
      /\ spawns (log w')
         = [compile_step sample_workDir javaFiles;
            run_step sample_workDir (str "Main") (str "42")])
  /\ responses (log (snd (post_run hanging_env (str "1")
                            (mkBody (Some (str "public class Main {}")) None
                                    None (Some (str "42")))
                            empty_tmp)))
     = [(200%N, MSG_TIME_LIMIT)].
Proof.
  split.
  - exact (proj1 run_timeout_message hanging_env sample_workDir (str "Main")
             (str "42") with_main _ (hanging_run_reaches_timeout (str "42"))).
  - refine (proj2 run_timeout_message hanging_env (str "1")
              (mkBody (Some (str "public class Main {}")) None None
                      (Some (str "42")))
              empty_tmp _
              [compile_step sample_workDir [str "/tmp/java-run-1/Main.java"];
               run_step sample_workDir (str "Main") (str "42")]
              eq_refl eq_refl _).
    eapply (@reach_run_timeout _ _ _ _ _
              [str "/tmp/java-run-1/Main.java"] _
              (mkProcResult (Some 0%Z) false [] [])
              (mkProcResult None true [] []));
      try reflexivity.
    discriminate.
Defined.

(** C9, as the specification words it, fails on an input of one space: the
    run step times out, the input is not empty, and the message is the one
    about waiting for input. *)
Lemma run_timeout_blank_input :
  reaches hanging_env sample_workDir (str "Main") (str " ") with_main RunTimeout
    [compile_step sample_workDir [str "/tmp/java-run-1/Main.java"];
     run_step sample_workDir (str "Main") (str " ")]
  /\ fst (runJavaLocal hanging_env sample_workDir (str "Main") (str " ")
            with_main)
     = Val MSG_WAITED_FOR_INPUT
  /\ MSG_WAITED_FOR_INPUT <> timeout_message_by_emptiness (str " ").
Proof.
  split; [apply hanging_run_reaches_timeout|].
  split; [reflexivity|]. discriminate.
Qed.



(** ** Entry-point detection *)

(** *** The matcher on the two patterns *)

(** A greedy repetition gives the continuation what is left after the
    longest run, when the continuation accepts that or when it refuses
    anything that begins inside the class. *)
Lemma star_drop {R} (p : char16 -> bool) (k : jsstring -> option R) :
  forall s,
    (k (drop_while p s) <> None
     \/ (forall c s', p c = true -> k (c :: s') = None)) ->
    Regex.star p s k = k (drop_while p s).
Proof.
  induction s as [|c s IH]; intros H; [reflexivity|].
  cbn [Regex.star drop_while] in *. destruct (p c) eqn:E; [|reflexivity].
  rewrite (IH H). destruct (k (drop_while p s)) as [r|] eqn:K; [reflexivity|].
  destruct H as [H | H]; [contradiction|]. apply H. exact E.
Qed.

Lemma length_drop_while (p : char16 -> bool) (s : jsstring) :
  (length (drop_while p s) <= length s)%nat.
Proof.
  induction s as [|c s IH]; simpl; [lia|]. destruct (p c); simpl; lia.
Qed.

Lemma firstn_take_while (p : char16 -> bool) (s : jsstring) :
  firstn (length s - length (drop_while p s)) s = take_while p s.
Proof.
  induction s as [|c s IH]; [reflexivity|]. cbn [drop_while take_while].
  destruct (p c).
  - cbn [length]. rewrite Nat.sub_succ_l by apply length_drop_while.
    cbn [firstn]. rewrite IH. reflexivity.
  - rewrite Nat.sub_diag. reflexivity.
Qed.

Lemma take_drop_while (p : char16 -> bool) (s : jsstring) :
  take_while p s ++ drop_while p s = s.
Proof.
  induction s as [|c s IH]; [reflexivity|]. simpl.
  destruct (p c); simpl; [rewrite IH|]; reflexivity.
Qed.

Lemma forallb_take_while (p : char16 -> bool) (s : jsstring) :
  forallb p (take_while p s) = true.
Proof.
  induction s as [|c s IH]; [reflexivity|]. simpl.
  destruct (p c) eqn:E; simpl; [rewrite E; exact IH | reflexivity].
Qed.

Lemma stops_drop_while (p : char16 -> bool) (s : jsstring) :
  stops p (drop_while p s).
Proof.
  induction s as [|c s IH]; [exact I|]. simpl.
  destruct (p c) eqn:E; [exact IH | exact E].
Qed.

Lemma take_while_app (p : char16 -> bool) (r rest : jsstring) :
  forallb p r = true -> stops p rest -> take_while p (r ++ rest) = r.
Proof.
  intros Hr Hs. induction r as [|c r IH]; simpl in *.
  - destruct rest as [|d rest]; [reflexivity|]. simpl in *. rewrite Hs.
    reflexivity.
  - apply andb_true_iff in Hr as [Hc Hr]. rewrite Hc, (IH Hr). reflexivity.
Qed.

Lemma drop_while_app (p : char16 -> bool) (r rest : jsstring) :
  forallb p r = true -> stops p rest -> drop_while p (r ++ rest) = rest.
Proof.
  intros Hr Hs. induction r as [|c r IH]; simpl in *.
  - destruct rest as [|d rest]; [reflexivity|]. simpl in *. rewrite Hs.
    reflexivity.
  - apply andb_true_iff in Hr as [Hc Hr]. rewrite Hc. exact (IH Hr).
Qed.

(** Comparisons of code units, from [bool] to [Prop]. *)
Ltac code_units H :=
  repeat first [ rewrite orb_true_iff in H
               | rewrite andb_true_iff in H
               | rewrite N.leb_le in H
               | rewrite N.eqb_eq in H ].

(** White space begins neither an identifier nor the keyword. *)
Lemma space_not_ident_start (c : char16) :
  is_space c = true -> ident_start c = false.
Proof.
  unfold is_space, ident_start, is_upper, is_lower, is_underscore.
  intros H. apply not_true_iff_false. intros H'.
  code_units H. code_units H'. lia.
Qed.

Lemma space_not_c (c : char16) : is_space c = true -> char_eqb 99%N c = false.
Proof.
  unfold is_space, char_eqb. intros H. apply N.eqb_neq. intros <-.
  discriminate H.
Qed.

Lemma parse_class_space (c : char16) (s : jsstring) :
  is_space c = true -> parse_class (c :: s) = None.
Proof.
  intros H. unfold parse_class.
  change (str "class") with (99%N :: str "lass"). cbn [strip_prefix].
  rewrite (space_not_c c H). reflexivity.
Qed.

Lemma parse_ident_space (c : char16) (s : jsstring) :
  is_space c = true -> parse_ident (c :: s) = None.
Proof.
  intros H. cbn. rewrite (space_not_ident_start c H). reflexivity.
Qed.

(** The group of both patterns, with any capture so far. *)
Lemma m_group_ident (cap : option jsstring) (s : jsstring) :
  Regex.m (Group (Seq (Cls ident_start) (Star is_word))) cap s
    (fun cap' _ => Some {| group1 := cap' |})
  = captured (parse_ident s).
Proof.
  cbn [Regex.m]. destruct s as [|d s]; [reflexivity|]. cbn [parse_ident].
  destruct (ident_start d); [|reflexivity].
  rewrite star_drop by (left; discriminate).
  cbn [length]. rewrite Nat.sub_succ_l by apply length_drop_while.
  cbn [firstn]. rewrite firstn_take_while. reflexivity.
Qed.

Lemma m_class (cap : option jsstring) (s : jsstring) :
  Regex.m RE_CLASS cap s (fun cap' _ => Some {| group1 := cap' |})
  = captured (parse_class s).
Proof.
  unfold RE_CLASS, parse_class. cbn [Regex.m].
  destruct (strip_prefix (str "class") s) as [s1|]; [|reflexivity].
  destruct s1 as [|c s1]; [reflexivity|]. cbn [parse_space_then].
  destruct (is_space c); [|reflexivity].
  rewrite star_drop.
  - exact (m_group_ident cap (drop_while is_space s1)).
  - right. intros c' s' Hc'. rewrite (space_not_ident_start c' Hc').
    reflexivity.
Qed.

Lemma match_here_class (s : jsstring) :
  match_here RE_CLASS s = captured (parse_class s).
Proof. apply m_class. Qed.

Lemma match_here_public_class (s : jsstring) :
  match_here RE_PUBLIC_CLASS s = captured (parse_public_class s).
Proof.
  unfold match_here, RE_PUBLIC_CLASS, parse_public_class. cbn [Regex.m].
  destruct (strip_prefix (str "public") s) as [s1|]; [|reflexivity].
  destruct s1 as [|c s1]; [reflexivity|]. cbn [parse_space_then].
  destruct (is_space c); [|reflexivity].
  change (Regex.star is_space s1
            (fun s' => Regex.m RE_CLASS None s'
                         (fun cap' _ => Some {| group1 := cap' |}))
          = captured (parse_class (drop_while is_space s1))).
  rewrite star_drop.
  - apply m_class.
  - right. intros c' s' Hc'.
    rewrite m_class, (parse_class_space c' s' Hc'). reflexivity.
Qed.

(** *** The patterns and the declarations they stand for *)

Lemma stops_word_ends_name (rest : jsstring) : stops is_word rest <-> ends_name rest.
Proof. destruct rest; simpl; tauto. Qed.

Lemma parse_ident_spec (s n : jsstring) :
  parse_ident s = Some n
  <-> exists rest, s = n ++ rest /\ identifier n /\ ends_name rest.
Proof.
  split.
  - destruct s as [|d s]; [discriminate|]. cbn [parse_ident].
    destruct (ident_start d) eqn:E; [|discriminate].
    intros H. inversion H; subst n. exists (drop_while is_word s).
    split; [|split].
    + cbn [app]. rewrite take_drop_while. reflexivity.
    + exists d, (take_while is_word s).
      split; [reflexivity|]. split; [exact E | apply forallb_take_while].
    + apply stops_word_ends_name, stops_drop_while.
  - intros (rest & -> & (c & r & -> & Hc & Hr) & Hrest).
    cbn [app parse_ident]. rewrite Hc, take_while_app;
      [reflexivity | exact Hr | apply stops_word_ends_name, Hrest].
Qed.

Lemma parse_space_then_spec {A} (s : jsstring) (k : jsstring -> option A) (x : A) :
  (forall c t, is_space c = true -> k (c :: t) = None) ->
  (parse_space_then s k = Some x
   <-> exists ws s', s = ws ++ s' /\ white ws /\ k s' = Some x).
Proof.
  intros Hk. split.
  - destruct s as [|c s]; [discriminate|]. cbn [parse_space_then].
    destruct (is_space c) eqn:E; [|discriminate]. intros H.
    exists (c :: take_while is_space s), (drop_while is_space s).
    split; [|split].
    + cbn [app]. rewrite take_drop_while. reflexivity.
    + split; [discriminate|]. cbn [forallb]. rewrite E. apply forallb_take_while.
    + exact H.
  - intros (ws & s' & -> & (Hne & Hws) & H).
    destruct ws as [|c ws]; [contradiction|]. cbn [forallb] in Hws.
    apply andb_true_iff in Hws as [Hc Hws].
    cbn [app parse_space_then]. rewrite Hc, drop_while_app; [exact H | exact Hws|].
    destruct s' as [|d s']; [exact I|]. simpl.
    destruct (is_space d) eqn:E; [|reflexivity].
    rewrite (Hk d s' E) in H. discriminate H.
Qed.

Lemma parse_class_spec (s n : jsstring) :
  parse_class s = Some n <-> class_decl s n.
Proof.
  unfold parse_class, class_decl. split.
  - destruct (strip_prefix (str "class") s) as [s1|] eqn:P; [|discriminate].
    apply strip_prefix_app in P. subst s. intros H.
    apply (parse_space_then_spec s1 parse_ident n parse_ident_space) in H
      as (ws & s' & -> & Hws & H).
    apply parse_ident_spec in H as (rest & -> & Hn & Hrest).
    exists ws, rest. split; [reflexivity|]. split; [exact Hws|].
    split; [exact Hn | exact Hrest].
  - intros (ws & rest & -> & Hws & Hn & Hrest).
    assert (P : strip_prefix (str "class") (str "class" ++ ws ++ n ++ rest)
                = Some (ws ++ n ++ rest))
      by (apply strip_prefix_app; reflexivity).
    rewrite P. apply (parse_space_then_spec _ parse_ident n parse_ident_space).
    exists ws, (n ++ rest). split; [reflexivity|]. split; [exact Hws|].
    apply parse_ident_spec. exists rest. split; [reflexivity|].
    split; [exact Hn | exact Hrest].
Qed.

Lemma parse_public_class_spec (s n : jsstring) :
  parse_public_class s = Some n <-> public_class_decl s n.
Proof.
  unfold parse_public_class, public_class_decl. split.
  - destruct (strip_prefix (str "public") s) as [s1|] eqn:P; [|discriminate].
    apply strip_prefix_app in P. subst s. intros H.
    apply (parse_space_then_spec s1 parse_class n parse_class_space) in H
      as (ws & s' & -> & Hws & H).
    apply parse_class_spec in H. exists ws, s'. split; [reflexivity|].
    split; [exact Hws | exact H].
  - intros (ws & s' & -> & Hws & H).
    assert (P : strip_prefix (str "public") (str "public" ++ ws ++ s')
                = Some (ws ++ s'))
      by (apply strip_prefix_app; reflexivity).
    rewrite P. apply (parse_space_then_spec _ parse_class n parse_class_space).
    exists ws, s'. split; [reflexivity|]. split; [exact Hws|].
    apply parse_class_spec. exact H.
Qed.

(** *** The leftmost match *)

Lemma exec_leftmost (r : re) (res : MatchResult) :
  forall pre suf,
    match_here r suf = Some res ->
    (forall pre' suf',
        pre ++ suf = pre' ++ suf' -> length pre' < length pre ->
        match_here r suf' = None) ->
    exec r (pre ++ suf) = Some res.
Proof.
  induction pre as [|c pre IH]; intros suf Hm Hbefore.
  - cbn [app]. destruct suf; cbn [exec]; rewrite Hm; reflexivity.
  - cbn [app exec].
    rewrite (Hbefore [] (c :: pre ++ suf) eq_refl) by (simpl; lia).
    apply IH; [exact Hm|]. intros pre' suf' E L.
    apply (Hbefore (c :: pre') suf'); [cbn [app]; rewrite E; reflexivity|].
    simpl. lia.
Qed.

Lemma exec_nowhere (r : re) (text : jsstring) :
  (forall pre suf, text = pre ++ suf -> match_here r suf = None) ->
  exec r text = None.
Proof.
  induction text as [|c text IH]; intros H.
  - cbn [exec]. rewrite (H [] [] eq_refl). reflexivity.
  - cbn [exec]. rewrite (H [] (c :: text) eq_refl). apply IH.
    intros pre suf E. apply (H (c :: pre) suf). rewrite E. reflexivity.
Qed.

Lemma captured_none (n : option jsstring) : captured n = None <-> n = None.
Proof. destruct n; simpl; split; (discriminate || reflexivity). Qed.

Lemma parse_none (parse : jsstring -> option jsstring)
      (decl : jsstring -> jsstring -> Prop) (s : jsstring) :
  (forall n, parse s = Some n <-> decl s n) ->
  (forall n, ~ decl s n) -> parse s = None.
Proof.
  intros Hspec Hno. destruct (parse s) as [n|]; [|reflexivity].
  exfalso. apply (Hno n), Hspec. reflexivity.
Qed.

(** The first public declaration is what the first pattern captures. *)
Lemma exec_public_first (code n : jsstring) :
  first_declared public_class_decl code n ->
  exec RE_PUBLIC_CLASS code = Some {| group1 := Some n |}.
Proof.
  intros (pre & suf & -> & Hd & Hfirst). apply exec_leftmost.
  - rewrite match_here_public_class.
    apply parse_public_class_spec in Hd. rewrite Hd. reflexivity.
  - intros pre' suf' E L. rewrite match_here_public_class.
    apply captured_none.
    apply (parse_none parse_public_class public_class_decl suf'
             (parse_public_class_spec suf')).
    intros n'. exact (Hfirst pre' suf' n' E L).
Qed.

Lemma exec_public_none (code : jsstring) :
  none_declared public_class_decl code -> exec RE_PUBLIC_CLASS code = None.
Proof.
  intros H. apply exec_nowhere. intros pre suf E.
  rewrite match_here_public_class. apply captured_none.
  apply (parse_none parse_public_class public_class_decl suf
           (parse_public_class_spec suf)).
  intros n. exact (H pre suf n E).
Qed.

Lemma exec_class_first (code n : jsstring) :
  first_declared class_decl code n ->
  exec RE_CLASS code = Some {| group1 := Some n |}.
Proof.
  intros (pre & suf & -> & Hd & Hfirst). apply exec_leftmost.
  - rewrite match_here_class. apply parse_class_spec in Hd. rewrite Hd.
    reflexivity.
  - intros pre' suf' E L. rewrite match_here_class. apply captured_none.
    apply (parse_none parse_class class_decl suf' (parse_class_spec suf')).
    intros n'. exact (Hfirst pre' suf' n' E L).
Qed.

Lemma exec_class_none (code : jsstring) :
  none_declared class_decl code -> exec RE_CLASS code = None.
Proof.
  intros H. apply exec_nowhere. intros pre suf E.
  rewrite match_here_class. apply captured_none.
  apply (parse_none parse_class class_decl suf (parse_class_spec suf)).
  intros n. exact (H pre suf n E).
Qed.

(** Where there is no declaration there is no public one. *)
Lemma none_declared_public (code : jsstring) :
  none_declared class_decl code -> none_declared public_class_decl code.
Proof.
  intros H pre suf n E (ws & s' & -> & _ & Hd).
  apply (H (pre ++ str "public" ++ ws) s' n); [|exact Hd].
  rewrite E, <- !app_assoc. reflexivity.
Qed.

Lemma detectMainClass_none (code : jsstring) :
  none_declared class_decl code -> detectMainClass code = None.
Proof.
  intros H. unfold detectMainClass.
  rewrite (exec_public_none code (none_declared_public code H)),
    (exec_class_none code H). reflexivity.
Qed.

(** What a match found by [exec] says about the text. *)
Lemma exec_some_inv (r : re) (res : MatchResult) (text : jsstring) :
  exec r text = Some res ->
  exists pre suf,
    text = pre ++ suf
    /\ match_here r suf = Some res
    /\ forall pre' suf',
        text = pre' ++ suf' -> length pre' < length pre ->
        match_here r suf' = None.
Proof.
  induction text as [|c text IH]; cbn [exec].
  - destruct (match_here r []) as [res'|] eqn:E; [|discriminate].
    intros H. inversion H; subst res'. exists [], []. split; [reflexivity|].
    split; [exact E|]. intros pre' suf' _ L. simpl in L. lia.
  - destruct (match_here r (c :: text)) as [res'|] eqn:E.
    + intros H. inversion H; subst res'. exists [], (c :: text).
      split; [reflexivity|]. split; [exact E|].
      intros pre' suf' _ L. simpl in L. lia.
    + intros H. destruct (IH H) as (pre & suf & -> & Hm & Hfirst).
      exists (c :: pre), suf. split; [reflexivity|]. split; [exact Hm|].
      intros pre' suf' E' L. destruct pre' as [|c' pre'].
      * cbn [app] in E'. subst suf'. exact E.
      * cbn [app] in E'. inversion E'; subst c'.
        apply (Hfirst pre' suf'); [assumption|]. simpl in L. lia.
Qed.

Lemma exec_none_inv (r : re) (text : jsstring) :
  exec r text = None ->
  forall pre suf, text = pre ++ suf -> match_here r suf = None.
Proof.
  induction text as [|c text IH]; cbn [exec]; intros H pre suf E.
  - destruct pre; [|discriminate E]. cbn [app] in E. subst suf.
    destruct (match_here r []); [discriminate H | reflexivity].
  - destruct (match_here r (c :: text)) eqn:M; [discriminate H|].
    destruct pre as [|c' pre].
    + cbn [app] in E. subst suf. exact M.
    + cbn [app] in E. inversion E; subst c'. apply (IH H pre suf). assumption.
Qed.

Lemma captured_some (o : option jsstring) (n : jsstring) :
  captured o = Some {| group1 := Some n |} -> o = Some n.
Proof. destruct o; simpl; intros H; inversion H; reflexivity. Qed.

(** The converse readings, by which a concrete text is checked. *)
Lemma first_declared_public_check (text n : jsstring) :
  exec RE_PUBLIC_CLASS text = Some {| group1 := Some n |} ->
  first_declared public_class_decl text n.
Proof.
  intros H. destruct (exec_some_inv _ _ _ H) as (pre & suf & -> & Hm & Hfirst).
  exists pre, suf. split; [reflexivity|]. split.
  - apply parse_public_class_spec, captured_some.
    rewrite <- match_here_public_class. exact Hm.
  - intros pre' suf' n' E L Hd. apply parse_public_class_spec in Hd.
    specialize (Hfirst pre' suf' E L).
    rewrite match_here_public_class, Hd in Hfirst. discriminate Hfirst.
Qed.

Lemma first_declared_class_check (text n : jsstring) :
  exec RE_CLASS text = Some {| group1 := Some n |} ->
  first_declared class_decl text n.
Proof.
  intros H. destruct (exec_some_inv _ _ _ H) as (pre & suf & -> & Hm & Hfirst).
  exists pre, suf. split; [reflexivity|]. split.
  - apply parse_class_spec, captured_some.
    rewrite <- match_here_class. exact Hm.
  - intros pre' suf' n' E L Hd. apply parse_class_spec in Hd.
    specialize (Hfirst pre' suf' E L).
    rewrite match_here_class, Hd in Hfirst. discriminate Hfirst.
Qed.

Lemma none_declared_public_check (text : jsstring) :
  exec RE_PUBLIC_CLASS text = None -> none_declared public_class_decl text.
Proof.
  intros H pre suf n E Hd. apply parse_public_class_spec in Hd.
  pose proof (exec_none_inv _ _ H pre suf E) as Hm.
  rewrite match_here_public_class, Hd in Hm. discriminate Hm.
Qed.

Lemma none_declared_class_check (text : jsstring) :
  exec RE_CLASS text = None -> none_declared class_decl text.
Proof.
  intros H pre suf n E Hd. apply parse_class_spec in Hd.
  pose proof (exec_none_inv _ _ H pre suf E) as Hm.
  rewrite match_here_class, Hd in Hm. discriminate Hm.
Qed.

(** A request without files and without a class in its code. *)
Lemma writeFiles_no_class (env : Env) (workDir : jsstring) (body : Body) (w : World) :
  single_blob body ->
  none_declared class_decl (replace_crlf (or_empty (code body))) ->
  writeFiles env workDir body w = (Throw (Error MSG_NO_CLASS), w).
Proof.
  intros Hsingle Hnone. unfold writeFiles. cbn [normalize].
  rewrite (detectMainClass_none _ Hnone).
  destruct Hsingle as [-> | ->]; reflexivity.
Qed.

Lemma fs_call_cases (env : Env) (op : FsOp) (change : node -> fsres) (w : World) :
  (exists n, fs_call env op change w = (Val tt, mkWorld n (log w ++ [AFs op])))
  \/ (exists e, fs_call env op change w
                = (Throw e, mkWorld (fs w) (log w ++ [AFs op]))).
Proof.
  unfold fs_call. destruct (fault env op (fs w)) as [e|].
  - right. eexists. reflexivity.
  - destruct (change (fs w)) as [n|e].
    + left. eexists. reflexivity.
    + right. eexists. reflexivity.
Qed.

(** C4, as amended. The entry-point detection reads the text, not the
    program.  It returns the identifier (a letter of [A-Z], [a-z] or [_],
    then such letters and digits as far as they go) that stands at the
    leftmost place where the text reads [public], white space, [class],
    white space and an identifier; when the text has no such place, the
    identifier at the leftmost place where it reads [class], white space
    and an identifier; and when the source of a request without uploaded
    files has no such place either, writing the source throws "No class
    found in code.", the request is answered with status 500 and no process
    is started. *)
Theorem detectMainClass_first_declared :
  (forall src n,
      first_declared public_class_decl src n -> detectMainClass src = Some n)
  /\ (forall src n,
         none_declared public_class_decl src ->
         first_declared class_decl src n ->
         detectMainClass src = Some n)
  /\ (forall env id body w,
         single_blob body ->
         none_declared class_decl (replace_crlf (or_empty (code body))) ->
         (forall workDir w0,
             writeFiles env workDir body w0 = (Throw (Error MSG_NO_CLASS), w0))
         /\ fst (post_run env id body w) = Val tt
         /\ spawns (log (snd (post_run env id body w))) = spawns (log w)
         /\ exists e,
             responses (log (snd (post_run env id body w)))
             = responses (log w) ++ [(500%N, MSG_SERVER_ERROR ++ error_text e)]
             /\ (forall w1,
                    fs_mkdir env (request_workDir env id) w = (Val tt, w1) ->
                    e = Error MSG_NO_CLASS)).
Proof.
  split; [|split].
  - intros src n H. unfold detectMainClass.
    rewrite (exec_public_first src n H). reflexivity.
  - intros src n Hnone H. unfold detectMainClass.
    rewrite (exec_public_none src Hnone), (exec_class_first src n H).
    reflexivity.
  - intros env id body w Hsingle Hnone.
    split; [intros workDir w0; apply writeFiles_no_class; assumption|].
    rewrite post_run_by_try. unfold try_block, materialize, bind.
    destruct (fs_call_cases env (OpMkdir (request_workDir env id))
                (mkdirp (segs_of (request_workDir env id))) w)
      as [(n & E) | (e & E)]; unfold fs_mkdir; rewrite E.
    + rewrite (writeFiles_no_class env _ body _ Hsingle Hnone).
      cbn [fst snd cleaned log fs]. split; [reflexivity|].
      split; [rewrite !spawns_app; cbn; rewrite !app_nil_r; reflexivity|].
      exists (Error MSG_NO_CLASS). split; [|reflexivity].
      rewrite !responses_app. cbn. rewrite !app_nil_r. reflexivity.
    + cbn [fst snd cleaned log fs]. split; [reflexivity|].
      split; [rewrite !spawns_app; cbn; rewrite !app_nil_r; reflexivity|].
      exists e. split; [|discriminate].
      rewrite !responses_app. cbn. rewrite !app_nil_r. reflexivity.
Qed.

(** C4, as the specification words it, fails: a type that is declared
    publicly with another modifier after [public] is passed over for an
    earlier type that is not public; a name with a [$] in it is cut short;
    and a type that is not a class is not found at all. *)
Lemma detectMainClass_not_as_declared :
  (entry_point_as_declared src_public_final = Some (str "Main")
   /\ detectMainClass src_public_final = Some (str "Helper"))
  /\ (entry_point_as_declared src_dollar = Some (str "Price$Tag")
      /\ detectMainClass src_dollar = Some (str "Price"))
  /\ (entry_point_as_declared src_interface = Some (str "Shape")
      /\ detectMainClass src_interface = None).
Proof. repeat split. Qed.

Lemma detectMainClass_first_declared_witness :
  detectMainClass src_public_second = Some (str "Main")
  /\ detectMainClass src_plain = Some (str "Tool_2")
  /\ responses (log (snd (post_run ok_env (str "1")
                            (mkBody (Some src_no_class) None None None)
                            empty_tmp)))
     = [(500%N, str "Server error: No class found in code.")].
Proof.
  destruct detectMainClass_first_declared as (Hpub & Hany & Hnone).
  split; [|split].
  - apply Hpub. apply first_declared_public_check. reflexivity.
  - apply Hany.
    + apply none_declared_public_check. reflexivity.
    + apply first_declared_class_check. reflexivity.
  - destruct (Hnone ok_env (str "1")
                (mkBody (Some src_no_class) None None None) empty_tmp)
      as (_ & _ & _ & e & Hr & He).
    + left. reflexivity.
    + apply none_declared_class_check. reflexivity.
    + rewrite Hr, (He _ eq_refl). reflexivity.
Defined.

(** ** Entries of a directory *)

Lemma str_eqb_neq (a b : jsstring) : a <> b -> str_eqb a b = false.
Proof.
  intros H. destruct (str_eqb a b) eqn:E; [|reflexivity].
  apply str_eqb_eq in E. contradiction.
Qed.

Lemma find_set_entry_other (a b : jsstring) (v : node)
      (es : list (jsstring * node)) :
  a <> b -> find_entry b (set_entry a v es) = find_entry b es.
Proof.
  intros H. induction es as [|[k x] es IH]; cbn [set_entry find_entry].
  - rewrite (str_eqb_neq a b H). reflexivity.
  - destruct (str_eqb k a) eqn:E; cbn [find_entry].
    + apply str_eqb_eq in E. subst k. rewrite (str_eqb_neq a b H). reflexivity.
    + destruct (str_eqb k b); [reflexivity | exact IH].
Qed.

Lemma find_remove_entry_other (a b : jsstring) (es : list (jsstring * node)) :
  a <> b -> find_entry b (remove_entry a es) = find_entry b es.
Proof.
  intros H. unfold remove_entry.
  induction es as [|[k x] es IH]; cbn [filter find_entry fst]; [reflexivity|].
  destruct (str_eqb k a) eqn:E; cbn [negb find_entry].
  - apply str_eqb_eq in E. subst k. rewrite (str_eqb_neq a b H). exact IH.
  - destruct (str_eqb k b); [reflexivity | exact IH].
Qed.

Lemma find_map_entry_other (a b : jsstring) (f : node -> node)
      (es : list (jsstring * node)) :
  a <> b ->
  find_entry b
    (map (fun kv => if str_eqb (fst kv) a then (fst kv, f (snd kv)) else kv) es)
  = find_entry b es.
Proof.
  intros H. induction es as [|[k x] es IH]; cbn [map find_entry fst snd];
    [reflexivity|].
  destruct (str_eqb k a) eqn:E; cbn [find_entry].
  - apply str_eqb_eq in E. subst k. rewrite (str_eqb_neq a b H). exact IH.
  - destruct (str_eqb k b); [reflexivity | exact IH].
Qed.

Lemma find_app_other (a b : jsstring) (v : node) (es : list (jsstring * node)) :
  a <> b -> find_entry b (es ++ [(a, v)]) = find_entry b es.
Proof.
  intros H. induction es as [|[k x] es IH]; cbn [app find_entry].
  - rewrite (str_eqb_neq a b H). reflexivity.
  - destruct (str_eqb k b); [reflexivity | exact IH].
Qed.

Lemma find_app_new (c : jsstring) (v : node) (es : list (jsstring * node)) :
  find_entry c es = None -> find_entry c (es ++ [(c, v)]) = Some v.
Proof.
  induction es as [|[k x] es IH]; cbn [app find_entry]; intros H.
  - rewrite str_eqb_refl. reflexivity.
  - destruct (str_eqb k c); [discriminate H | exact (IH H)].
Qed.

Lemma lookup_mkchain_diverge (common : list jsstring) (a b : jsstring)
      (p' q' : list jsstring) :
  a <> b -> lookup (common ++ b :: q') (mkchain (common ++ a :: p')) = None.
Proof.
  intros H. induction common as [|c common IH];
    cbn [app mkchain lookup find_entry].
  - rewrite (str_eqb_neq a b H). reflexivity.
  - rewrite str_eqb_refl. exact IH.
Qed.

Lemma rm_at_below (s : jsstring) (rest : list jsstring)
      (es : list (jsstring * node)) :
  rest <> [] ->
  rm_at (s :: rest) (Dir es)
  = Dir (map (fun kv =>
                if str_eqb (fst kv) s
                then (fst kv, rm_at rest (snd kv))
                else kv) es).
Proof. destruct rest; [contradiction | reflexivity]. Qed.

Lemma write_at_below (s : jsstring) (rest : list jsstring) (data : jsstring)
      (es : list (jsstring * node)) :
  rest <> [] ->
  write_at (s :: rest) data (Dir es)
  = match find_entry s es with
    | None => FsErr ENOENT
    | Some child =>
        match write_at rest data child with
        | FsOk child' => FsOk (Dir (set_entry s child' es))
        | FsErr e => FsErr e
        end
    end.
Proof. destruct rest; [contradiction | reflexivity]. Qed.

Lemma app_cons_nonempty {A} (l : list A) (x : A) (r : list A) : l ++ x :: r <> [].
Proof. destruct l; discriminate. Qed.

(** ** Uploaded files *)

Lemma str_eqb_length (a b : jsstring) :
  str_eqb a b = true -> length a = length b.
Proof. intros H. apply str_eqb_eq in H. subst. reflexivity. Qed.

(** A segment that ends in [.java] names an entry. *)
Lemma proper_java (x : jsstring) : proper (x ++ str ".java") = true.
Proof.
  unfold proper, Path.is_dot, Path.is_dotdot.
  assert (L : (5 <= length (x ++ str ".java"))%nat)
    by (rewrite length_app; simpl; lia).
  destruct (is_empty (x ++ str ".java")) eqn:E1.
  { apply is_empty_length in E1. lia. }
  destruct (str_eqb (x ++ str ".java") (str ".")) eqn:E2.
  { apply str_eqb_length in E2. simpl in E2. lia. }
  destruct (str_eqb (x ++ str ".java") (str "..")) eqn:E3.
  { apply str_eqb_length in E3. simpl in E3. lia. }
  reflexivity.
Qed.

(** The segments of a name that ends in [.java] end with a proper one. *)
Lemma filter_proper_java (nm : jsstring) :
  endsWith nm (str ".java") = true -> filter proper (Path.split nm) <> [].
Proof.
  intros H. apply endsWith_app in H as [pre ->].
  rewrite split_app_slash_free by reflexivity.
  rewrite filter_app. cbn [filter]. rewrite proper_java.
  intros E. apply app_eq_nil in E as [_ E]. discriminate E.
Qed.

Lemma segs_eqb_eq (a b : list jsstring) : segs_eqb a b = true <-> a = b.
Proof.
  revert b. induction a as [|x a IH]; intros [|y b]; cbn [segs_eqb];
    try (split; discriminate); [tauto|].
  rewrite andb_true_iff, str_eqb_eq, IH. split.
  - intros [-> ->]. reflexivity.
  - intros E. inversion E. auto.
Qed.

Lemma segs_eqb_refl (a : list jsstring) : segs_eqb a a = true.
Proof. apply segs_eqb_eq. reflexivity. Qed.

Lemma find_app_found (t : jsstring) (c : node) (es more : list (jsstring * node)) :
  find_entry t es = Some c -> find_entry t (es ++ more) = Some c.
Proof.
  induction es as [|[k x] es IH]; cbn [app find_entry]; [discriminate|].
  destruct (str_eqb k t); [auto | exact IH].
Qed.

(** [mkdir -p] keeps every regular file where it is. *)
Lemma mkdirp_keeps_file (p : list jsstring) :
  forall n n' q d,
    mkdirp p n = FsOk n' ->
    lookup q n = Some (File d) -> lookup q n' = Some (File d).
Proof.
  induction p as [|s rest IH]; intros n n' q d H L.
  - destruct n as [x|es]; [discriminate H|]. inversion H; subst. exact L.
  - destruct n as [x|es]; [discriminate H|]. cbn [mkdirp] in H.
    destruct q as [|t q']; [discriminate L|]. cbn [lookup] in L.
    destruct (find_entry t es) as [child|] eqn:Ft; [|discriminate L].
    destruct (find_entry s es) as [c|] eqn:Fs.
    + destruct (mkdirp rest c) as [c'|e] eqn:M; [|discriminate H].
      inversion H; subst n'. cbn [lookup].
      destruct (str_eqb s t) eqn:Est.
      * apply str_eqb_eq in Est. subst t. rewrite find_set_entry.
        rewrite Fs in Ft. inversion Ft; subst child.
        exact (IH c c' q' d M L).
      * rewrite find_set_entry_other, Ft; [exact L|].
        intros E. subst t. rewrite str_eqb_refl in Est. discriminate Est.
    + inversion H; subst n'. cbn [lookup].
      rewrite (find_app_found t child es _ Ft). exact L.
Qed.

Lemma lookup_below_file (q : list jsstring) (x d : jsstring) :
  lookup q (File x) = Some (File d) -> q = [].
Proof. destruct q; [reflexivity | discriminate]. Qed.

(** Writing one file keeps every other regular file where it is. *)
Lemma write_at_keeps_file (p : list jsstring) (data : jsstring) :
  forall n n' q d,
    write_at p data n = FsOk n' -> q <> p ->
    lookup q n = Some (File d) -> lookup q n' = Some (File d).
Proof.
  induction p as [|s rest IH]; intros n n' q d H Hne L.
  - destruct n; discriminate H.
  - destruct n as [x|es]; [discriminate H|].
    destruct q as [|t q']; [discriminate L|]. cbn [lookup] in L.
    destruct (find_entry t es) as [child|] eqn:Ft; [|discriminate L].
    destruct rest as [|s' rest'].
    + cbn [write_at] in H.
      assert (E : n' = Dir (set_entry s (File data) es)
                  /\ forall es', find_entry s es <> Some (Dir es')).
      { destruct (find_entry s es) as [[y|es'']|];
          [inversion H; split; [reflexivity | discriminate]
          |discriminate H
          |inversion H; split; [reflexivity | discriminate]]. }
      destruct E as [-> Hfree]. cbn [lookup].
      destruct (str_eqb s t) eqn:Est.
      * apply str_eqb_eq in Est. subst t. exfalso.
        destruct child as [y|es']; [|exact (Hfree es' Ft)].
        apply lookup_below_file in L. subst q'. apply Hne. reflexivity.
      * rewrite find_set_entry_other, Ft; [exact L|].
        intros E. subst t. rewrite str_eqb_refl in Est. discriminate Est.
    + rewrite write_at_below in H by discriminate.
      destruct (find_entry s es) as [c|] eqn:Fs; [|discriminate H].
      destruct (write_at (s' :: rest') data c) as [c'|e] eqn:W;
        [|discriminate H].
      inversion H; subst n'. cbn [lookup].
      destruct (str_eqb s t) eqn:Est.
      * apply str_eqb_eq in Est. subst t. rewrite find_set_entry.
        rewrite Fs in Ft. inversion Ft; subst child.
        apply (IH c c' q' d W); [|exact L].
        intros E. apply Hne. rewrite E. reflexivity.
      * rewrite find_set_entry_other, Ft; [exact L|].
        intros E. subst t. rewrite str_eqb_refl in Est. discriminate Est.
Qed.

(** How a call into the file system goes. *)
Lemma fs_call_inv (env : Env) (op : FsOp) (change : node -> fsres) (w : World) :
  (exists n',
      change (fs w) = FsOk n'
      /\ fs_call env op change w = (Val tt, mkWorld n' (log w ++ [AFs op])))
  \/ (exists c,
         fs_call env op change w
         = (Throw (SystemError c op), mkWorld (fs w) (log w ++ [AFs op]))).
Proof.
  unfold fs_call. destruct (fault env op (fs w)) as [e|].
  - right. eexists. reflexivity.
  - destruct (change (fs w)) as [n|e].
    + left. eexists. split; reflexivity.
    + right. eexists. reflexivity.
Qed.

(** One turn of the loop on an upload that is not a source, and on one
    that is. *)
Lemma write_one_skips (env : Env) (workDir : jsstring) (g : SourceFile)
      (w : World) :
  is_source g = false -> write_one env workDir g w = (Val tt, w).
Proof.
  intros H. unfold write_one. cbv zeta.
  change (endsWith (trim (or_empty (name g))) (str ".java")) with (is_source g).
  rewrite H. reflexivity.
Qed.

Lemma write_one_source (env : Env) (workDir : jsstring) (g : SourceFile)
      (w : World) :
  is_source g = true ->
  write_one env workDir g w
  = (fs_mkdir env (Path.dirname (upload_path workDir g)) ;;
     fs_writeFile env (upload_path workDir g) (upload_data g)) w.
Proof.
  intros H. unfold write_one. cbv zeta.
  change (endsWith (trim (or_empty (name g))) (str ".java")) with (is_source g).
  rewrite H. reflexivity.
Qed.

(** The three ways a turn on a source can go: both calls succeed, the
    first fails, the second fails. *)
Lemma write_one_cases (env : Env) (workDir : jsstring) (g : SourceFile)
      (w : World) :
  is_source g = true ->
  let mk := OpMkdir (Path.dirname (upload_path workDir g)) in
  let wr := OpWriteFile (upload_path workDir g) (upload_data g) in
  (exists n1 n2,
      mkdirp (segs_of (Path.dirname (upload_path workDir g))) (fs w) = FsOk n1
      /\ write_at (segs_of (upload_path workDir g)) (upload_data g) n1
         = FsOk n2
      /\ write_one env workDir g w
         = (Val tt, mkWorld n2 (log w ++ [AFs mk; AFs wr])))
  \/ (exists c w1,
         write_one env workDir g w = (Throw (SystemError c mk), w1)
         /\ log w1 = log w ++ [AFs mk])
  \/ (exists c w1,
         write_one env workDir g w = (Throw (SystemError c wr), w1)
         /\ log w1 = log w ++ [AFs mk; AFs wr]).
Proof.
  intros Hs. cbv zeta. rewrite (write_one_source env workDir g w Hs).
  unfold bind, fs_mkdir.
  destruct (fs_call_inv env (OpMkdir (Path.dirname (upload_path workDir g)))
              (mkdirp (segs_of (Path.dirname (upload_path workDir g)))) w)
    as [(n1 & M & E1) | (c & E1)]; rewrite E1.
  - unfold fs_writeFile.
    destruct (fs_call_inv env
                (OpWriteFile (upload_path workDir g) (upload_data g))
                (write_at (segs_of (upload_path workDir g)) (upload_data g))
                (mkWorld n1
                   (log w ++ [AFs (OpMkdir (Path.dirname
                                              (upload_path workDir g)))])))
      as [(n2 & W & E2) | (c & E2)]; rewrite E2; cbn [fs log] in *.
    + left. exists n1, n2. split; [exact M|]. split; [exact W|].
      rewrite <- app_assoc. reflexivity.
    + right. right. eexists. eexists. split; [reflexivity|].
      cbn [log]. rewrite <- app_assoc. reflexivity.
  - right. left. eexists. eexists. split; reflexivity.
Qed.

(** The uploads that are skipped play no part in the loop. *)
Lemma for_each_sources (env : Env) (workDir : jsstring) (fl : list SourceFile) :
  forall w,
    for_each fl (write_one env workDir) w
    = for_each (filter is_source fl) (write_one env workDir) w.
Proof.
  induction fl as [|g fl IH]; intros w; [reflexivity|].
  cbn [for_each filter]. destruct (is_source g) eqn:Hs.
  - cbn [for_each]. apply bind_ext; [reflexivity | intros _; exact IH].
  - rewrite (bind_val _ _ w tt w (write_one_skips env workDir g w Hs)).
    apply IH.
Qed.

Lemma upload_calls_cons (workDir : jsstring) (g : SourceFile)
      (fl : list SourceFile) :
  is_source g = true ->
  upload_calls workDir (g :: fl)
  = [AFs (OpMkdir (Path.dirname (upload_path workDir g)));
     AFs (OpWriteFile (upload_path workDir g) (upload_data g))]
      ++ upload_calls workDir fl.
Proof. intros H. unfold upload_calls. cbn [filter]. rewrite H. reflexivity. Qed.

Lemma upload_calls_skip (workDir : jsstring) (g : SourceFile)
      (fl : list SourceFile) :
  is_source g = false ->
  upload_calls workDir (g :: fl) = upload_calls workDir fl.
Proof. intros H. unfold upload_calls. cbn [filter]. rewrite H. reflexivity. Qed.

(** The calls of the loop: those of the uploads in turn, up to and
    including the first one that fails. *)
Lemma for_each_calls (env : Env) (workDir : jsstring) (fl : list SourceFile) :
  forall w,
    exists done rest,
      log (snd (for_each fl (write_one env workDir) w)) = log w ++ done
      /\ upload_calls workDir fl = done ++ rest
      /\ (fst (for_each fl (write_one env workDir) w) = Val tt -> rest = [])
      /\ (forall e,
             fst (for_each fl (write_one env workDir) w) = Throw e ->
             exists before op c,
               done = before ++ [AFs op] /\ e = SystemError c op)
      /\ fst (for_each fl (write_one env workDir) w) <> Pending
      /\ fst (for_each fl (write_one env workDir) w) <> Crashed.
Proof.
  induction fl as [|g fl IH]; intros w.
  - exists [], []. cbn. rewrite app_nil_r.
    repeat split; try reflexivity; discriminate.
  - cbn [for_each]. destruct (is_source g) eqn:Hs.
    + rewrite (upload_calls_cons workDir g fl Hs).
      destruct (write_one_cases env workDir g w Hs)
        as [(n1 & n2 & _ & _ & E) | [(c & w1 & E & L) | (c & w1 & E & L)]].
      * rewrite (bind_val _ _ w tt _ E).
        destruct (IH (mkWorld n2
                        (log w ++ [AFs (OpMkdir (Path.dirname
                                                   (upload_path workDir g)));
                                   AFs (OpWriteFile (upload_path workDir g)
                                          (upload_data g))])))
          as (done & rest & Hl & Hc & Hv & Ht & Hp & Hd).
        cbn [log] in Hl.
        exists ([AFs (OpMkdir (Path.dirname (upload_path workDir g)));
                 AFs (OpWriteFile (upload_path workDir g) (upload_data g))]
                  ++ done), rest.
        split; [rewrite Hl, <- app_assoc; reflexivity|].
        split; [rewrite Hc, <- app_assoc; reflexivity|].
        split; [exact Hv|]. split; [|split; assumption].
        intros e He. destruct (Ht e He) as (before & op & c & -> & ->).
        exists ([AFs (OpMkdir (Path.dirname (upload_path workDir g)));
                 AFs (OpWriteFile (upload_path workDir g) (upload_data g))]
                  ++ before), op, c.
        split; [rewrite <- app_assoc; reflexivity | reflexivity].
      * unfold bind. rewrite E. cbn [fst snd].
        exists [AFs (OpMkdir (Path.dirname (upload_path workDir g)))],
          (AFs (OpWriteFile (upload_path workDir g) (upload_data g))
             :: upload_calls workDir fl).
        split; [exact L|]. split; [reflexivity|].
        split; [discriminate|]. split; [|split; discriminate].
        intros e He. inversion He; subst e.
        exists [], (OpMkdir (Path.dirname (upload_path workDir g))), c.
        split; reflexivity.
      * unfold bind. rewrite E. cbn [fst snd].
        exists [AFs (OpMkdir (Path.dirname (upload_path workDir g)));
                AFs (OpWriteFile (upload_path workDir g) (upload_data g))],
          (upload_calls workDir fl).
        split; [exact L|]. split; [reflexivity|].
        split; [discriminate|]. split; [|split; discriminate].
        intros e He. inversion He; subst e.
        exists [AFs (OpMkdir (Path.dirname (upload_path workDir g)))],
          (OpWriteFile (upload_path workDir g) (upload_data g)), c.
        split; reflexivity.
    + rewrite (upload_calls_skip workDir g fl Hs).
      rewrite (bind_val _ _ w tt w (write_one_skips env workDir g w Hs)).
      apply IH.
Qed.

(** What the loop leaves when all its calls have succeeded: at every path
    the content of the last upload written to it, and at the other paths
    the regular files that were there. *)
Lemma for_each_written (env : Env) (workDir : jsstring)
      (fl : list SourceFile) :
  forall w w',
    for_each fl (write_one env workDir) w = (Val tt, w') ->
    forall q,
      match last_written workDir q fl with
      | Some d => lookup q (fs w') = Some (File d)
      | None =>
          forall d0, lookup q (fs w) = Some (File d0) ->
                     lookup q (fs w') = Some (File d0)
      end.
Proof.
  induction fl as [|g fl IH]; intros w w' H q.
  - inversion H; subst. cbn [last_written]. auto.
  - cbn [for_each] in H. cbn [last_written]. destruct (is_source g) eqn:Hs.
    + destruct (write_one_cases env workDir g w Hs)
        as [(n1 & n2 & M & W & E) | [(c & w1 & E & _) | (c & w1 & E & _)]];
        [|unfold bind in H; rewrite E in H; discriminate H
         |unfold bind in H; rewrite E in H; discriminate H].
      rewrite (bind_val _ _ w tt _ E) in H.
      specialize (IH _ _ H q). cbn [fs] in IH.
      destruct (last_written workDir q fl) as [d|]; [exact IH|].
      cbn [andb].
      destruct (segs_eqb (segs_of (upload_path workDir g)) q) eqn:Eq.
      * apply segs_eqb_eq in Eq. subst q. apply IH.
        exact (write_at_lookup _ _ _ _ W).
      * intros d0 L. apply IH.
        apply (write_at_keeps_file _ _ _ _ _ _ W).
        -- intros E'. subst q. rewrite segs_eqb_refl in Eq. discriminate Eq.
        -- exact (mkdirp_keeps_file _ _ _ _ _ M L).
    + rewrite (bind_val _ _ w tt w (write_one_skips env workDir g w Hs)) in H.
      specialize (IH _ _ H q). cbn [andb].
      destruct (last_written workDir q fl) as [d|]; exact IH.
Qed.

Lemma last_written_some (workDir : jsstring) (g : SourceFile)
      (fl : list SourceFile) :
  In g fl -> is_source g = true ->
  exists d, last_written workDir (segs_of (upload_path workDir g)) fl = Some d.
Proof.
  induction fl as [|h fl IH]; intros Hin Hs; [contradiction|].
  cbn [last_written].
  destruct (last_written workDir (segs_of (upload_path workDir g)) fl)
    as [d|] eqn:L; [exists d; reflexivity|].
  destruct Hin as [-> | Hin].
  - rewrite Hs, segs_eqb_refl. eexists. reflexivity.
  - destruct (IH Hin Hs) as [d E]. discriminate E.
Qed.




(** A name with [..] segments climbs out of the work area: the loop does
    not look at the segments of a name. *)
Lemma upload_leaves_work_area :
  fst (writeFiles ok_env sample_workDir climbing_upload with_main) = Val tt
  /\ lookup (segs_of (Path.join sample_workDir (str "../Evil.java")))
       (fs (snd (writeFiles ok_env sample_workDir climbing_upload with_main)))
     = Some (File (str "class Evil {}"))
  /\ Path.join sample_workDir (str "../Evil.java") = str "/tmp/Evil.java"
  /\ ~ inside sample_workDir (Path.join sample_workDir (str "../Evil.java")).
Proof.
  split; [reflexivity|]. split; [reflexivity|]. split; [reflexivity|].
  intros (rel & _ & E). vm_compute in E. discriminate E.
Qed.

(** * Further properties *)

(** ** Line endings *)

Lemma replace_crlf_cr_lf (t : jsstring) :
  replace_crlf (CR :: LF :: t) = LF :: replace_crlf t.
Proof. reflexivity. Qed.

Lemma replace_crlf_cr_other (d : char16) (t : jsstring) :
  char_eqb d LF = false ->
  replace_crlf (CR :: d :: t) = CR :: replace_crlf (d :: t).
Proof.
  intros H. change (replace_crlf (CR :: d :: t))
    with (if char_eqb d LF then LF :: replace_crlf t
          else CR :: replace_crlf (d :: t)).
  rewrite H. reflexivity.
Qed.

Lemma replace_crlf_other (c : char16) (t : jsstring) :
  char_eqb c CR = false -> replace_crlf (c :: t) = c :: replace_crlf t.
Proof. intros H. cbn [replace_crlf]. rewrite H. reflexivity. Qed.

(** The three ways a text can begin, as [replace_crlf] distinguishes
    them. *)
Lemma replace_crlf_cases (s : jsstring) :
  s = []
  \/ (exists t, s = CR :: LF :: t)
  \/ s = [CR]
  \/ (exists d t, s = CR :: d :: t /\ char_eqb d LF = false)
  \/ (exists c t, s = c :: t /\ char_eqb c CR = false).
Proof.
  destruct s as [|c t]; [left; reflexivity|]. right.
  destruct (char_eqb c CR) eqn:Ec.
  - apply char_eqb_eq in Ec. subst c. destruct t as [|d t].
    + right. left. reflexivity.
    + destruct (char_eqb d LF) eqn:Ed.
      * apply char_eqb_eq in Ed. subst d. left. exists t. reflexivity.
      * right. right. left. exists d, t. split; [reflexivity | exact Ed].
  - right. right. right. exists c, t. split; [reflexivity | exact Ec].
Qed.

(** Induction along the scan of [replace_crlf]. *)
Lemma crlf_ind (P : jsstring -> Prop) :
  P [] ->
  (forall t, P t -> P (CR :: LF :: t)) ->
  P [CR] ->
  (forall d t, char_eqb d LF = false -> P (d :: t) -> P (CR :: d :: t)) ->
  (forall c t, char_eqb c CR = false -> P t -> P (c :: t)) ->
  forall s, P s.
Proof.
  intros Hnil Hpair Hlast Hcr Hother.
  assert (H : forall n s, (length s <= n)%nat -> P s).
  { induction n as [|n IH]; intros s L.
    - destruct s; [exact Hnil | simpl in L; lia].
    - destruct (replace_crlf_cases s)
        as [-> | [(t & ->) | [-> | [(d & t & -> & Hd) | (c & t & -> & Hc)]]]].
      + exact Hnil.
      + apply Hpair, IH. simpl in L. lia.
      + exact Hlast.
      + apply (Hcr d t Hd), IH. simpl in *. lia.
      + apply (Hother c t Hc), IH. simpl in L. lia. }
  intros s. apply (H (length s)). lia.
Qed.

Lemma occurs_cons (pat : jsstring) (c : char16) (t : jsstring) :
  occurs pat (c :: t) = startsWith (c :: t) pat || occurs pat t.
Proof. reflexivity. Qed.

Lemma length_replace_crlf (s : jsstring) :
  (length (replace_crlf s) <= length s)%nat.
Proof.
  induction s as [|t IH| |d t Hd IH|c t Hc IH] using crlf_ind.
  - simpl. lia.
  - rewrite replace_crlf_cr_lf. simpl in *. lia.
  - simpl. lia.
  - rewrite (replace_crlf_cr_other d t Hd). simpl in *. lia.
  - rewrite (replace_crlf_other c t Hc). simpl in *. lia.
Qed.

Lemma replace_crlf_unchanged (s : jsstring) :
  occurs [CR; LF] s = false -> replace_crlf s = s.
Proof.
  induction s as [|t IH| |d t Hd IH|c t Hc IH] using crlf_ind; intros H.
  - reflexivity.
  - discriminate H.
  - reflexivity.
  - rewrite (replace_crlf_cr_other d t Hd). rewrite occurs_cons in H.
    apply orb_false_iff in H as [_ H]. rewrite (IH H). reflexivity.
  - rewrite (replace_crlf_other c t Hc). rewrite occurs_cons in H.
    apply orb_false_iff in H as [_ H]. rewrite (IH H). reflexivity.
Qed.

Lemma replace_crlf_shrinks (s : jsstring) :
  occurs [CR; LF] s = true -> (length (replace_crlf s) < length s)%nat.
Proof.
  induction s as [|t IH| |d t Hd IH|c t Hc IH] using crlf_ind; intros H.
  - discriminate H.
  - rewrite replace_crlf_cr_lf. pose proof (length_replace_crlf t).
    simpl. lia.
  - discriminate H.
  - rewrite (replace_crlf_cr_other d t Hd). rewrite occurs_cons in H.
    assert (S : startsWith (CR :: d :: t) [CR; LF] = false).
    { unfold startsWith. cbn [strip_prefix]. rewrite char_eqb_refl.
      replace (char_eqb LF d) with false; [reflexivity|].
      symmetry. apply not_true_iff_false. intros E.
      apply char_eqb_eq in E. subst d. rewrite char_eqb_refl in Hd.
      discriminate Hd. }
    rewrite S in H. cbn [orb] in H. specialize (IH H). simpl in *. lia.
  - rewrite (replace_crlf_other c t Hc). rewrite occurs_cons in H.
    assert (S : startsWith (c :: t) [CR; LF] = false).
    { unfold startsWith. cbn [strip_prefix].
      replace (char_eqb CR c) with false; [reflexivity|].
      symmetry. apply not_true_iff_false. intros E.
      apply char_eqb_eq in E. subst c. rewrite char_eqb_refl in Hc.
      discriminate Hc. }
    rewrite S in H. cbn [orb] in H. specialize (IH H). simpl in *. lia.
Qed.

(** X1. [normalize] leaves a text as it is exactly when the text has no
    CR LF pair; a text that has one comes out strictly shorter, and a value
    that is not a string comes out as the empty string. *)
Theorem normalize_fixed_points (s : jsstring) :
  (occurs [CR; LF] s = false -> normalize (Some s) = s)
  /\ (occurs [CR; LF] s = true ->
      (length (normalize (Some s)) < length s)%nat)
  /\ normalize None = [].
Proof.
  split; [apply replace_crlf_unchanged|].
  split; [apply replace_crlf_shrinks | reflexivity].
Qed.

Lemma normalize_fixed_points_witness :
  normalize (Some (str "a" ++ [LF; CR] ++ str "b")) = str "a" ++ [LF; CR] ++ str "b"
  /\ (length (normalize (Some (str "a" ++ [CR; LF] ++ str "b")))
      < length (str "a" ++ [CR; LF] ++ str "b"))%nat.
Proof.
  split.
  - apply (proj1 (normalize_fixed_points (str "a" ++ [LF; CR] ++ str "b"))).
    reflexivity.
  - apply (proj1 (proj2 (normalize_fixed_points
                           (str "a" ++ [CR; LF] ++ str "b")))).
    reflexivity.
Defined.

(** What [replace_crlf] of a text begins with. *)
Lemma begins_with_lf_replace_crlf (s : jsstring) :
  begins_with_lf (replace_crlf s)
  = begins_with_lf s || startsWith s [CR; LF].
Proof.
  destruct (replace_crlf_cases s)
    as [-> | [(t & ->) | [-> | [(d & t & -> & Hd) | (c & t & -> & Hc)]]]].
  - reflexivity.
  - reflexivity.
  - reflexivity.
  - rewrite (replace_crlf_cr_other d t Hd). unfold startsWith.
    cbn [begins_with_lf strip_prefix]. rewrite char_eqb_refl.
    replace (char_eqb LF d) with false; [reflexivity|].
    symmetry. apply not_true_iff_false. intros E.
    apply char_eqb_eq in E. subst d. rewrite char_eqb_refl in Hd.
    discriminate Hd.
  - rewrite (replace_crlf_other c t Hc). unfold startsWith.
    cbn [begins_with_lf strip_prefix].
    replace (char_eqb CR c) with false; [rewrite orb_false_r; reflexivity|].
    symmetry. apply not_true_iff_false. intros E.
    apply char_eqb_eq in E. subst c. rewrite char_eqb_refl in Hc.
    discriminate Hc.
Qed.

Lemma replace_crlf_app (a b : jsstring) :
  begins_with_lf b = false ->
  replace_crlf (a ++ b) = replace_crlf a ++ replace_crlf b.
Proof.
  intros Hb.
  induction a as [|t IH| |d t Hd IH|c t Hc IH] using crlf_ind.
  - reflexivity.
  - cbn [app]. rewrite !replace_crlf_cr_lf, IH. reflexivity.
  - cbn [app]. destruct b as [|d b]; [reflexivity|].
    cbn [begins_with_lf] in Hb. rewrite (replace_crlf_cr_other d b Hb).
    reflexivity.
  - cbn [app] in *. rewrite !(replace_crlf_cr_other d _ Hd), IH. reflexivity.
  - cbn [app]. rewrite !(replace_crlf_other c _ Hc), IH. reflexivity.
Qed.

(** X2. [normalize] works piece by piece: the normal form of [a ++ b] is
    the normal form of [a] followed by that of [b] whenever [b] does not
    begin with LF, and a CR LF pair becomes one LF wherever it stands, also
    right after another CR. *)
Theorem normalize_pieces (a b : jsstring) :
  (begins_with_lf b = false ->
   normalize (Some (a ++ b)) = normalize (Some a) ++ normalize (Some b))
  /\ normalize (Some (a ++ CR :: LF :: b))
     = normalize (Some a) ++ LF :: normalize (Some b).
Proof.
  cbn [normalize]. split.
  - apply replace_crlf_app.
  - rewrite replace_crlf_app by reflexivity. reflexivity.
Qed.

Lemma normalize_pieces_witness :
  normalize (Some (str "x" ++ [CR] ++ str "y"))
  = normalize (Some (str "x" ++ [CR])) ++ normalize (Some (str "y")).
Proof.
  apply (proj1 (normalize_pieces (str "x" ++ [CR]) (str "y"))). reflexivity.
Defined.

Lemma replace_crlf_twice (s : jsstring) :
  occurs [CR; CR; LF] s = false ->
  replace_crlf (replace_crlf s) = replace_crlf s.
Proof.
  induction s as [|t IH| |d t Hd IH|c t Hc IH] using crlf_ind; intros H.
  - reflexivity.
  - rewrite occurs_cons in H. apply orb_false_iff in H as [_ H].
    rewrite occurs_cons in H. apply orb_false_iff in H as [_ H].
    rewrite replace_crlf_cr_lf, replace_crlf_other by reflexivity.
    rewrite (IH H). reflexivity.
  - reflexivity.
  - rewrite occurs_cons in H. apply orb_false_iff in H as [S H].
    rewrite (replace_crlf_cr_other d t Hd).
    assert (B : begins_with_lf (replace_crlf (d :: t)) = false).
    { rewrite begins_with_lf_replace_crlf. cbn [begins_with_lf]. rewrite Hd.
      cbn [orb]. unfold startsWith in *. cbn [strip_prefix] in *.
      rewrite char_eqb_refl in S. exact S. }
    destruct (replace_crlf (d :: t)) as [|e r] eqn:E.
    + reflexivity.
    + cbn [begins_with_lf] in B.
      rewrite (replace_crlf_cr_other e r B), (IH H). reflexivity.
  - rewrite occurs_cons in H. apply orb_false_iff in H as [_ H].
    rewrite (replace_crlf_other c t Hc), (replace_crlf_other c _ Hc), (IH H).
    reflexivity.
Qed.

(** X3. Normalizing twice is normalizing once for every text that has no
    CR CR LF; on CR CR LF the first pass leaves CR LF and the second pass
    makes it LF. *)
Theorem normalize_twice (s : jsstring) :
  (occurs [CR; CR; LF] s = false ->
   normalize (Some (normalize (Some s))) = normalize (Some s))
  /\ normalize (Some (normalize (Some (s ++ [CR; CR; LF])))) 
     <> normalize (Some (s ++ [CR; CR; LF])).
Proof.
  cbn [normalize]. split; [apply replace_crlf_twice|].
  change (s ++ [CR; CR; LF]) with (s ++ CR :: [CR; LF]).
  rewrite (replace_crlf_app s (CR :: [CR; LF])) by reflexivity.
  change (replace_crlf (CR :: [CR; LF])) with (CR :: LF :: []).
  rewrite (replace_crlf_app (replace_crlf s) [CR; LF]) by reflexivity.
  change (replace_crlf [CR; LF]) with [LF].
  intros E. apply (f_equal (@length _)) in E. rewrite !length_app in E.
  pose proof (length_replace_crlf (replace_crlf s)) as L.
  simpl in E. lia.
Qed.

Lemma normalize_twice_witness :
  normalize (Some (normalize (Some (str "a" ++ [CR; LF; CR]))))
  = normalize (Some (str "a" ++ [CR; LF; CR])).
Proof.
  apply (proj1 (normalize_twice (str "a" ++ [CR; LF; CR]))). reflexivity.
Defined.

(** ** The cap on the output *)

Lemma truncate_long (s : jsstring) :
  (MAX_OUT < N.of_nat (length s))%N ->
  truncate s = firstn (N.to_nat MAX_OUT) s ++ TRUNCATION_MARKER.
Proof.
  intros H. unfold truncate. destruct (is_empty s) eqn:E.
  - apply is_empty_length in E. rewrite E in H. discriminate H.
  - apply N.leb_gt in H. rewrite H. reflexivity.
Qed.

Lemma truncate_short (s : jsstring) :
  (N.of_nat (length s) <= MAX_OUT)%N -> truncate s = s.
Proof.
  intros H. unfold truncate. destruct (is_empty s) eqn:E.
  - destruct s; [reflexivity | discriminate E].
  - apply N.leb_le in H. rewrite H. reflexivity.
Qed.

Lemma length_firstn_cap (s : jsstring) :
  (MAX_OUT < N.of_nat (length s))%N ->
  length (firstn (N.to_nat MAX_OUT) s) = N.to_nat MAX_OUT.
Proof. intros H. rewrite length_firstn. lia. Qed.

Lemma length_truncate (s : jsstring) :
  (N.of_nat (length (truncate s)) <= MAX_OUT + 20)%N.
Proof.
  destruct (N.ltb_spec MAX_OUT (N.of_nat (length s))) as [H | H].
  - rewrite (truncate_long s H), length_app, (length_firstn_cap s H).
    change (length TRUNCATION_MARKER) with 20%nat. lia.
  - rewrite (truncate_short s H). lia.
Qed.

Lemma truncate_twice (s : jsstring) : truncate (truncate s) = truncate s.
Proof.
  destruct (N.ltb_spec MAX_OUT (N.of_nat (length s))) as [H | H].
  - rewrite (truncate_long s H).
    pose proof (length_firstn_cap s H) as L.
    rewrite truncate_long.
    + rewrite firstn_app, L, Nat.sub_diag, firstn_firstn, Nat.min_id.
      cbn [firstn]. rewrite app_nil_r. reflexivity.
    + rewrite length_app, L. change (length TRUNCATION_MARKER) with 20%nat.
      lia.
  - rewrite (truncate_short s H). apply (truncate_short s H).
Qed.

(** X4. Whatever goes in, what [truncate] returns has at most 30020 code
    units, begins like the input on the first 30000, and is left alone by a
    second [truncate]. *)
Theorem truncate_bound (s : jsstring) :
  (N.of_nat (length (truncate s)) <= 30020)%N
  /\ firstn (N.to_nat 30000) (truncate s) = firstn (N.to_nat 30000) s
  /\ truncate (truncate s) = truncate s.
Proof.
  split; [apply length_truncate|]. split; [|apply truncate_twice].
  destruct (N.ltb_spec MAX_OUT (N.of_nat (length s))) as [H | H].
  - rewrite (truncate_long s H).
    change (N.to_nat 30000) with (N.to_nat MAX_OUT).
    rewrite firstn_app, (length_firstn_cap s H), Nat.sub_diag, firstn_firstn,
      Nat.min_id.
    cbn [firstn]. apply app_nil_r.
  - rewrite (truncate_short s H). reflexivity.
Qed.

Lemma render_bound (input : jsstring) (t : Terminal) :
  (forall output,
      (t = CompileError output \/ t = SuccessWithOutput output) ->
      exists r, output = capped_output r) ->
  (N.of_nat (length (render input t)) <= 30020)%N.
Proof.
  intros H. destruct t as [| |output| |output]; cbn [render].
  - vm_compute. discriminate.
  - vm_compute. discriminate.
  - destruct (is_empty output); [vm_compute; discriminate|].
    destruct (H output (or_introl eq_refl)) as [r ->]. apply length_truncate.
  - destruct (is_empty (trim input)); vm_compute; discriminate.
  - destruct (H output (or_intror eq_refl)) as [r ->]. apply length_truncate.
Qed.

Lemma runJavaLocal_capped
      (env : Env) (workDir mainClass input : jsstring) (w w' : World)
      (out : jsstring) :
  runJavaLocal env workDir mainClass input w = (Val out, w') ->
  (N.of_nat (length out) <= 30020)%N.
Proof.
  intros H.
  destruct (reaches_complete env workDir mainClass input w out w' H)
    as (t & steps & Hr & -> & _).
  apply render_bound. intros output [E | E]; subst t; inversion Hr; subst;
    eexists; unfold capped_output; eapply capped_truncate; eassumption.
Qed.

(** What the [try] block has done when it returns. *)
Lemma try_block_returns
      (env : Env) (workDir : jsstring) (body : Body) (w w' : World) (u : unit) :
  try_block env workDir body w = (Val u, w') ->
  exists d out,
    log w' = log w ++ d ++ [ARespond 200 out]
    /\ responses d = []
    /\ (out = MSG_NO_MAIN
        \/ exists w1 w2,
            runJavaLocal env workDir
              (entry_point (mainClass body) (code body))
              (request_input body) w1 = (Val out, w2)).
Proof.
  unfold try_block, bind.
  destruct (only_materialize env workDir body w) as (d1 & E1 & Q1).
  assert (R1 : responses d1 = []).
  { apply responses_none, forallb_forall. intros a Ha.
    apply fs_is_not_response. revert a Ha. apply forallb_forall. exact Q1. }
  destruct (materialize env workDir body w) as [[[]|e| |] w1]; cbn [snd] in E1;
    try discriminate.
  destruct (is_empty _).
  - intros H. inversion H; subst. exists d1, MSG_NO_MAIN.
    cbn [log]. rewrite E1, <- app_assoc. auto.
  - destruct (only_runJavaLocal env workDir
                (entry_point (mainClass body) (code body))
                (request_input body) w1) as (d2 & E2 & Q2).
    apply responses_none in Q2.
    destruct (runJavaLocal env workDir _ _ w1) as [[out|e| |] w2] eqn:Hrun;
      cbn [snd] in E2; try discriminate.
    intros H. inversion H; subst. exists (d1 ++ d2), out. cbn [log].
    rewrite E2, E1, <- !app_assoc, responses_app, R1, Q2.
    split; [reflexivity|]. split; [reflexivity|]. right. eauto.
Qed.

(** X5. No successful answer is longer than the cap allows: every string
    [runJavaLocal] returns, and the output of every response with status
    200, has at most 30020 code units. *)
Theorem output_bound (env : Env) :
  (forall workDir mainClass input w out w',
      runJavaLocal env workDir mainClass input w = (Val out, w') ->
      (N.of_nat (length out) <= 30020)%N)
  /\ (forall id body w,
         exists sent,
           responses (log (snd (post_run env id body w)))
           = responses (log w) ++ sent
           /\ forall out, In (200%N, out) sent ->
                          (N.of_nat (length out) <= 30020)%N).
Proof.
  split; [intros; eapply runJavaLocal_capped; eassumption|].
  intros id body w. rewrite post_run_by_try.
  destruct (try_block_log env (request_workDir env id) body w) as (d & R & L).
  destruct (try_block env (request_workDir env id) body w)
    as [[u|e| |] w1] eqn:Htry; cbn [fst snd] in L.
  - destruct (try_block_returns env _ body w w1 u Htry)
      as (d' & out & L' & R' & Hout).
    exists [(200%N, out)]. cbn [snd cleaned log]. split.
    + rewrite L', !responses_app, R'. cbn. rewrite app_nil_r. reflexivity.
    + intros out' [E | []]. inversion E; subst out'.
      destruct Hout as [-> | (w2 & w3 & Hrun)].
      * vm_compute. discriminate.
      * eapply runJavaLocal_capped; exact Hrun.
  - exists [(500%N, MSG_SERVER_ERROR ++ error_text e)].
    cbn [snd cleaned log]. split.
    + rewrite L, !responses_app, R. cbn. rewrite !app_nil_r. reflexivity.
    + intros out [E | []]. discriminate E.
  - exists []. cbn [snd]. split; [|intros out []].
    rewrite L, responses_app, R. reflexivity.
  - exists []. cbn [snd]. split; [|intros out []].
    rewrite L, responses_app, R. reflexivity.
Qed.

Lemma output_bound_witness :
  fst (runJavaLocal ok_env sample_workDir (str "Main") [] with_main)
  = Val (str "hi")
  /\ (N.of_nat (length (str "hi")) <= 30020)%N.
Proof.
  split; [reflexivity|].
  apply (proj1 (output_bound ok_env) sample_workDir (str "Main") [] with_main
           (str "hi")
           (snd (runJavaLocal ok_env sample_workDir (str "Main") [] with_main))).
  reflexivity.
Defined.

(** ** What the entry-point detection returns *)

Lemma identifier_of_decl (s n : jsstring) : class_decl s n -> identifier n.
Proof. intros (ws & rest & _ & _ & H & _). exact H. Qed.

Lemma exec_group (r : re) (text : jsstring) (res : MatchResult) (n : jsstring) :
  exec r text = Some res -> group1 res = Some n ->
  exec r text = Some {| group1 := Some n |}.
Proof. intros H G. destruct res as [g]. cbn in G. subst g. exact H. Qed.

(** A match of either pattern has captured a name. *)
Lemma exec_public_captures (text : jsstring) (res : MatchResult) :
  exec RE_PUBLIC_CLASS text = Some res -> exists n, group1 res = Some n.
Proof.
  intros H. destruct (exec_some_inv _ _ _ H) as (pre & suf & _ & Hm & _).
  rewrite match_here_public_class in Hm.
  destruct (parse_public_class suf) as [n|]; [|discriminate Hm].
  inversion Hm. exists n. reflexivity.
Qed.

Lemma exec_class_captures (text : jsstring) (res : MatchResult) :
  exec RE_CLASS text = Some res -> exists n, group1 res = Some n.
Proof.
  intros H. destruct (exec_some_inv _ _ _ H) as (pre & suf & _ & Hm & _).
  rewrite match_here_class in Hm.
  destruct (parse_class suf) as [n|]; [|discriminate Hm].
  inversion Hm. exists n. reflexivity.
Qed.

Lemma detectMainClass_some_inv (src n : jsstring) :
  detectMainClass src = Some n ->
  first_declared public_class_decl src n
  \/ (none_declared public_class_decl src /\ first_declared class_decl src n).
Proof.
  unfold detectMainClass.
  destruct (exec RE_PUBLIC_CLASS src) as [res|] eqn:P.
  - intros G. left. apply first_declared_public_check.
    exact (exec_group _ _ _ _ P G).
  - destruct (exec RE_CLASS src) as [res|] eqn:C; [|discriminate].
    intros G. right. split.
    + apply none_declared_public_check. exact P.
    + apply first_declared_class_check. exact (exec_group _ _ _ _ C G).
Qed.

Lemma detectMainClass_none_inv (src : jsstring) :
  detectMainClass src = None -> none_declared class_decl src.
Proof.
  unfold detectMainClass.
  destruct (exec RE_PUBLIC_CLASS src) as [res|] eqn:P.
  - destruct (exec_public_captures src res P) as [n G]. rewrite G.
    discriminate.
  - destruct (exec RE_CLASS src) as [res|] eqn:C.
    + destruct (exec_class_captures src res C) as [n G]. rewrite G.
      discriminate.
    + intros _. apply none_declared_class_check. exact C.
Qed.

Lemma detectMainClass_identifier (src n : jsstring) :
  detectMainClass src = Some n -> identifier n.
Proof.
  intros H. destruct (detectMainClass_some_inv src n H)
    as [(pre & suf & _ & Hd & _) | (_ & pre & suf & _ & Hd & _)].
  - destruct Hd as (ws & s' & _ & _ & Hc). exact (identifier_of_decl s' n Hc).
  - exact (identifier_of_decl suf n Hd).
Qed.

(** X6. The detection never makes a name up, and it reads the text, not
    the program.  A name it returns is an identifier of letters of [A-Z] and
    [a-z], digits and [_], not beginning with a digit, and it stands in the
    text at the leftmost place that reads [public], white space, [class],
    white space and an identifier, or, in a text without such a place, at
    the leftmost place that reads [class], white space and an identifier.
    When it returns nothing, the text reads [class], white space and an
    identifier nowhere. *)
Theorem detectMainClass_only_declared (src : jsstring) :
  (forall n,
      detectMainClass src = Some n ->
      (first_declared public_class_decl src n
       \/ (none_declared public_class_decl src
           /\ first_declared class_decl src n))
      /\ identifier n)
  /\ (detectMainClass src = None -> none_declared class_decl src).
Proof.
  split.
  - intros n H. split.
    + apply detectMainClass_some_inv. exact H.
    + apply (detectMainClass_identifier src n H).
  - apply detectMainClass_none_inv.
Qed.

Lemma detectMainClass_only_declared_witness :
  identifier (str "Main") /\ none_declared class_decl src_no_class.
Proof.
  split.
  - apply (proj1 (detectMainClass_only_declared src_public_second) (str "Main")).
    reflexivity.
  - apply (proj2 (detectMainClass_only_declared src_no_class)). reflexivity.
Defined.

(** ** A request that carries its source in [code] *)

Lemma word_not_slash (c : char16) :
  is_word c = true -> char_eqb c SLASH = false.
Proof.
  unfold is_word, is_upper, is_lower, is_digit, is_underscore, char_eqb, SLASH.
  intros H. apply N.eqb_neq. intros E. code_units H. lia.
Qed.

Lemma ident_start_word (c : char16) : ident_start c = true -> is_word c = true.
Proof.
  unfold ident_start, is_word. intros H.
  apply orb_true_iff in H as [H | H]; [|rewrite H; apply orb_true_r].
  apply orb_true_iff in H as [H | H]; rewrite H; [reflexivity|].
  rewrite orb_true_r. reflexivity.
Qed.

Lemma identifier_words (n : jsstring) :
  identifier n -> n <> [] /\ forallb is_word n = true.
Proof.
  intros (c & rest & -> & Hc & Hr). split; [discriminate|].
  cbn [forallb]. rewrite (ident_start_word c Hc), Hr. reflexivity.
Qed.

Lemma words_slash_free (n : jsstring) :
  forallb is_word n = true -> slash_free n.
Proof.
  unfold slash_free. induction n as [|c n IH]; [reflexivity|].
  cbn [forallb]. intros H. apply andb_true_iff in H as [Hc Hn].
  rewrite (word_not_slash c Hc), (IH Hn). reflexivity.
Qed.

(** The file name made from an identifier is one proper segment. *)
Lemma java_file_segment (n : jsstring) :
  identifier n ->
  Path.split (n ++ str ".java") = [n ++ str ".java"]
  /\ proper (n ++ str ".java") = true.
Proof.
  intros H. destruct (identifier_words n H) as [_ Hw]. split.
  - apply split_of_slash_free. unfold slash_free.
    rewrite forallb_app. rewrite (words_slash_free n Hw). reflexivity.
  - apply proper_java.
Qed.

Lemma segs_of_java_file (workDir n : jsstring) :
  Path.is_absolute workDir = true -> identifier n ->
  segs_of (Path.join workDir (n ++ str ".java"))
  = segs_of workDir ++ [n ++ str ".java"].
Proof.
  intros Habs Hn. destruct (java_file_segment n Hn) as [Hsplit Hproper].
  rewrite segs_of_join_down; [|exact Habs|].
  - rewrite Hsplit. cbn [filter]. rewrite Hproper. reflexivity.
  - rewrite Hsplit. constructor; [|constructor].
    apply proper_not_dotdot, Hproper.
Qed.

Lemma writeFiles_single (env : Env) (workDir : jsstring) (body : Body)
      (w : World) (main : jsstring) :
  single_blob body ->
  detectMainClass (replace_crlf (or_empty (code body))) = Some main ->
  writeFiles env workDir body w
  = fs_writeFile env (Path.join workDir (main ++ str ".java"))
      (replace_crlf (or_empty (code body))) w.
Proof.
  intros Hsingle Hmain. unfold writeFiles. cbn [normalize]. rewrite Hmain.
  destruct (detectMainClass_identifier _ _ Hmain) as (c & rest & -> & _).
  destruct Hsingle as [-> | ->]; reflexivity.
Qed.

(** X7. A request without uploaded files whose code declares a class makes
    one call to the file system: [writeFile] of the normalized code to
    [<class>.java], and that path is an entry directly inside the work
    area, whatever the code is.  When the call succeeds the file holds the
    normalized code. *)
Theorem writeFiles_single_inside
        (env : Env) (workDir : jsstring) (body : Body) (w : World)
        (main : jsstring) :
  single_blob body ->
  Path.is_absolute workDir = true ->
  detectMainClass (replace_crlf (or_empty (code body))) = Some main ->
  let p := Path.join workDir (main ++ str ".java") in
  let src := replace_crlf (or_empty (code body)) in
  log (snd (writeFiles env workDir body w))
  = log w ++ [AFs (OpWriteFile p src)]
  /\ segs_of p = segs_of workDir ++ [main ++ str ".java"]
  /\ inside workDir p
  /\ (fst (writeFiles env workDir body w) = Val tt ->
      lookup (segs_of p) (fs (snd (writeFiles env workDir body w)))
      = Some (File src)).
Proof.
  intros Hsingle Habs Hmain. cbv zeta.
  rewrite (writeFiles_single env workDir body w main Hsingle Hmain).
  pose proof (segs_of_java_file workDir main Habs
                (detectMainClass_identifier _ _ Hmain)) as Hsegs.
  split; [|split; [exact Hsegs | split]].
  - unfold fs_writeFile, fs_call. destruct (fault env _ _); [reflexivity|].
    destruct (write_at _ _ _); reflexivity.
  - exists [main ++ str ".java"]. split; [discriminate | exact Hsegs].
  - unfold fs_writeFile, fs_call. destruct (fault env _ _); [discriminate|].
    destruct (write_at _ _ (fs w)) as [n'|e] eqn:W; [|discriminate].
    intros _. cbn [snd fs]. exact (write_at_lookup _ _ _ _ W).
Qed.

Lemma writeFiles_single_inside_witness :
  inside sample_workDir (Path.join sample_workDir (str "Main.java"))
  /\ lookup (segs_of (Path.join sample_workDir (str "Main.java")))
       (fs (snd (writeFiles ok_env sample_workDir
                   (mkBody (Some (str "public class Main {}")) None None None)
                   with_main)))
     = Some (File (str "public class Main {}")).
Proof.
  pose proof (writeFiles_single_inside ok_env sample_workDir
                (mkBody (Some (str "public class Main {}")) None None None)
                with_main (str "Main") (or_introl eq_refl) eq_refl eq_refl)
    as (_ & _ & Hin & Hfile).
  split; [exact Hin | exact (Hfile eq_refl)].
Defined.

Lemma truthy_or_empty (v : option jsstring) :
  truthy v = true -> is_empty (or_empty v) = false.
Proof.
  destruct v as [s|]; [|discriminate]. cbn. intros H.
  apply negb_true_iff in H. exact H.
Qed.

Lemma entry_point_of_truthy (mc cd : option jsstring) :
  truthy (detectMainClass (normalize (Some (or_empty cd)))) = true ->
  is_empty (entry_point mc cd) = false.
Proof.
  intros H. unfold entry_point.
  destruct (is_empty (trim (or_empty mc))) eqn:E; [|exact E].
  rewrite H. apply truthy_or_empty, H.
Qed.

Lemma fs_call_not_pending (env : Env) (op : FsOp) (change : node -> fsres)
      (w : World) :
  fst (fs_call env op change w) <> Pending.
Proof.
  destruct (fs_call_cases env op change w) as [(n & E) | (e & E)];
    rewrite E; discriminate.
Qed.

(** X8. A request without uploaded files is never answered "mainClass not
    found": once its source is written, the entry point is not empty and
    the [try] block goes on to [runJavaLocal] and answers with what that
    returns. *)
Theorem single_blob_reaches_pipeline
        (env : Env) (workDir : jsstring) (body : Body) (w w1 : World) :
  single_blob body ->
  materialize env workDir body w = (Val tt, w1) ->
  is_empty (entry_point (mainClass body) (code body)) = false
  /\ try_block env workDir body w
     = (output <- runJavaLocal env workDir
                    (entry_point (mainClass body) (code body))
                    (request_input body) ;;
        respond 200 output) w1.
Proof.
  intros Hsingle Hmat.
  assert (Hmain : is_empty (entry_point (mainClass body) (code body)) = false).
  { apply entry_point_of_truthy.
    unfold materialize, bind in Hmat.
    destruct (fs_mkdir env workDir w) as [[[]|e| |] w0]; try discriminate Hmat.
    unfold writeFiles in Hmat.
    destruct (truthy (detectMainClass
                        (normalize (Some (or_empty (code body)))))) eqn:T;
      [reflexivity|].
    cbn [negb] in Hmat. destruct Hsingle as [Hs | Hs]; rewrite Hs in Hmat;
      discriminate Hmat. }
  split; [exact Hmain|].
  unfold try_block, bind at 1. rewrite Hmat, Hmain. reflexivity.
Qed.

Lemma single_blob_reaches_pipeline_witness :
  is_empty (entry_point None (Some (str "public class Main {}"))) = false.
Proof.
  exact (proj1 (single_blob_reaches_pipeline ok_env sample_workDir
                  (mkBody (Some (str "public class Main {}")) None None None)
                  empty_tmp
                  (snd (materialize ok_env sample_workDir
                          (mkBody (Some (str "public class Main {}")) None
                                  None None)
                          empty_tmp))
                  (or_introl eq_refl) eq_refl)).
Defined.

(** ** The entry point *)

(** X9. An explicit [mainClass] that is not blank is the entry point,
    trimmed, whatever the code declares; a blank or missing one leaves the
    choice to the detection on the normalized code.  The entry point is
    empty exactly when [mainClass] is blank and the code declares no
    class. *)
Theorem entry_point_resolution (mc cd : option jsstring) :
  (forallb is_space (or_empty mc) = false ->
   entry_point mc cd = trim (or_empty mc)
   /\ is_empty (entry_point mc cd) = false)
  /\ (forallb is_space (or_empty mc) = true ->
      entry_point mc cd
      = or_empty (detectMainClass (replace_crlf (or_empty cd))))
  /\ (is_empty (entry_point mc cd) = true
      <-> forallb is_space (or_empty mc) = true
          /\ none_declared class_decl (replace_crlf (or_empty cd))).
Proof.
  assert (Hblank : forallb is_space (or_empty mc) = true ->
                   entry_point mc cd
                   = or_empty (detectMainClass (replace_crlf (or_empty cd)))).
  { intros H. unfold entry_point. cbn [normalize].
    rewrite trim_empty_all_space, H.
    destruct (detectMainClass (replace_crlf (or_empty cd))) as [n|] eqn:D.
    - cbn [truthy or_empty]. destruct (is_empty n) eqn:E; [|reflexivity].
      cbn [negb]. destruct n; [|discriminate E].
      rewrite <- trim_empty_all_space in H.
      destruct (trim (or_empty mc)); [reflexivity | discriminate H].
    - cbn [truthy or_empty]. rewrite <- trim_empty_all_space in H.
      destruct (trim (or_empty mc)); [reflexivity | discriminate H]. }
  assert (Hgiven : forallb is_space (or_empty mc) = false ->
                   entry_point mc cd = trim (or_empty mc)
                   /\ is_empty (entry_point mc cd) = false).
  { intros H. unfold entry_point. rewrite trim_empty_all_space, H.
    split; [reflexivity|]. rewrite trim_empty_all_space. exact H. }
  split; [exact Hgiven|]. split; [exact Hblank|]. split.
  - intros E. destruct (forallb is_space (or_empty mc)) eqn:B.
    + split; [reflexivity|]. rewrite (Hblank eq_refl) in E.
      apply detectMainClass_none_inv.
      destruct (detectMainClass (replace_crlf (or_empty cd))) as [n|] eqn:D;
        [|reflexivity].
      destruct (identifier_words n (detectMainClass_identifier _ _ D))
        as [Hne _].
      cbn [or_empty] in E. destruct n; [contradiction | discriminate E].
    + destruct (Hgiven eq_refl) as [_ Hne]. rewrite Hne in E. discriminate E.
  - intros [B Hnone]. rewrite (Hblank B), (detectMainClass_none _ Hnone).
    reflexivity.
Qed.

Lemma entry_point_resolution_witness :
  entry_point (Some (str "  App ")) (Some (str "class Other {}")) = str "App"
  /\ entry_point (Some (str "  ")) (Some (str "class Other {}")) = str "Other".
Proof.
  split.
  - apply (proj1 (entry_point_resolution (Some (str "  App "))
                    (Some (str "class Other {}")))). reflexivity.
  - apply (proj1 (proj2 (entry_point_resolution (Some (str "  "))
                           (Some (str "class Other {}"))))). reflexivity.
Defined.

(** ** The walk over the work area *)

Lemma fs_readdir_cases (env : Env) (p : jsstring) (w : World) :
  fs_readdir env p w = (Val tt, mkWorld (fs w) (log w ++ [AFs (OpReaddir p)]))
  \/ exists e, fs_readdir env p w
               = (Throw e, mkWorld (fs w) (log w ++ [AFs (OpReaddir p)])).
Proof.
  unfold fs_readdir, fs_call. destruct (fault env _ _) as [e|].
  - right. eexists. reflexivity.
  - left. reflexivity.
Qed.

Lemma flat_map_of_map {A B C} (f : B -> list C) (g : A -> B) (l : list A) :
  flat_map f (map g l) = flat_map (fun x => f (g x)) l.
Proof.
  induction l as [|x l IH]; [reflexivity|]. cbn [map flat_map].
  rewrite IH. reflexivity.
Qed.

(** The listing of a directory, entry by entry in the order in which the
    directory is listed. *)
Lemma java_paths_dir (before : jsstring -> jsstring -> bool) (dir : jsstring)
      (entries : list (jsstring * node)) :
  java_paths before dir (Dir entries)
  = flat_map (entry_paths before dir) (listed before entries).
Proof.
  assert (E : map (fun entry : jsstring * node =>
                     match entry with
                     | (it_name, it) =>
                         (it_name, entry_paths before dir (it_name, it))
                     end) entries
              = map (fun kv => (fst kv, entry_paths before dir (fst kv, snd kv)))
                  entries).
  { apply map_ext. intros [it_name it]. reflexivity. }
  pose proof (listed_map before (fun k v => entry_paths before dir (k, v))
                entries) as L.
  cbv beta in L.
  transitivity
    (flat_map snd
       (listed before
          (map (fun entry : jsstring * node =>
                  match entry with
                  | (it_name, it) =>
                      (it_name, entry_paths before dir (it_name, it))
                  end) entries))).
  - reflexivity.
  - rewrite E, L, flat_map_of_map. apply flat_map_ext.
    intros [it_name it]. reflexivity.
Qed.

(** When the visits return, they have appended what each entry
    contributes. *)
Lemma visit_all_lists (env : Env) (dir : jsstring)
      (l : list (jsstring * node)) :
  Forall (fun kv =>
            forall dir acc w found w',
              walk env dir (snd kv) acc w = (Val found, w') ->
              found = acc ++ java_paths (lists_before env) dir (snd kv)) l ->
  forall acc w found w',
    visit_all (map (fun kv => (fst kv, visit_of env dir (fst kv) (snd kv))) l)
      acc w
    = (Val found, w') ->
    found = acc ++ flat_map (entry_paths (lists_before env) dir) l.
Proof.
  induction l as [|[it_name it] rest IH]; intros Hall acc w found w' H.
  - inversion H. rewrite app_nil_r. reflexivity.
  - inversion Hall as [|? ? Hit Hrest]; subst. cbn [snd] in Hit.
    cbn [map visit_all fst snd] in H. unfold bind in H.
    destruct (visit_of env dir it_name it acc w) as [[acc'|e| |] w1] eqn:V;
      try discriminate H.
    apply (IH Hrest) in H. rewrite H. cbn [flat_map].
    rewrite app_assoc. f_equal.
    unfold visit_of in V. unfold entry_paths. cbn [fst snd].
    destruct it as [d|es].
    + inversion V.
      destruct (endsWith (Path.join dir it_name) (str ".java"));
        [reflexivity | rewrite app_nil_r; reflexivity].
    + exact (Hit _ _ _ _ _ V).
Qed.

(** When the walk returns, it has appended the listing. *)
Lemma walk_lists (env : Env) :
  forall n dir acc w found w',
    walk env dir n acc w = (Val found, w') ->
    found = acc ++ java_paths (lists_before env) dir n.
Proof.
  induction n as [d|entries IH] using node_ind_nested;
    intros dir acc w found w' H; [discriminate H|].
  rewrite walk_dir in H. unfold bind in H.
  destruct (fs_readdir_cases env dir w) as [E | (e & E)]; rewrite E in H;
    [|discriminate H].
  rewrite java_paths_dir.
  apply (visit_all_lists env dir _ (Forall_listed _ _ _ IH) _ _ _ _ H).
Qed.

Lemma visit_all_returns (env : Env) (dir : jsstring)
      (l : list (jsstring * node)) :
  Forall (fun kv =>
            forall dir acc w,
              (exists items, snd kv = Dir items) ->
              exists w',
                walk env dir (snd kv) acc w
                = (Val (acc ++ java_paths (lists_before env) dir (snd kv)), w'))
         l ->
  forall acc w,
    exists w',
      visit_all (map (fun kv => (fst kv, visit_of env dir (fst kv) (snd kv))) l)
        acc w
      = (Val (acc ++ flat_map (entry_paths (lists_before env) dir) l), w').
Proof.
  induction l as [|[it_name it] rest IH]; intros Hall acc w.
  - exists w. rewrite app_nil_r. reflexivity.
  - inversion Hall as [|? ? Hit Hrest]; subst. cbn [snd] in Hit.
    cbn [map visit_all fst snd flat_map].
    assert (V : exists w1,
               visit_of env dir it_name it acc w
               = (Val (acc ++ entry_paths (lists_before env) dir (it_name, it)),
                  w1)).
    { unfold visit_of, entry_paths. cbn [fst snd]. destruct it as [d|es].
      - exists w.
        destruct (endsWith (Path.join dir it_name) (str ".java"));
          [reflexivity | rewrite app_nil_r; reflexivity].
      - apply Hit. eexists. reflexivity. }
    destruct V as [w1 V].
    destruct (IH Hrest
                (acc ++ entry_paths (lists_before env) dir (it_name, it)) w1)
      as [w' E].
    exists w'. rewrite <- app_assoc in E.
    exact (eq_trans (bind_val _ _ w _ w1 V) E).
Qed.

(** Where no [fs] call fails, the walk of a directory returns. *)
Lemma walk_returns (env : Env) :
  fault_free env ->
  forall n dir acc w,
    (exists items, n = Dir items) ->
    exists w',
      walk env dir n acc w
      = (Val (acc ++ java_paths (lists_before env) dir n), w').
Proof.
  intros Hfree.
  induction n as [d|entries IH] using node_ind_nested;
    intros dir acc w [items' E]; [discriminate E|]. clear E items'.
  rewrite walk_dir, java_paths_dir.
  assert (R : fs_readdir env dir w
              = (Val tt, mkWorld (fs w) (log w ++ [AFs (OpReaddir dir)]))).
  { unfold fs_readdir, fs_call. rewrite Hfree. reflexivity. }
  rewrite (bind_val _ _ w tt _ R).
  apply visit_all_returns. apply Forall_listed. exact IH.
Qed.

(** What is listed is a regular file of the tree whose path ends in
    [.java], and every such file is listed. *)
Lemma java_paths_sound (before : jsstring -> jsstring -> bool) :
  forall n dir p, In p (java_paths before dir n) -> java_file_below dir n p.
Proof.
  induction n as [d|entries IH] using node_ind_nested; intros dir p H;
    [contradiction|].
  rewrite java_paths_dir in H. apply in_flat_map in H as ([it_name it] & Hin & Hp).
  apply in_listed in Hin. unfold entry_paths in Hp. cbn [fst snd] in Hp.
  destruct it as [d|sub].
  - destruct (endsWith (Path.join dir it_name) (str ".java")) eqn:E;
      [|contradiction].
    destruct Hp as [<- | []]. eapply java_file_here; eassumption.
  - eapply java_file_deeper; [exact Hin|].
    pose proof (proj1 (Forall_forall _ _) IH _ Hin) as Hit. cbn [snd] in Hit.
    apply Hit. exact Hp.
Qed.

Lemma java_paths_complete (before : jsstring -> jsstring -> bool) :
  forall dir n p, java_file_below dir n p -> In p (java_paths before dir n).
Proof.
  intros dir n p H.
  induction H as [dir entries it_name data Hin Hend
                 | dir entries it_name sub p Hin Hsub IH];
    rewrite java_paths_dir; apply in_flat_map.
  - exists (it_name, File data). split; [apply in_listed; exact Hin|].
    unfold entry_paths. cbn [fst snd]. rewrite Hend. left. reflexivity.
  - exists (it_name, Dir sub). split; [apply in_listed; exact Hin|].
    unfold entry_paths. cbn [fst snd]. exact IH.
Qed.

(** X10. The walk appends to what was found before the paths of the
    regular files below the directory whose path ends in [.java], all of
    them and nothing else, going through each directory in the order in
    which the machine lists it (which is not the order in which the entries
    were made) and through a subdirectory as soon as it meets it; it changes
    nothing on the file system; and where [readdir] does not fail it returns
    for every directory. *)
Theorem walk_listing (env : Env) (dir : jsstring) (n : node)
        (acc : list jsstring) (w : World) :
  (forall found w',
      walk env dir n acc w = (Val found, w') ->
      found = acc ++ java_paths (lists_before env) dir n /\ fs w' = fs w)
  /\ (forall p,
         In p (java_paths (lists_before env) dir n) <-> java_file_below dir n p)
  /\ (forall entries,
         n = Dir entries ->
         java_paths (lists_before env) dir n
         = flat_map (entry_paths (lists_before env) dir)
             (listed (lists_before env) entries))
  /\ (fault_free env -> (exists items, n = Dir items) ->
      fst (walk env dir n acc w)
      = Val (acc ++ java_paths (lists_before env) dir n)).
Proof.
  split; [|split; [|split]].
  - intros found w' H. split; [exact (walk_lists env n dir acc w found w' H)|].
    destruct (reads_only_walk env n dir acc w) as [ops E]. rewrite H in E.
    cbn [snd] in E. subst w'. reflexivity.
  - intros p. split; [apply java_paths_sound | apply java_paths_complete].
  - intros entries ->. apply java_paths_dir.
  - intros Hfree Hdir.
    destruct (walk_returns env Hfree n dir acc w Hdir) as [w' E].
    rewrite E. reflexivity.
Qed.

Lemma walk_listing_witness :
  fst (walk ok_env sample_workDir
         (Dir [(str "pkg", Dir [(str "b.txt", File []); (str "A.java", File [])]);
               (str "Main.java", File [])])
         [] empty_tmp)
  = Val [str "/tmp/java-run-1/Main.java"; str "/tmp/java-run-1/pkg/A.java"].
Proof.
  refine (proj2 (proj2 (proj2 (walk_listing ok_env sample_workDir
            (Dir [(str "pkg", Dir [(str "b.txt", File []); (str "A.java", File [])]);
                  (str "Main.java", File [])])
            [] empty_tmp))) _ _).
  - intros op n. reflexivity.
  - eexists. reflexivity.
Defined.

(** ** From the written source to the walk *)

Lemma join_segs_snoc (l : list jsstring) (x : jsstring) :
  exists z, Path.join_segs (l ++ [x]) = z ++ x.
Proof.
  induction l as [|y l IH].
  - exists []. reflexivity.
  - destruct IH as [z IH]. destruct l as [|y' l].
    + exists (y ++ [SLASH]). cbn. rewrite <- app_assoc. reflexivity.
    + exists (y ++ SLASH :: z).
      change (Path.join_segs ((y :: y' :: l) ++ [x]))
        with (y ++ SLASH :: Path.join_segs ((y' :: l) ++ [x])).
      rewrite IH, <- app_assoc. reflexivity.
Qed.

Lemma has_trailing_slash_java (x : jsstring) :
  Path.has_trailing_slash (x ++ str ".java") = false.
Proof. unfold Path.has_trailing_slash. rewrite rev_app_distr. reflexivity. Qed.

Lemma is_empty_app_java (x : jsstring) : is_empty (x ++ str ".java") = false.
Proof. destruct x; reflexivity. Qed.

(** A name that ends in [.java], joined to an absolute directory, gives a
    path that ends in [.java]. *)
Lemma join_ends_in_java (a nm : jsstring) :
  Path.is_absolute a = true ->
  endsWith nm (str ".java") = true ->
  endsWith (Path.join a nm) (str ".java") = true.
Proof.
  intros Habs H. apply endsWith_app in H as [pre ->].
  destruct (is_absolute_cons a Habs) as [t ->].
  apply endsWith_app. unfold Path.join. cbn [is_empty].
  rewrite is_empty_app_java. unfold Path.normalize_path. cbn [app is_empty].
  change (Path.is_absolute (SLASH :: t ++ SLASH :: pre ++ str ".java")) with true.
  replace (Path.has_trailing_slash (SLASH :: t ++ SLASH :: pre ++ str ".java"))
    with false
    by (symmetry;
        apply (has_trailing_slash_java (SLASH :: t ++ SLASH :: pre))
        || (change (SLASH :: t ++ SLASH :: pre ++ str ".java")
              with ((SLASH :: t) ++ SLASH :: pre ++ str ".java");
            replace ((SLASH :: t) ++ SLASH :: pre ++ str ".java")
              with (((SLASH :: t) ++ SLASH :: pre) ++ str ".java")
              by (rewrite <- app_assoc; reflexivity);
            apply has_trailing_slash_java)).
  cbn [negb].
  change (SLASH :: t ++ SLASH :: pre ++ str ".java")
    with ((SLASH :: t) ++ SLASH :: (pre ++ str ".java")).
  rewrite split_app_slash, (split_app_slash_free pre (str ".java"))
    by reflexivity.
  rewrite app_assoc, norm_segs_app. cbn [fold_left].
  rewrite norm_step_no_dotdot
    by (apply proper_not_dotdot, proper_java).
  rewrite proper_java. cbn [rev]. rewrite rev_involutive.
  destruct (join_segs_snoc
              (Path.norm_segs false
                 (Path.split (SLASH :: t) ++ removelast (Path.split pre)))
              (last (Path.split pre) [] ++ str ".java")) as [z Ez].
  rewrite Ez.
  assert (Hne : is_empty (z ++ last (Path.split pre) [] ++ str ".java") = false).
  { rewrite app_assoc. apply is_empty_app_java. }
  rewrite Hne. cbn [app]. rewrite app_nil_r.
  exists (SLASH :: z ++ last (Path.split pre) []).
  cbn [app]. rewrite <- app_assoc. reflexivity.
Qed.

Lemma lookup_snoc (pre : list jsstring) (name : jsstring) :
  forall n v,
    lookup (pre ++ [name]) n = Some v ->
    exists items,
      lookup pre n = Some (Dir items) /\ find_entry name items = Some v.
Proof.
  induction pre as [|s pre IH]; intros n v H.
  - cbn [app lookup] in *. destruct n as [d|items]; [discriminate H|].
    exists items. split; [reflexivity|].
    destruct (find_entry name items) as [child|]; [|discriminate H].
    exact H.
  - cbn [app lookup] in *. destruct n as [d|es]; [discriminate H|].
    destruct (find_entry s es) as [child|]; [|discriminate H].
    exact (IH child v H).
Qed.

Lemma find_entry_in (name : jsstring) (items : list (jsstring * node)) (v : node) :
  find_entry name items = Some v -> In (name, v) items.
Proof.
  induction items as [|[k x] items IH]; [discriminate|]. cbn [find_entry].
  destruct (str_eqb k name) eqn:E.
  - intros H. inversion H; subst. apply str_eqb_eq in E. subst k.
    left. reflexivity.
  - intros H. right. exact (IH H).
Qed.

(** X11. What a request without uploaded files has written, the walk
    finds: after [writeFiles] has succeeded on an absolute work area, every
    walk of the work area that returns lists [<class>.java], so its list of
    sources is not empty. *)
Theorem written_source_is_found
        (env : Env) (workDir : jsstring) (body : Body) (w w1 w2 : World)
        (main : jsstring) (javaFiles : list jsstring) :
  single_blob body ->
  Path.is_absolute workDir = true ->
  detectMainClass (replace_crlf (or_empty (code body))) = Some main ->
  writeFiles env workDir body w = (Val tt, w1) ->
  walk_workDir env workDir w1 = (Val javaFiles, w2) ->
  In (Path.join workDir (main ++ str ".java")) javaFiles
  /\ javaFiles <> [].
Proof.
  intros Hsingle Habs Hmain Hwrite Hwalk.
  assert (Hin : In (Path.join workDir (main ++ str ".java")) javaFiles).
  { pose proof (detectMainClass_identifier _ _ Hmain) as Hid.
    rewrite (writeFiles_single env workDir body w main Hsingle Hmain) in Hwrite.
    unfold fs_writeFile, fs_call in Hwrite.
    destruct (fault env _ _); [discriminate Hwrite|].
    destruct (write_at _ _ (fs w)) as [n'|e] eqn:W; [|discriminate Hwrite].
    inversion Hwrite; subst w1. clear Hwrite.
    apply write_at_lookup in W.
    rewrite (segs_of_java_file workDir main Habs Hid) in W.
    apply lookup_snoc in W as (items & Hdir & Hfind).
    unfold walk_workDir in Hwalk. cbn [fs] in Hwalk. rewrite Hdir in Hwalk.
    apply walk_lists in Hwalk. subst javaFiles. cbn [app].
    apply java_paths_complete.
    apply (java_file_here workDir items (main ++ str ".java")
             (replace_crlf (or_empty (code body)))).
    - apply find_entry_in. exact Hfind.
    - apply join_ends_in_java; [exact Habs|].
      apply endsWith_app. exists main. reflexivity. }
  split; [exact Hin|]. intros E. rewrite E in Hin. exact Hin.
Qed.

Lemma written_source_is_found_witness :
  In (Path.join sample_workDir (str "Main.java"))
    [str "/tmp/java-run-1/Main.java"].
Proof.
  refine (proj1 (written_source_is_found ok_env sample_workDir
                   (mkBody (Some (str "public class Main {}")) None None None)
                   with_main _ _ (str "Main") [str "/tmp/java-run-1/Main.java"]
                   (or_introl eq_refl) eq_refl eq_refl eq_refl eq_refl)).
Defined.

(** ** What the request's own file-system calls leave alone *)

(** Removing one path leaves every path that leaves it on the way as it
    was. *)
Lemma rm_at_frame (p q : list jsstring) :
  diverge p q -> forall n, lookup q (rm_at p n) = lookup q n.
Proof.
  intros (common & a & b & p' & q' & -> & -> & Hab).
  induction common as [|c common IH]; intros n.
  - destruct n as [d|es]; [reflexivity|]. cbn [app].
    destruct p' as [|s p'].
    + cbn [rm_at lookup]. rewrite (find_remove_entry_other a b es Hab).
      reflexivity.
    + rewrite rm_at_below by discriminate. cbn [lookup].
      rewrite (find_map_entry_other a b _ es Hab). reflexivity.
  - destruct n as [d|es]; [reflexivity|]. cbn [app].
    rewrite rm_at_below by apply app_cons_nonempty. cbn [lookup].
    rewrite find_map_entry.
    destruct (find_entry c es) as [child|]; [|reflexivity].
    cbn [option_map]. apply IH.
Qed.

(** Creating directories along one path leaves every path that leaves it
    on the way as it was. *)
Lemma mkdirp_frame (p q : list jsstring) :
  diverge p q ->
  forall n n', mkdirp p n = FsOk n' -> lookup q n' = lookup q n.
Proof.
  intros (common & a & b & p' & q' & -> & -> & Hab).
  induction common as [|c common IH]; intros n n' H.
  - destruct n as [d|es]; [discriminate H|]. cbn [app mkdirp] in H.
    destruct (find_entry a es) as [child|].
    + destruct (mkdirp p' child) as [child'|e]; [|discriminate H].
      inversion H; subst n'. cbn [app lookup].
      rewrite (find_set_entry_other a b child' es Hab). reflexivity.
    + inversion H; subst n'. cbn [app lookup].
      rewrite (find_app_other a b _ es Hab). reflexivity.
  - destruct n as [d|es]; [discriminate H|]. cbn [app mkdirp] in H.
    destruct (find_entry c es) as [child|] eqn:F.
    + destruct (mkdirp (common ++ a :: p') child) as [child'|e] eqn:E;
        [|discriminate H].
      inversion H; subst n'. cbn [app lookup].
      rewrite find_set_entry, F. exact (IH child child' E).
    + inversion H; subst n'. cbn [app lookup].
      rewrite (find_app_new c _ es F), F.
      apply lookup_mkchain_diverge. exact Hab.
Qed.

(** Writing one file leaves every path that leaves it on the way as it
    was. *)
Lemma write_at_frame (p q : list jsstring) (data : jsstring) :
  diverge p q ->
  forall n n', write_at p data n = FsOk n' -> lookup q n' = lookup q n.
Proof.
  intros (common & a & b & p' & q' & -> & -> & Hab).
  induction common as [|c common IH]; intros n n' H.
  - destruct n as [d|es]; [discriminate H|]. cbn [app] in *.
    destruct p' as [|s p'].
    + cbn [write_at] in H.
      assert (E : n' = Dir (set_entry a (File data) es)).
      { destruct (find_entry a es) as [[d|items]|];
          [inversion H; reflexivity | discriminate H | inversion H; reflexivity]. }
      subst n'. cbn [lookup].
      rewrite (find_set_entry_other a b _ es Hab). reflexivity.
    + rewrite write_at_below in H by discriminate.
      destruct (find_entry a es) as [child|]; [|discriminate H].
      destruct (write_at (s :: p') data child) as [child'|e]; [|discriminate H].
      inversion H; subst n'. cbn [lookup].
      rewrite (find_set_entry_other a b child' es Hab). reflexivity.
  - destruct n as [d|es]; [discriminate H|]. cbn [app] in *.
    rewrite write_at_below in H by apply app_cons_nonempty.
    destruct (find_entry c es) as [child|] eqn:F; [|discriminate H].
    destruct (write_at (common ++ a :: p') data child) as [child'|e] eqn:E;
      [|discriminate H].
    inversion H; subst n'. cbn [lookup].
    rewrite find_set_entry, F. exact (IH child child' E).
Qed.

Lemma diverge_app (p q rest : list jsstring) :
  diverge p q -> diverge (p ++ rest) q.
Proof.
  intros (common & a & b & p' & q' & -> & -> & Hab).
  exists common, a, b, (p' ++ rest), q'. split; [|split].
  - rewrite <- app_assoc. reflexivity.
  - reflexivity.
  - exact Hab.
Qed.

Lemma diverge_below (p q rest : list jsstring) :
  diverge p q -> diverge p (q ++ rest).
Proof.
  intros (common & a & b & p' & q' & -> & -> & Hab).
  exists common, a, b, p', (q' ++ rest). split; [|split].
  - reflexivity.
  - rewrite <- app_assoc. reflexivity.
  - exact Hab.
Qed.

Lemma diverge_siblings (dir : list jsstring) (a b : jsstring) :
  a <> b -> diverge (dir ++ [a]) (dir ++ [b]).
Proof. intros H. exists dir, a, b, [], []. repeat split. exact H. Qed.

(** A call of [fs.mkdir], [fs.writeFile] or [fs.rm] on a path changes
    nothing at the paths that leave it on the way, whether it succeeds or
    throws. *)
Lemma fs_mkdir_frame (env : Env) (p : jsstring) (q : list jsstring) (w : World) :
  diverge (segs_of p) q ->
  lookup q (fs (snd (fs_mkdir env p w))) = lookup q (fs w).
Proof.
  intros H. unfold fs_mkdir, fs_call.
  destruct (fault env _ _); [reflexivity|].
  destruct (mkdirp (segs_of p) (fs w)) as [n'|e] eqn:E; [|reflexivity].
  exact (mkdirp_frame _ _ H _ _ E).
Qed.

Lemma fs_writeFile_frame (env : Env) (p data : jsstring) (q : list jsstring)
      (w : World) :
  diverge (segs_of p) q ->
  lookup q (fs (snd (fs_writeFile env p data w))) = lookup q (fs w).
Proof.
  intros H. unfold fs_writeFile, fs_call.
  destruct (fault env _ _); [reflexivity|].
  destruct (write_at (segs_of p) data (fs w)) as [n'|e] eqn:E; [|reflexivity].
  exact (write_at_frame _ _ data H _ _ E).
Qed.

Lemma cleaned_frame (env : Env) (p : jsstring) (q : list jsstring) (w : World) :
  diverge (segs_of p) q ->
  lookup q (fs (cleaned env p w)) = lookup q (fs w).
Proof.
  intros H. unfold cleaned. cbn [fs].
  destruct (fault env _ _); [reflexivity|].
  apply rm_at_frame. exact H.
Qed.

(** X12. A request without uploaded files writes inside its work area
    only: whatever the outcome of the two statements that create the work
    area and write the source, every path that leaves the work area's path
    on the way holds after them what it held before. *)
Theorem single_blob_writes_stay_inside
        (env : Env) (workDir : jsstring) (body : Body) (w : World)
        (q : list jsstring) :
  single_blob body ->
  Path.is_absolute workDir = true ->
  diverge (segs_of workDir) q ->
  lookup q (fs (snd (materialize env workDir body w))) = lookup q (fs w).
Proof.
  intros Hsingle Habs Hq. unfold materialize, bind.
  pose proof (fs_mkdir_frame env workDir q w Hq) as Hmk.
  destruct (fs_mkdir env workDir w) as [[[]| e | |] w1]; cbn [snd] in *;
    [|exact Hmk|exact Hmk|exact Hmk].
  rewrite <- Hmk.
  destruct (detectMainClass (replace_crlf (or_empty (code body))))
    as [main|] eqn:Hmain.
  - rewrite (writeFiles_single env workDir body w1 main Hsingle Hmain).
    apply fs_writeFile_frame.
    rewrite (segs_of_java_file workDir main Habs
               (detectMainClass_identifier _ _ Hmain)).
    apply diverge_app. exact Hq.
  - unfold writeFiles. cbn [normalize]. rewrite Hmain.
    destruct Hsingle as [-> | ->]; reflexivity.
Qed.

Lemma single_blob_writes_stay_inside_witness :
  lookup [str "tmp"; str "java-run-2"]
    (fs (snd (materialize ok_env sample_workDir
                (mkBody (Some (str "public class Main {}")) None None None)
                with_main)))
  = lookup [str "tmp"; str "java-run-2"] (fs with_main).
Proof.
  apply single_blob_writes_stay_inside.
  - left. reflexivity.
  - reflexivity.
  - exists [str "tmp"], (str "java-run-1"), (str "java-run-2"), [], [].
    repeat split. discriminate.
Defined.

(** X13. The cleanup of one request spares the others: with an absolute
    temporary directory and request ids without a slash, the removal of
    the work area of one id, failed or not, leaves everything at and below
    the work area of any other id as it was. *)
Theorem cleanup_spares_other_requests
        (env : Env) (id id' : jsstring) (rest : list jsstring) (w : World) :
  Path.is_absolute (tmpdir env) = true ->
  slash_free id -> slash_free id' -> id <> id' ->
  lookup (segs_of (request_workDir env id') ++ rest)
    (fs (snd (swallow (fs_rm env (request_workDir env id)) w)))
  = lookup (segs_of (request_workDir env id') ++ rest) (fs w).
Proof.
  intros Habs Hid Hid' Hne. rewrite swallow_rm. cbn [snd].
  apply cleaned_frame.
  rewrite (segs_of_request_workDir env id Habs Hid),
          (segs_of_request_workDir env id' Habs Hid').
  apply diverge_below, diverge_siblings.
  intros E. apply app_inv_head in E. contradiction.
Qed.

Lemma cleanup_spares_other_requests_witness :
  lookup (segs_of (request_workDir ok_env (str "1")) ++ [str "Main.java"])
    (fs (snd (swallow (fs_rm ok_env (request_workDir ok_env (str "2")))
                with_main)))
  = lookup (segs_of (request_workDir ok_env (str "1")) ++ [str "Main.java"])
      (fs with_main).
Proof.
  apply cleanup_spares_other_requests; try reflexivity. discriminate.
Defined.

(** ** What a server error tells *)

Lemma forallb_fs_ops (ops : list FsOp) :
  forallb is_fs_action (map AFs ops) = true.
Proof. induction ops as [|op ops IH]; [reflexivity | exact IH]. Qed.

(** The pipeline throws out of its walk or out of [spawn], never because
    of what a process that runs does. *)
Lemma runJavaLocal_throws
      (env : Env) (workDir mainClass input : jsstring) (w w' : World)
      (e : JsError) :
  runJavaLocal env workDir mainClass input w = (Throw e, w') ->
  (exists ops, w' = mkWorld (fs w) (log w ++ map AFs ops))
  \/ (exists javaFiles,
         spawn_throws env (java_req workDir mainClass input) = Some e
         /\ spawns (log w')
            = spawns (log w) ++ [compile_step workDir javaFiles]).
Proof.
  intros H.
  destruct (reads_only_walk_workDir env workDir w) as [ops Hops].
  destruct (walk_workDir env workDir w) as [[fl|e0| |] w1] eqn:Hw;
    cbn [snd] in Hops.
  - destruct fl as [|f fl].
    + unfold runJavaLocal, bind in H. rewrite Hw in H. discriminate H.
    + assert (Hne : f :: fl <> []) by discriminate.
      destruct (spawn_throws env (javac_req workDir (f :: fl))) as [e1|] eqn:Hs.
      * rewrite (runJavaLocal_compile_rejected env workDir mainClass input w
                   _ _ e1 Hw Hne Hs) in H.
        injection H as _ <-. left. exists ops. exact Hops.
      * pose proof (runJavaLocal_steps env workDir mainClass input w _ _ Hw
                      Hne Hs) as S.
        pose proof (runJavaLocal_with_sources env workDir mainClass input w
                      (f :: fl) w1 Hw Hne Hs) as E.
        cbv zeta in E, S. rewrite H in E, S. cbn [snd] in S.
        apply (f_equal fst) in E. cbn [fst] in E.
        unfold proceeds, starts, unsettled in *.
        destruct (resolved _) as [c|]; [|destruct (dies _); discriminate E].
        destruct (killedByTimeout c); [discriminate E|].
        destruct (exit_zero c); cbn [negb andb] in *; [|discriminate E].
        destruct (spawn_throws env (java_req workDir mainClass input))
          as [e2|] eqn:Hsr.
        -- injection E as ->. right. exists (f :: fl).
           split; [reflexivity | exact S].
        -- destruct (resolved _) as [r|];
             [discriminate E | destruct (dies _); discriminate E].
  - unfold runJavaLocal, bind in H. rewrite Hw in H.
    injection H as _ <-. left. exists ops. exact Hops.
  - unfold runJavaLocal, bind in H. rewrite Hw in H. discriminate H.
  - unfold runJavaLocal, bind in H. rewrite Hw in H. discriminate H.
Qed.

Lemma try_block_throws
      (env : Env) (workDir : jsstring) (body : Body) (w w' : World)
      (e : JsError) :
  try_block env workDir body w = (Throw e, w') ->
  exists d,
    log w' = log w ++ d
    /\ (forallb is_fs_action d = true
        \/ exists javaFiles,
             spawn_throws env
               (java_req workDir (entry_point (mainClass body) (code body))
                  (request_input body))
             = Some e
             /\ spawns d = [compile_step workDir javaFiles]).
Proof.
  unfold try_block, bind. intros H.
  destruct (only_materialize env workDir body w) as (d1 & E1 & Q1).
  destruct (materialize env workDir body w) as [[[]|e1| |] w1]; cbn [snd] in E1.
  - destruct (is_empty _); [discriminate H|].
    destruct (only_runJavaLocal env workDir
                (entry_point (mainClass body) (code body))
                (request_input body) w1) as (d2 & E2 & _).
    destruct (runJavaLocal env workDir _ _ w1) as [[out|e2| |] w2] eqn:R;
      [discriminate H| |discriminate H|discriminate H].
    injection H as <- <-. cbn [snd] in E2.
    exists (d1 ++ d2). split; [rewrite E2, E1, <- app_assoc; reflexivity|].
    apply runJavaLocal_throws in R as [[ops ->] | (fl & Hs & S)].
    + left. cbn [log] in E2. apply app_inv_head in E2. subst d2.
      rewrite forallb_app, Q1. apply forallb_fs_ops.
    + right. exists fl. split; [exact Hs|].
      rewrite E2, spawns_app in S. apply app_inv_head in S.
      rewrite spawns_app, (spawns_none d1 Q1). exact S.
  - injection H as _ <-. exists d1. split; [exact E1 | left; exact Q1].
  - discriminate H.
  - discriminate H.
Qed.

(** X14. A server error comes from a throw in front of a process, never
    from a process that ran: when the handler has answered with status 500,
    the text of the answer is [Server error: ] followed by the text of the
    error thrown in the [try] block, and either everything done before the
    answer was a call into the file system, so that no process was started,
    or the error is what [spawn] threw for the program after the compile
    step had run, and the program was not started. *)
Theorem server_error_origin
        (env : Env) (id : jsstring) (body : Body) (w : World)
        (d : list Action) (out : jsstring) :
  log (snd (post_run env id body w))
  = log w ++ d ++ [ARespond 500 out; AFs (OpRm (request_workDir env id))] ->
  exists e,
    fst (try_block env (request_workDir env id) body w) = Throw e
    /\ out = MSG_SERVER_ERROR ++ error_text e
    /\ ((forallb is_fs_action d = true /\ spawns d = [])
        \/ exists javaFiles,
             spawn_throws env
               (java_req (request_workDir env id)
                  (entry_point (mainClass body) (code body))
                  (request_input body))
             = Some e
             /\ spawns d = [compile_step (request_workDir env id) javaFiles]).
Proof.
  intros H. rewrite post_run_by_try in H.
  destruct (try_block_log env (request_workDir env id) body w) as (d' & R & L).
  destruct (try_block env (request_workDir env id) body w)
    as [[[]|e| |] w1] eqn:T; cbn [fst snd] in *.
  - destruct L as [o L]. unfold cleaned in H. cbn [log] in H.
    rewrite L, <- !app_assoc in H. apply app_inv_head in H.
    cbn [app] in H. apply snoc_inj in H as [_ H]. discriminate H.
  - destruct (try_block_throws env _ body w w1 e T) as (d1 & E1 & Q1).
    unfold cleaned in H. cbn [log fs] in H.
    rewrite E1, <- !app_assoc in H. apply app_inv_head in H.
    cbn [app] in H. apply snoc_inj in H as [<- H]. injection H as <-.
    exists e. split; [reflexivity|]. split; [reflexivity|].
    destruct Q1 as [Q1 | Q1]; [left | right; exact Q1].
    split; [exact Q1 | exact (spawns_none d1 Q1)].
  - rewrite L in H. apply app_inv_head in H. subst d'.
    rewrite responses_app in R. apply app_eq_nil in R as [_ R].
    discriminate R.
  - rewrite L in H. apply app_inv_head in H. subst d'.
    rewrite responses_app in R. apply app_eq_nil in R as [_ R].
    discriminate R.
Qed.

Lemma server_error_origin_witness :
  (exists e,
      fst (try_block ok_env (request_workDir ok_env (str "1"))
             (mkBody (Some src_no_class) None None None) empty_tmp)
      = Throw e
      /\ str "Server error: No class found in code."
         = MSG_SERVER_ERROR ++ error_text e
      /\ ((forallb is_fs_action [AFs (OpMkdir (str "/tmp/java-run-1"))] = true
           /\ spawns [AFs (OpMkdir (str "/tmp/java-run-1"))] = [])
          \/ exists javaFiles,
               spawn_throws ok_env
                 (java_req (request_workDir ok_env (str "1"))
                    (entry_point None (Some src_no_class))
                    (request_input (mkBody (Some src_no_class) None None None)))
               = Some e
               /\ spawns [AFs (OpMkdir (str "/tmp/java-run-1"))]
                  = [compile_step (request_workDir ok_env (str "1"))
                       javaFiles]))
  /\ (exists e,
         fst (try_block nul_checking_env
                (request_workDir nul_checking_env (str "1"))
                nul_class_request empty_tmp)
         = Throw e
         /\ str "Server error: The argument 'args' must be a string without null bytes"
            = MSG_SERVER_ERROR ++ error_text e
         /\ ((forallb is_fs_action nul_class_calls = true
              /\ spawns nul_class_calls = [])
             \/ exists javaFiles,
                  spawn_throws nul_checking_env
                    (java_req (request_workDir nul_checking_env (str "1"))
                       (entry_point (mainClass nul_class_request)
                          (code nul_class_request))
                       (request_input nul_class_request))
                  = Some e
                  /\ spawns nul_class_calls
                     = [compile_step
                          (request_workDir nul_checking_env (str "1"))
                          javaFiles])).
Proof.
  split.
  - apply (server_error_origin ok_env (str "1")
             (mkBody (Some src_no_class) None None None) empty_tmp).
    reflexivity.
  - apply (server_error_origin nul_checking_env (str "1")
             nul_class_request empty_tmp nul_class_calls).
    reflexivity.
Defined.

(** ** Plain file names below an absolute directory *)

Lemma slash_free_rev (s : jsstring) : slash_free s -> slash_free (rev s).
Proof.
  unfold slash_free. intros H. apply forallb_forall. intros c Hc.
  apply in_rev in Hc. revert c Hc. apply forallb_forall. exact H.
Qed.

Lemma drop_slashes_slash_free (s r : jsstring) :
  slash_free s -> s <> [] ->
  drop_while Path.is_slash (s ++ r) = s ++ r.
Proof.
  intros H Hne. destruct s as [|c s]; [contradiction|].
  unfold slash_free in H. cbn [forallb] in H.
  apply andb_true_iff in H as [Hc _]. cbn [app drop_while].
  unfold Path.is_slash. apply negb_true_iff in Hc. rewrite Hc. reflexivity.
Qed.

Lemma drop_segment_slash_free (s r : jsstring) :
  slash_free s ->
  drop_while (fun c => negb (Path.is_slash c)) (s ++ SLASH :: r) = SLASH :: r.
Proof.
  unfold slash_free. induction s as [|c s IH]; intros H.
  - reflexivity.
  - cbn [forallb] in H. apply andb_true_iff in H as [Hc Hs].
    cbn [app drop_while]. unfold Path.is_slash at 1. rewrite Hc. exact (IH Hs).
Qed.

Lemma drop_segment_all (s : jsstring) :
  slash_free s -> drop_while (fun c => negb (Path.is_slash c)) s = [].
Proof.
  unfold slash_free. induction s as [|c s IH]; intros H; [reflexivity|].
  cbn [forallb] in H. apply andb_true_iff in H as [Hc Hs].
  cbn [drop_while]. unfold Path.is_slash at 1. rewrite Hc. exact (IH Hs).
Qed.

Lemma has_trailing_slash_slash_free (x nm : jsstring) :
  slash_free nm -> nm <> [] -> Path.has_trailing_slash (x ++ nm) = false.
Proof.
  intros H Hne. unfold Path.has_trailing_slash. rewrite rev_app_distr.
  pose proof (slash_free_rev nm H) as Hr.
  destruct (rev nm) as [|c r] eqn:E.
  - apply (f_equal (@rev _)) in E. rewrite rev_involutive in E. contradiction.
  - unfold slash_free in Hr. cbn [forallb] in Hr.
    apply andb_true_iff in Hr as [Hc _]. apply negb_true_iff in Hc.
    cbn [app]. exact Hc.
Qed.

Lemma join_segs_snoc_cons (y : jsstring) (l : list jsstring) (x : jsstring) :
  Path.join_segs ((y :: l) ++ [x]) = Path.join_segs (y :: l) ++ SLASH :: x.
Proof.
  revert y. induction l as [|z l IH]; intros y.
  - reflexivity.
  - change (Path.join_segs ((y :: z :: l) ++ [x]))
      with (y ++ SLASH :: Path.join_segs ((z :: l) ++ [x])).
    rewrite IH.
    change (Path.join_segs (y :: z :: l))
      with (y ++ SLASH :: Path.join_segs (z :: l)).
    rewrite <- app_assoc. reflexivity.
Qed.

Lemma proper_nonempty (s : jsstring) : proper s = true -> s <> [].
Proof. intros H E. subst s. discriminate H. Qed.

Lemma segs_of_slash_free (p : jsstring) : Forall slash_free (segs_of p).
Proof. apply norm_segs_slash_free, split_slash_free. Qed.

Lemma segs_of_proper (p : jsstring) :
  Forall (fun s => proper s = true) (segs_of p).
Proof. apply norm_segs_proper. Qed.

(** The string [path.join] gives for a plain name below an absolute
    directory. *)
Lemma join_plain (a nm : jsstring) :
  Path.is_absolute a = true -> slash_free nm -> proper nm = true ->
  Path.join a nm = SLASH :: Path.join_segs (segs_of a ++ [nm]).
Proof.
  intros Habs Hsf Hp. pose proof (proper_nonempty nm Hp) as Hne.
  destruct (is_absolute_cons a Habs) as [t ->].
  unfold Path.join. cbn [is_empty].
  destruct nm as [|c nm'] eqn:Enm; [contradiction|]. cbn [is_empty].
  rewrite <- Enm in *. clear Enm c nm'.
  unfold Path.normalize_path.
  change (is_empty ((SLASH :: t) ++ SLASH :: nm)) with false.
  change (Path.is_absolute ((SLASH :: t) ++ SLASH :: nm)) with true.
  cbn [negb].
  replace ((SLASH :: t) ++ SLASH :: nm) with (((SLASH :: t) ++ [SLASH]) ++ nm)
    by (rewrite <- app_assoc; reflexivity).
  rewrite (has_trailing_slash_slash_free _ nm Hsf Hne).
  replace (((SLASH :: t) ++ [SLASH]) ++ nm) with ((SLASH :: t) ++ SLASH :: nm)
    by (rewrite <- app_assoc; reflexivity).
  rewrite split_app_slash, (split_of_slash_free nm Hsf), norm_segs_app.
  cbn [fold_left].
  rewrite (norm_step_no_dotdot _ _ nm (proper_not_dotdot nm Hp)), Hp.
  cbn [rev]. rewrite rev_involutive. fold (segs_of (SLASH :: t)).
  assert (Hb : is_empty (Path.join_segs (segs_of (SLASH :: t) ++ [nm])) = false).
  { apply join_segs_not_empty.
    - apply app_cons_nonempty.
    - apply Forall_app. split; [apply segs_of_proper|].
      constructor; [exact Hp | constructor]. }
  rewrite Hb. cbn [app]. rewrite app_nil_r. reflexivity.
Qed.

Lemma segs_of_rooted (l : list jsstring) :
  l <> [] -> Forall slash_free l -> Forall (fun s => proper s = true) l ->
  segs_of (SLASH :: Path.join_segs l) = l.
Proof.
  intros Hne Hsf Hp. unfold segs_of.
  change (SLASH :: Path.join_segs l) with ([] ++ SLASH :: Path.join_segs l).
  rewrite split_app_slash, (split_join_segs l Hsf Hne).
  change (Path.split []) with [@nil char16].
  change (Path.norm_segs false ([[]] ++ l)) with (Path.norm_segs false l).
  apply norm_segs_of_proper. exact Hp.
Qed.

(** The directory of a plain name below an absolute directory is that
    directory. *)
Lemma dirname_join_plain (a nm : jsstring) :
  Path.is_absolute a = true -> slash_free nm -> proper nm = true ->
  segs_of (Path.dirname (Path.join a nm)) = segs_of a.
Proof.
  intros Habs Hsf Hp. rewrite (join_plain a nm Habs Hsf Hp).
  pose proof (proper_nonempty nm Hp) as Hne.
  pose proof (segs_of_slash_free a) as Ssf.
  pose proof (segs_of_proper a) as Sp.
  destruct (segs_of a) as [|y l].
  - cbn [app Path.join_segs]. unfold Path.dirname.
    change (char_eqb SLASH SLASH) with true.
    rewrite <- (app_nil_r (rev nm)).
    rewrite drop_slashes_slash_free;
      [|apply slash_free_rev; exact Hsf
       |intros E; apply (f_equal (@rev _)) in E;
        rewrite rev_involutive in E; contradiction].
    rewrite app_nil_r, (drop_segment_all _ (slash_free_rev nm Hsf)).
    reflexivity.
  - rewrite join_segs_snoc_cons. unfold Path.dirname.
    change (char_eqb SLASH SLASH) with true.
    rewrite rev_app_distr. cbn [rev]. rewrite <- app_assoc. cbn [app].
    rewrite drop_slashes_slash_free;
      [|apply slash_free_rev; exact Hsf
       |intros E; apply (f_equal (@rev _)) in E;
        rewrite rev_involutive in E; contradiction].
    rewrite (drop_segment_slash_free _ _ (slash_free_rev nm Hsf)).
    assert (Hb : is_empty (rev (Path.join_segs (y :: l))) = false).
    { pose proof (join_segs_not_empty (y :: l)) as J.
      destruct (Path.join_segs (y :: l)) as [|c r] eqn:E.
      - discriminate (J ltac:(discriminate) Sp).
      - cbn [rev]. destruct (rev r); reflexivity. }
    rewrite Hb. cbn [andb]. rewrite rev_involutive.
    apply segs_of_rooted; [discriminate | exact Ssf | exact Sp].
Qed.

Lemma segs_of_join_plain (a nm : jsstring) :
  Path.is_absolute a = true -> slash_free nm -> proper nm = true ->
  segs_of (Path.join a nm) = segs_of a ++ [nm].
Proof.
  intros Habs Hsf Hp. rewrite segs_of_join_down; [|exact Habs|].
  - rewrite (split_of_slash_free nm Hsf). cbn [filter]. rewrite Hp. reflexivity.
  - rewrite (split_of_slash_free nm Hsf).
    constructor; [apply proper_not_dotdot; exact Hp | constructor].
Qed.

(** ** The whole loop over the uploaded files *)

Lemma set_entry_same (s : jsstring) (child : node)
      (es : list (jsstring * node)) :
  find_entry s es = Some child -> set_entry s child es = es.
Proof.
  induction es as [|[k x] es IH]; cbn [find_entry set_entry]; [discriminate|].
  destruct (str_eqb k s) eqn:E.
  - intros H. inversion H; subst. apply str_eqb_eq in E. subst. reflexivity.
  - intros H. rewrite (IH H). reflexivity.
Qed.

(** [mkdir -p] of a directory that exists changes nothing. *)
Lemma mkdirp_existing (p : list jsstring) :
  forall n es, lookup p n = Some (Dir es) -> mkdirp p n = FsOk n.
Proof.
  induction p as [|s rest IH]; intros n es H.
  - cbn [lookup] in H. inversion H; subst. reflexivity.
  - destruct n as [d|es0]; [discriminate H|]. cbn [lookup] in H.
    cbn [mkdirp]. destruct (find_entry s es0) as [child|] eqn:F;
      [|discriminate H].
    rewrite (IH child es H), (set_entry_same s child es0 F). reflexivity.
Qed.

(** [mkdir -p] of a missing entry of a directory that exists makes it an
    empty directory. *)
Lemma mkdirp_fresh (pre : list jsstring) (x : jsstring) :
  forall n es,
    lookup pre n = Some (Dir es) -> find_entry x es = None ->
    exists n', mkdirp (pre ++ [x]) n = FsOk n'
               /\ lookup (pre ++ [x]) n' = Some (Dir []).
Proof.
  induction pre as [|s pre IH]; intros n es H F.
  - cbn [lookup] in H. inversion H; subst. cbn [app mkdirp]. rewrite F.
    eexists. split; [reflexivity|]. cbn [lookup mkchain].
    rewrite (find_app_new x _ es F). reflexivity.
  - destruct n as [d|es0]; [discriminate H|]. cbn [lookup] in H.
    cbn [app mkdirp]. destruct (find_entry s es0) as [child|] eqn:G;
      [|discriminate H].
    destruct (IH child es H F) as (child' & M & L). rewrite M.
    eexists. split; [reflexivity|]. cbn [lookup]. rewrite find_set_entry.
    exact L.
Qed.

(** Writing an entry of a directory that exists, where no directory is in
    the way, succeeds and sets that entry. *)
Lemma write_at_entry (pre : list jsstring) (nm data : jsstring) :
  forall n items,
    lookup pre n = Some (Dir items) ->
    (forall es, find_entry nm items <> Some (Dir es)) ->
    exists n', write_at (pre ++ [nm]) data n = FsOk n'
               /\ lookup pre n' = Some (Dir (set_entry nm (File data) items)).
Proof.
  induction pre as [|s pre IH]; intros n items H Hfree.
  - cbn [lookup] in H. inversion H; subst. cbn [app write_at].
    exists (Dir (set_entry nm (File data) items)). split; [|reflexivity].
    destruct (find_entry nm items) as [[d|es]|] eqn:F; try reflexivity.
    exfalso. exact (Hfree es eq_refl).
  - destruct n as [d|es0]; [discriminate H|]. cbn [lookup] in H.
    cbn [app]. rewrite write_at_below by apply app_cons_nonempty.
    destruct (find_entry s es0) as [child|] eqn:G; [|discriminate H].
    destruct (IH child items H Hfree) as (child' & W & L). rewrite W.
    eexists. split; [reflexivity|]. cbn [lookup]. rewrite find_set_entry.
    exact L.
Qed.

Lemma lookup_entry (pre : list jsstring) (nm : jsstring) :
  forall n items,
    lookup pre n = Some (Dir items) ->
    lookup (pre ++ [nm]) n = find_entry nm items.
Proof.
  induction pre as [|s pre IH]; intros n items H.
  - cbn [lookup] in H. inversion H; subst. cbn [app lookup].
    destruct (find_entry nm items); reflexivity.
  - destruct n as [d|es0]; [discriminate H|]. cbn [lookup] in H.
    cbn [app lookup]. destruct (find_entry s es0) as [child|];
      [|discriminate H].
    exact (IH child items H).
Qed.

Lemma in_set_entry (nm : jsstring) (v : node) (es : list (jsstring * node))
      (kv : jsstring * node) :
  In kv (set_entry nm v es) -> kv = (nm, v) \/ In kv es.
Proof.
  induction es as [|[k x] es IH]; cbn [set_entry].
  - intros [E | []]. left. symmetry. exact E.
  - destruct (str_eqb k nm).
    + intros [E | H]; [left; symmetry; exact E | right; right; exact H].
    + intros [E | H]; [right; left; exact E|].
      destruct (IH H) as [E | H']; [left; exact E | right; right; exact H'].
Qed.

Lemma flat_put_upload (items : list (jsstring * node)) (f : SourceFile) :
  flat items -> flat (put_upload items f).
Proof.
  intros H. unfold put_upload. destruct (is_source f); [|exact H].
  intros k v Hin. apply in_set_entry in Hin as [E | Hin].
  - inversion E. eexists. reflexivity.
  - exact (H k v Hin).
Qed.

Lemma flat_no_dir (items : list (jsstring * node)) (nm : jsstring) :
  flat items -> forall es, find_entry nm items <> Some (Dir es).
Proof.
  intros H es F. apply find_entry_in in F. destruct (H _ _ F) as [d E].
  discriminate E.
Qed.

Lemma proper_source (f : SourceFile) :
  is_source f = true -> proper (upload_name f) = true.
Proof.
  unfold is_source. intros H. apply endsWith_app in H as [pre ->].
  apply proper_java.
Qed.

(** One turn of the loop on a flat work area, on a machine whose file
    system does not fail. *)
Lemma write_one_flat
      (env : Env) (workDir : jsstring) (f : SourceFile) (w : World)
      (items : list (jsstring * node)) :
  fault_free env -> Path.is_absolute workDir = true ->
  lookup (segs_of workDir) (fs w) = Some (Dir items) -> flat items ->
  (is_source f = true -> slash_free (upload_name f)) ->
  exists w',
    write_one env workDir f w = (Val tt, w')
    /\ lookup (segs_of workDir) (fs w') = Some (Dir (put_upload items f)).
Proof.
  intros Hff Habs Hdir Hflat Hplain. unfold write_one, put_upload. cbv zeta.
  change (trim (or_empty (name f))) with (upload_name f).
  change (endsWith (upload_name f) (str ".java")) with (is_source f).
  destruct (is_source f) eqn:S; cbn [negb].
  - pose proof (Hplain eq_refl) as Hsf.
    pose proof (proper_source f S) as Hp.
    unfold bind, fs_mkdir, fs_writeFile, fs_call. rewrite Hff.
    rewrite (dirname_join_plain workDir (upload_name f) Habs Hsf Hp).
    rewrite (mkdirp_existing _ _ _ Hdir). cbn [fs log]. rewrite Hff.
    rewrite (segs_of_join_plain workDir (upload_name f) Habs Hsf Hp).
    destruct (write_at_entry (segs_of workDir) (upload_name f)
                (normalize (Some (or_empty (content f)))) (fs w) items Hdir
                (flat_no_dir items (upload_name f) Hflat)) as (n' & W & L).
    rewrite W. eexists. split; [reflexivity | exact L].
  - exists w. split; [reflexivity | exact Hdir].
Qed.

Lemma for_each_flat
      (env : Env) (workDir : jsstring) (fl : list SourceFile) :
  fault_free env -> Path.is_absolute workDir = true ->
  (forall g, In g fl -> is_source g = true -> slash_free (upload_name g)) ->
  forall (w : World) (items : list (jsstring * node)),
    lookup (segs_of workDir) (fs w) = Some (Dir items) -> flat items ->
    exists w',
      for_each fl (write_one env workDir) w = (Val tt, w')
      /\ lookup (segs_of workDir) (fs w')
         = Some (Dir (fold_left put_upload fl items)).
Proof.
  intros Hff Habs. induction fl as [|f fl IH]; intros Hplain w items Hdir Hflat.
  - exists w. split; [reflexivity | exact Hdir].
  - destruct (write_one_flat env workDir f w items Hff Habs Hdir Hflat
                (Hplain f (or_introl eq_refl))) as (w1 & E1 & L1).
    destruct (IH (fun g Hg => Hplain g (or_intror Hg)) w1 (put_upload items f)
                L1 (flat_put_upload items f Hflat)) as (w' & E & L).
    exists w'. split; [|exact L].
    cbn [for_each]. rewrite (bind_val _ _ w tt w1 E1). exact E.
Qed.

Lemma find_fold_put_upload (nm : jsstring) (fl : list SourceFile) :
  forall items,
    find_entry nm (fold_left put_upload fl items)
    = match last_upload nm fl with
      | Some d => Some (File d)
      | None => find_entry nm items
      end.
Proof.
  induction fl as [|f fl IH]; intros items; [reflexivity|].
  cbn [fold_left last_upload]. rewrite IH.
  destruct (last_upload nm fl) as [d|]; [reflexivity|].
  unfold put_upload. destruct (is_source f); cbn [andb]; [|reflexivity].
  destruct (str_eqb (upload_name f) nm) eqn:E.
  - apply str_eqb_eq in E. subst nm. apply find_set_entry.
  - apply find_set_entry_other. intros E'. rewrite E', str_eqb_refl in E.
    discriminate E.
Qed.

(** X15. The last upload of a name wins: on a machine whose file system
    does not fail, with an absolute work area that holds regular files only
    and uploads whose [.java] names have no slash, the loop of [writeFiles]
    runs to its end, and afterwards every name holds the content of the
    last upload written under it, and what it held before when no upload
    was written under it. *)
Theorem writeFiles_last_upload_wins
        (env : Env) (workDir : jsstring) (body : Body)
        (f : SourceFile) (fl : list SourceFile) (w : World)
        (items : list (jsstring * node)) :
  files body = Some (f :: fl) ->
  fault_free env ->
  Path.is_absolute workDir = true ->
  lookup (segs_of workDir) (fs w) = Some (Dir items) ->
  flat items ->
  (forall g, In g (f :: fl) -> is_source g = true ->
             slash_free (upload_name g)) ->
  exists w',
    writeFiles env workDir body w = (Val tt, w')
    /\ forall nm,
         lookup (segs_of workDir ++ [nm]) (fs w')
         = match last_upload nm (f :: fl) with
           | Some d => Some (File d)
           | None => lookup (segs_of workDir ++ [nm]) (fs w)
           end.
Proof.
  intros Hfiles Hff Habs Hdir Hflat Hplain.
  destruct (for_each_flat env workDir (f :: fl) Hff Habs Hplain w items
              Hdir Hflat) as (w' & E & L).
  exists w'. split.
  - unfold writeFiles. rewrite Hfiles. exact E.
  - intros nm. rewrite (lookup_entry _ nm _ _ L), (lookup_entry _ nm _ _ Hdir).
    apply find_fold_put_upload.
Qed.

Lemma writeFiles_last_upload_wins_witness :
  exists w',
    writeFiles ok_env sample_workDir
      (mkBody None
         (Some [mkSourceFile (Some (str "A.java")) (Some (str "class A {}"));
                mkSourceFile (Some (str "notes.txt")) (Some (str "n"));
                mkSourceFile (Some (str " A.java ")) (Some (str "class A { }"))])
         None None)
      with_main
    = (Val tt, w')
    /\ forall nm,
         lookup (segs_of sample_workDir ++ [nm]) (fs w')
         = match last_upload nm
                   [mkSourceFile (Some (str "A.java")) (Some (str "class A {}"));
                    mkSourceFile (Some (str "notes.txt")) (Some (str "n"));
                    mkSourceFile (Some (str " A.java "))
                                 (Some (str "class A { }"))] with
           | Some d => Some (File d)
           | None => lookup (segs_of sample_workDir ++ [nm]) (fs with_main)
           end.
Proof.
  apply (writeFiles_last_upload_wins ok_env sample_workDir _ _ _ with_main
           [(str "Main.java", File (str "class Main {}"))]).
  - reflexivity.
  - intros op n. reflexivity.
  - reflexivity.
  - reflexivity.
  - intros k v [E | []]. inversion E. eexists. reflexivity.
  - intros g [<- | [<- | [<- | []]]] H; (reflexivity || discriminate H).
Defined.

(** ** Uploads of which none is a source *)

Lemma for_each_skipped
      (env : Env) (workDir : jsstring) (fl : list SourceFile) (w : World) :
  (forall g, In g fl -> is_source g = false) ->
  for_each fl (write_one env workDir) w = (Val tt, w).
Proof.
  induction fl as [|f fl IH]; intros H; [reflexivity|].
  cbn [for_each].
  assert (E : write_one env workDir f w = (Val tt, w)).
  { unfold write_one. cbv zeta.
    change (endsWith (trim (or_empty (name f))) (str ".java"))
      with (is_source f).
    rewrite (H f (or_introl eq_refl)). reflexivity. }
  rewrite (bind_val _ _ w tt w E).
  apply IH. intros g Hg. apply H. right. exact Hg.
Qed.

(** X16. Uploads of which none has a name that ends in [.java] leave the
    work area empty: with an entry point given, a temporary directory that
    exists, a work area that does not exist yet and a file system that does
    not fail, the handler creates the work area, reads it, answers 200 with
    the text that no [.java] files were found, and removes the work area;
    it writes no file and starts no process. *)
Theorem uploads_without_sources
        (env : Env) (id : jsstring) (body : Body)
        (f : SourceFile) (fl : list SourceFile) (w : World)
        (es : list (jsstring * node)) :
  files body = Some (f :: fl) ->
  (forall g, In g (f :: fl) -> is_source g = false) ->
  is_empty (entry_point (mainClass body) (code body)) = false ->
  fault_free env ->
  Path.is_absolute (tmpdir env) = true ->
  slash_free id ->
  lookup (segs_of (tmpdir env)) (fs w) = Some (Dir es) ->
  find_entry (str "java-run-" ++ id) es = None ->
  fst (post_run env id body w) = Val tt
  /\ log (snd (post_run env id body w))
     = log w ++ [AFs (OpMkdir (request_workDir env id));
                 AFs (OpReaddir (request_workDir env id));
                 ARespond 200 MSG_NO_JAVA;
                 AFs (OpRm (request_workDir env id))].
Proof.
  intros Hfiles Hskip Hmain Hff Habs Hid Htmp Hfresh.
  set (workDir := request_workDir env id).
  destruct (mkdirp_fresh (segs_of (tmpdir env)) (str "java-run-" ++ id)
              (fs w) es Htmp Hfresh) as (n1 & Hmk' & Hdir').
  pose proof (segs_of_request_workDir env id Habs Hid) as Hsegs.
  fold workDir in Hsegs.
  assert (Hmk : mkdirp (segs_of workDir) (fs w) = FsOk n1)
    by (rewrite Hsegs; exact Hmk').
  assert (Hdir : lookup (segs_of workDir) n1 = Some (Dir []))
    by (rewrite Hsegs; exact Hdir').
  clear Hmk' Hdir' Hsegs.
  set (w1 := mkWorld n1 (log w ++ [AFs (OpMkdir workDir)])).
  assert (E1 : fs_mkdir env workDir w = (Val tt, w1)).
  { unfold fs_mkdir, fs_call. rewrite Hff, Hmk. reflexivity. }
  assert (E2 : writeFiles env workDir body w1 = (Val tt, w1)).
  { unfold writeFiles. rewrite Hfiles. apply for_each_skipped. exact Hskip. }
  assert (Em : materialize env workDir body w = (Val tt, w1)).
  { unfold materialize. rewrite (bind_val _ _ w tt w1 E1). exact E2. }
  set (w2 := mkWorld n1 (log w1 ++ [AFs (OpReaddir workDir)])).
  assert (Ew : walk_workDir env workDir w1 = (Val [], w2)).
  { unfold walk_workDir. cbn [fs w1]. rewrite Hdir. cbn [walk].
    unfold bind, fs_readdir, fs_call. cbn [fs]. rewrite Hff. reflexivity. }
  assert (E3 : runJavaLocal env workDir
                 (entry_point (mainClass body) (code body))
                 (request_input body) w1
               = (Val MSG_NO_JAVA, w2)).
  { unfold runJavaLocal. rewrite (bind_val _ _ w1 [] w2 Ew). reflexivity. }
  assert (Et : try_block env workDir body w
               = (Val tt, mkWorld n1 (log w2 ++ [ARespond 200 MSG_NO_JAVA]))).
  { unfold try_block. rewrite (bind_val _ _ w tt w1 Em), Hmain.
    rewrite (bind_val _ _ w1 MSG_NO_JAVA w2 E3). reflexivity. }
  rewrite post_run_by_try. fold workDir. rewrite Et. split; [reflexivity|].
  unfold cleaned. cbn [log fs w2 w1]. rewrite <- !app_assoc. reflexivity.
Qed.

Lemma uploads_without_sources_witness :
  fst (post_run ok_env (str "7")
         (mkBody None
            (Some [mkSourceFile (Some (str "notes.txt")) (Some (str "n"))])
            (Some (str "Main")) None)
         empty_tmp)
  = Val tt
  /\ log (snd (post_run ok_env (str "7")
                 (mkBody None
                    (Some [mkSourceFile (Some (str "notes.txt"))
                                        (Some (str "n"))])
                    (Some (str "Main")) None)
                 empty_tmp))
     = log empty_tmp
         ++ [AFs (OpMkdir (request_workDir ok_env (str "7")));
             AFs (OpReaddir (request_workDir ok_env (str "7")));
             ARespond 200 MSG_NO_JAVA;
             AFs (OpRm (request_workDir ok_env (str "7")))].
Proof.
  apply (uploads_without_sources ok_env (str "7") _
           (mkSourceFile (Some (str "notes.txt")) (Some (str "n"))) []
           empty_tmp []).
  - reflexivity.
  - intros g [<- | []]. reflexivity.
  - reflexivity.
  - intros op n. reflexivity.
  - reflexivity.
  - reflexivity.
  - reflexivity.
  - reflexivity.
Defined.
